(** * LegalEase: the rule-based contract analysis of [legal_processor.py]

    A shallow embedding of [LegalDocumentProcessor] and the properties of
    its analysis pipeline and question-answering fallback.

    Conventions of the embedding.
    - A Python [str] is a [list ascii]; a character is read as the code
      point 0..255 (Latin-1), on which [str.lower], [str.isspace] and the
      regular-expression classes [\s], [\w] are written out below.  On
      this alphabet [lower] keeps the length of a string, as the source
      relies on when it indexes [text] with positions found in
      [text.lower()].  Beyond it [str.lower] can lengthen a string
      (U+0130 becomes two characters); the properties of the context
      windows are stated for texts of code points below 256.
    - A Python [dict] is an association list in insertion order; [d[k]]
      on a missing key raises [KeyError], modelled by [Raise].
    - The calls of [re] whose result decides a property ([re.split] on the
      two delimiters, [re.sub] of an escaped literal, the penalty counter)
      are functions of this file; the remaining patterns are delegated to
      the regular-expression engine, a parameter of the pipeline.
    - The order of [list(set(l))] is not fixed by the program; it is a
      parameter too, and every enumeration of the strings of [l] that
      holds each once is one the interpreter may give. *)

From Stdlib Require Import List Ascii String Bool Arith PeanoNat ZArith Lia.
From Stdlib Require Import Permutation.
From Stdlib Require Import DecimalString Floats.
Import ListNotations.

#[local] Open Scope list_scope.

(** ** Python strings *)

Module Py.

Definition str := list ascii.

Definition lit (x : string) : str := list_ascii_of_string x.

Definition code (c : ascii) : nat := nat_of_ascii c.

Definition between (lo hi n : nat) : bool := (lo <=? n) && (n <=? hi).

(** [c.isspace()] for a code point below 256. *)
Definition is_space (c : ascii) : bool :=
  let n := code c in
  between 9 13 n || between 28 32 n || (n =? 133) || (n =? 160).

(** The characters [str.lower] changes below 256: A-Z and the Latin-1
    capitals 192..222 except the multiplication sign 215. *)
Definition is_upper (c : ascii) : bool :=
  let n := code c in
  between 65 90 n || (between 192 222 n && negb (n =? 215)).

Definition lower_char (c : ascii) : ascii :=
  if is_upper c then ascii_of_nat (code c + 32) else c.

Definition lower (s : str) : str := map lower_char s.

(** ASCII letters, the only cased characters [title] meets here: it is
    applied to the glossary keys alone. *)
Definition is_ascii_lower (c : ascii) : bool := between 97 122 (code c).
Definition is_ascii_upper (c : ascii) : bool := between 65 90 (code c).

Definition upper_char (c : ascii) : ascii :=
  if is_ascii_lower c then ascii_of_nat (code c - 32) else c.

(** [s.title()]: a cased character is upper-cased after an uncased one
    (or at the start) and lower-cased after a cased one. *)
Fixpoint title_go (prev_cased : bool) (s : str) : str :=
  match s with
  | [] => []
  | c :: r =>
      if is_ascii_lower c || is_ascii_upper c
      then (if prev_cased then lower_char c else upper_char c) :: title_go true r
      else c :: title_go false r
  end.

Definition title (s : str) : str := title_go false s.

Definition len (s : str) : nat := List.length s.

Fixpoint str_eqb (a b : str) : bool :=
  match a, b with
  | [], [] => true
  | x :: a', y :: b' => Ascii.eqb x y && str_eqb a' b'
  | _, _ => false
  end.

Fixpoint mem (x : str) (l : list str) : bool :=
  match l with
  | [] => false
  | y :: r => str_eqb x y || mem x r
  end.

(** [s.startswith(p)] *)
Fixpoint starts_with (p s : str) : bool :=
  match p, s with
  | [], _ => true
  | a :: p', b :: s' => Ascii.eqb a b && starts_with p' s'
  | _ :: _, [] => false
  end.

(** [p in s] *)
Fixpoint contains (p s : str) : bool :=
  starts_with p s ||
  match s with
  | [] => false
  | _ :: s' => contains p s'
  end.

(** [s.find(p)], [None] standing for -1. *)
Fixpoint find (p s : str) : option nat :=
  if starts_with p s then Some 0
  else match s with
       | [] => None
       | _ :: s' => option_map S (find p s')
       end.

(** [any(k in s for k in ks)] *)
Definition any_in (ks : list str) (s : str) : bool :=
  existsb (fun k => contains k s) ks.

(** [s[a:b]] for [0 <= a]. *)
Definition slice (a b : nat) (s : str) : str := firstn (b - a) (skipn a s).

Fixpoint lstrip (s : str) : str :=
  match s with
  | [] => []
  | c :: r => if is_space c then lstrip r else s
  end.

Definition rstrip (s : str) : str := rev (lstrip (rev s)).

(** [s.strip()] *)
Definition strip (s : str) : str := rstrip (lstrip s).

(** [s.split()]: maximal runs of non-space characters. *)
Fixpoint split_ws_go (cur : str) (s : str) : list str :=
  match s with
  | [] => match cur with [] => [] | _ => [rev cur] end
  | c :: r =>
      if is_space c
      then match cur with
           | [] => split_ws_go [] r
           | _ => rev cur :: split_ws_go [] r
           end
      else split_ws_go (c :: cur) r
  end.

Definition split_ws (s : str) : list str := split_ws_go [] s.

(** [s.split(d)] for a one-character delimiter [d]. *)
Fixpoint split_on_go (d : ascii) (cur : str) (s : str) : list str :=
  match s with
  | [] => [rev cur]
  | c :: r =>
      if Ascii.eqb c d then rev cur :: split_on_go d [] r
      else split_on_go d (c :: cur) r
  end.

Definition split_on (d : ascii) (s : str) : list str := split_on_go d [] s.

(** [sep.join(l)] *)
Fixpoint join (sep : str) (l : list str) : str :=
  match l with
  | [] => []
  | [x] => x
  | x :: r => x ++ sep ++ join sep r
  end.

(** [list(dict.fromkeys(l))]: the first occurrences, in order. *)
Definition fromkeys (l : list str) : list str :=
  fold_left (fun acc x => if mem x acc then acc else acc ++ [x]) l [].

(** [len(set(a).intersection(set(b)))] *)
Definition overlap (a b : list str) : nat :=
  List.length (filter (fun w => mem w b) (fromkeys a)).

(** [str(n)] for a natural number. *)
Definition of_nat (n : nat) : str :=
  lit (NilEmpty.string_of_uint (Nat.to_uint n)).

Definition nl : ascii := ascii_of_nat 10.

(** [s[:n] + "..." if len(s) > n else s] *)
Definition clip (n : nat) (s : str) : str :=
  if n <? len s then firstn n s ++ lit "..." else s.

(** A stable sort by decreasing key: [l.sort(reverse=True, key=...)].
    The elements are inserted from the last to the first, each before
    the elements of a key not greater than its own, so that elements of
    equal key keep the order they had. *)
Fixpoint insert_desc {A} (key : A -> nat) (x : A) (l : list A) : list A :=
  match l with
  | [] => [x]
  | y :: r => if key y <=? key x then x :: l else y :: insert_desc key x r
  end.

Definition sort_desc {A} (key : A -> nat) (l : list A) : list A :=
  fold_right (insert_desc key) [] l.

End Py.
Import Py.

(** ** Exceptions and dictionaries *)

Inductive exn (A : Type) : Type :=
| Ok (a : A)
| Raise (msg : str).
Arguments Ok {A} a.
Arguments Raise {A} msg.

Definition bind {A B} (m : exn A) (k : A -> exn B) : exn B :=
  match m with
  | Ok a => k a
  | Raise e => Raise e
  end.

Notation "x <- m ;; k" := (bind m (fun x => k))
  (at level 61, m at next level, right associativity).

Definition dict (A : Type) := list (str * A).

Fixpoint dict_get {A} (k : str) (d : dict A) : option A :=
  match d with
  | [] => None
  | (k', v) :: r => if str_eqb k k' then Some v else dict_get k r
  end.

(** [str(KeyError(k))] is the [repr] of the key. *)
Definition key_error {A} (k : str) : exn A :=
  Raise (lit "'" ++ k ++ lit "'").

(** [d[k]] *)
Definition getitem {A} (k : str) (d : dict A) : exn A :=
  match dict_get k d with
  | Some v => Ok v
  | None => key_error k
  end.

(** [d.get(k, dflt)] *)
Definition get_default {A} (k : str) (dflt : A) (d : dict A) : A :=
  match dict_get k d with
  | Some v => v
  | None => dflt
  end.

(** [d[k] = v] for a key already in [d] keeps its place; a new key goes
    last. *)
Fixpoint setitem {A} (k : str) (v : A) (d : dict A) : dict A :=
  match d with
  | [] => [(k, v)]
  | (k', v') :: r =>
      if str_eqb k k' then (k', v) :: r else (k', v') :: setitem k v r
  end.

(** [d[k].append(x)] and [d[k].extend(xs)] *)
Definition extend_at {A} (k : str) (xs : list A) (d : dict (list A)) : exn (dict (list A)) :=
  l <- getitem k d ;; Ok (setitem k (l ++ xs) d).

Definition append_at {A} (k : str) (x : A) (d : dict (list A)) : exn (dict (list A)) :=
  extend_at k [x] d.

Definition keys {A} (d : dict A) : list str := map fst d.

(** The values the processor hands to its caller. *)
#[local] Set Warnings "-register-all,-inexact-float".
Inductive value : Type :=
| VStr (s : str)
| VInt (z : Z)
| VFloat (x : float)
| VList (l : list value)
| VDict (d : list (str * value)).

Definition VStrs (l : list str) : value := VList (map VStr l).

Definition VStrDict (d : dict str) : value :=
  VDict (map (fun kv => (fst kv, VStr (snd kv))) d).

Definition VListDict (d : dict (list str)) : value :=
  VDict (map (fun kv => (fst kv, VStrs (snd kv))) d).

Definition vget (k : str) (v : value) : option value :=
  match v with
  | VDict d => dict_get k d
  | _ => None
  end.

(** ** The calls of [re] that are written out *)

Module Re.

(** [\w] on a code point below 256: [c.isalnum()] or the underscore. *)
Definition is_word (c : ascii) : bool :=
  let n := code c in
  between 48 57 n || between 65 90 n || (n =? 95) || between 97 122 n
  || (n =? 170) || (n =? 178) || (n =? 179) || (n =? 181)
  || (n =? 185) || (n =? 186) || between 188 190 n
  || between 192 214 n || between 216 246 n || between 248 255 n.

Definition is_punct (c : ascii) : bool :=
  Ascii.eqb c "."%char || Ascii.eqb c "!"%char || Ascii.eqb c "?"%char.

(** [re.split(r'[.!?]+', s)] *)
Fixpoint split_punct_go (in_delim : bool) (cur : str) (s : str) : list str :=
  match s with
  | [] => [rev cur]
  | c :: r =>
      if is_punct c
      then (if in_delim then split_punct_go true cur r
            else rev cur :: split_punct_go true [] r)
      else split_punct_go false (c :: cur) r
  end.

Definition split_punct (s : str) : list str := split_punct_go false [] s.

Fixpoint take_space (s : str) : str :=
  match s with
  | [] => []
  | c :: r => if is_space c then c :: take_space r else []
  end.

(** The position after the last newline of [s], if it has one. *)
Fixpoint after_last_nl (s : str) : option nat :=
  match s with
  | [] => None
  | c :: r =>
      match after_last_nl r with
      | Some n => Some (S n)
      | None => if Ascii.eqb c nl then Some 1 else None
      end
  end.

(** The length of the match of [\n\s*\n] at the head of [s]: a newline,
    then the whitespace run up to its last newline ([\s*] is greedy and
    gives back until a newline follows). *)
Definition blank_match (s : str) : option nat :=
  match s with
  | c :: r =>
      if Ascii.eqb c nl
      then option_map S (after_last_nl (take_space r))
      else None
  | [] => None
  end.

(** [re.split(r'\n\s*\n', s)]; [skip] counts the characters of the
    current match still to be passed over. *)
Fixpoint split_blank_go (skip : nat) (cur : str) (s : str) : list str :=
  match s with
  | [] => [rev cur]
  | c :: r =>
      match skip with
      | S k => split_blank_go k cur r
      | O =>
          match blank_match s with
          | Some n => rev cur :: split_blank_go (n - 1) [] r
          | None => split_blank_go 0 (c :: cur) r
          end
      end
  end.

Definition split_blank (s : str) : list str := split_blank_go 0 [] s.

(** A pattern of literal lower-case characters matched at the head of
    [s] under [re.IGNORECASE]. *)
Fixpoint match_ci (p s : str) : bool :=
  match p, s with
  | [], _ => true
  | a :: p', b :: s' => Ascii.eqb (lower_char b) a && match_ci p' s'
  | _ :: _, [] => false
  end.

(** [re.search(re.escape(p), s, re.IGNORECASE) is not None] *)
Fixpoint search_ci (p s : str) : bool :=
  match_ci p s ||
  match s with
  | [] => false
  | _ :: s' => search_ci p s'
  end.

(** [re.compile(re.escape(p), re.IGNORECASE).sub(rep, s)] for a non-empty
    [p]: leftmost matches, none overlapping, each replaced by [rep]. *)
Fixpoint sub_go (p rep : str) (skip : nat) (s : str) : str :=
  match s with
  | [] => []
  | c :: r =>
      match skip with
      | S k => sub_go p rep k r
      | O =>
          if match_ci p s then rep ++ sub_go p rep (len p - 1) r
          else c :: sub_go p rep 0 r
      end
  end.

Definition sub_ci (p rep : str) (s : str) : str := sub_go p rep 0 s.

(** [\b] between the character before the position and the text after
    it. *)
Definition boundary (prev : option ascii) (s : str) : bool :=
  let before := match prev with Some c => is_word c | None => false end in
  let after := match s with c :: _ => is_word c | [] => false end in
  xorb before after.

(** The length of the match of [\b(?:penalty|penalties)\b] at the head
    of [s], [prev] being the character before it. *)
Definition penalty_match (prev : option ascii) (s : str) : option nat :=
  if boundary prev s then
    if starts_with (lit "penalty") s
       && boundary (Some "y"%char) (skipn 7 s) then Some 7
    else if starts_with (lit "penalties") s
       && boundary (Some "s"%char) (skipn 9 s) then Some 9
    else None
  else None.

(** [len(re.findall(r'\b(?:penalty|penalties)\b', s))] *)
Fixpoint count_penalty_go (skip : nat) (prev : option ascii) (s : str) : nat :=
  match s with
  | [] => 0
  | c :: r =>
      match skip with
      | S k => count_penalty_go k (Some c) r
      | O =>
          match penalty_match prev s with
          | Some n => S (count_penalty_go (n - 1) (Some c) r)
          | None => count_penalty_go 0 (Some c) r
          end
      end
  end.

Definition count_penalty (s : str) : nat := count_penalty_go 0 None s.

End Re.
Import Re.

Definition lits (l : list string) : list str := map lit l.

Definition lit_pairs (l : list (string * string)) : dict str :=
  map (fun p => (lit (fst p), lit (snd p))) l.

(** ** [LegalDocumentProcessor] *)

(** *** The glossary *)

Definition legal_term_definitions : dict str := lit_pairs [
  ("whereas", "since; considering that");
  ("hereby", "by this document");
  ("herein", "in this document");
  ("hereinafter", "from now on in this document");
  ("heretofore", "before this time");
  ("thereafter", "after that time");
  ("notwithstanding", "despite; in spite of");
  ("pursuant to", "according to; in accordance with");
  ("in consideration of", "in exchange for");
  ("covenant", "legally binding promise");
  ("indemnify", "protect from loss or damage");
  ("liquidated damages", "predetermined compensation for breach");
  ("force majeure", "unforeseeable circumstances beyond control");
  ("breach", "violation of contract terms");
  ("cure", "fix or remedy a problem");
  ("default", "failure to meet obligations");
  ("termination", "ending of the contract");
  ("void", "having no legal effect");
  ("voidable", "can be made void under certain conditions");
  ("severability", "if one part is invalid, the rest remains valid");
  ("waiver", "giving up a right voluntarily");
  ("assignment", "transfer of rights to another party");
  ("novation", "replacement of a contract with a new one");
  ("rescission", "cancellation of a contract");
  ("specific performance", "court order to fulfill contract exactly");
  ("injunctive relief", "court order to do or stop doing something");
  ("damages", "monetary compensation for loss");
  ("consequential damages", "indirect losses resulting from breach");
  ("incidental damages", "additional costs due to breach");
  ("punitive damages", "punishment damages beyond actual loss");
  ("mitigation", "reducing the amount of damages");
  ("material breach", "serious violation affecting the contract's essence");
  ("anticipatory breach", "indication that breach will occur in future");
  ("substantial performance", "performance that meets essential requirements");
  ("conditions precedent", "events that must occur before obligations arise");
  ("conditions subsequent", "events that end existing obligations");
  ("representations", "statements of fact made to induce contract formation");
  ("warranties", "promises about the quality or condition of something");
  ("indemnification", "compensation for harm or loss");
  ("hold harmless", "agreement not to hold someone responsible");
  ("liability", "legal responsibility for damages");
  ("limitation of liability", "restriction on the amount of responsibility");
  ("arbitration", "dispute resolution outside of court");
  ("mediation", "assisted negotiation to resolve disputes");
  ("jurisdiction", "authority of a court to hear a case");
  ("governing law", "which state or country's laws apply");
  ("venue", "location where legal proceedings take place");
  ("statute of limitations", "time limit for bringing legal action");
  ("confidentiality", "obligation to keep information secret");
  ("non-disclosure", "agreement not to reveal information");
  ("proprietary", "privately owned or exclusive");
  ("intellectual property", "creations of the mind (patents, trademarks, etc.)");
  ("trade secret", "confidential business information");
  ("non-compete", "agreement not to compete with former employer");
  ("non-solicitation", "agreement not to recruit employees or customers");
  ("exclusivity", "sole rights to something");
  ("royalty", "payment for use of property or rights");
  ("escrow", "third party holds money/documents until conditions are met");
  ("fiduciary", "relationship of trust and confidence");
  ("due diligence", "reasonable investigation or care");
  ("good faith", "honest intention and fair dealing");
  ("best efforts", "maximum effort reasonably possible");
  ("reasonable efforts", "efforts that a reasonable person would make");
  ("time is of the essence", "deadlines are critically important")
]%string.

Definition _extract_context_around_phrase
  (text phrase : str) (context_length : nat) : str :=
  let text_lower := lower text in
  let phrase_lower := lower phrase in
  match find phrase_lower text_lower with
  | None => lit "The term '" ++ phrase ++ lit "' appears in the contract"
  | Some index =>
      let start := index - context_length in
      let end_ := Nat.min (len text) (index + len phrase + context_length) in
      let context := strip (slice start end_ text) in
      clip 200 context
  end.

Definition key_term (term definition context : str) : dict str :=
  [(lit "term", term); (lit "definition", definition); (lit "context", context)].

Definition default_terms : list (dict str) := [
  key_term (lit "Agreement")
           (lit "A mutual understanding between parties")
           (lit "This agreement establishes terms and conditions");
  key_term (lit "Party")
           (lit "An individual or entity entering into a contract")
           (lit "Each party has rights and obligations");
  key_term (lit "Terms")
           (lit "Conditions and provisions of a contract")
           (lit "The terms of this contract are binding")
].

(** The loop over the glossary: the entries found, in glossary order. *)
Definition found_terms (text : str) : list (dict str) :=
  let text_lower := lower text in
  fold_left
    (fun found td =>
       let term := fst td in
       let definition := snd td in
       if contains (lower term) text_lower
       then found ++ [key_term (title term) definition
                        (_extract_context_around_phrase text term 80)]
       else found)
    legal_term_definitions [].

Definition extract_legal_terms_from_text (text : str) : list (dict str) :=
  let found := found_terms text in
  let found := match found with [] => default_terms | _ => found end in
  firstn 15 found.

(** *** Risk assessment *)

Definition risk_indicators : list (str * list (str * Z)) := [
  (lit "high", map (fun p => (lit (fst p), snd p)) [
    ("unlimited liability", 3); ("personal guarantee", 3);
    ("liquidated damages", 3); ("specific performance", 3);
    ("criminal liability", 4); ("punitive damages", 3);
    ("indemnify", 2); ("hold harmless", 2); ("strict liability", 3);
    ("immediate termination", 2); ("no cure period", 3);
    ("forfeiture", 3) ]%string%Z);
  (lit "medium", map (fun p => (lit (fst p), snd p)) [
    ("limitation of liability", -1); ("material breach", 2);
    ("cure period", -1); ("force majeure", -1);
    ("reasonable efforts", 1); ("best efforts", 2);
    ("consequential damages", 2); ("indirect damages", 2);
    ("arbitration", -1); ("mediation", -1) ]%string%Z);
  (lit "low", map (fun p => (lit (fst p), snd p)) [
    ("mutual", -1); ("standard terms", -1); ("industry standard", -1);
    ("reasonable", -1); ("good faith", -1); ("fair dealing", -1);
    ("customary", -1); ("typical", -1) ]%string%Z)
].

(** The three locals the scoring loop updates. *)
Record risk_state : Type := {
  risk_score : Z;
  risk_reasons : list str;
  detailed_analysis : list (dict str)
}.

Definition analysis_entry (factor impact context : str) : dict str :=
  [(lit "factor", factor); (lit "impact", impact); (lit "context", context)].

Definition risk_step (text text_lower : str) (st : risk_state) (ip : str * Z)
  : risk_state :=
  let indicator := fst ip in
  let points := snd ip in
  if contains indicator text_lower then
    let context := _extract_context_around_phrase text indicator 100 in
    let risk_type := if (0 <? points)%Z then lit "increases" else lit "reduces" in
    {| risk_score := (risk_score st + points)%Z;
       risk_reasons := risk_reasons st ++
         [lit "Found '" ++ indicator ++ lit "' which " ++ risk_type ++ lit " risk"];
       detailed_analysis := detailed_analysis st ++
         [analysis_entry indicator
            (risk_type ++ lit " risk by " ++ of_nat (Z.abs_nat points) ++ lit " points")
            (clip 150 context)] |}
  else st.

Definition add_without_limitation (text_lower : str) (st : risk_state) : risk_state :=
  if contains (lit "without limitation") text_lower then
    {| risk_score := (risk_score st + 2)%Z;
       risk_reasons := risk_reasons st ++ [lit "Broad liability clause without limitations"];
       detailed_analysis := detailed_analysis st ++
         [analysis_entry (lit "without limitation")
            (lit "increases risk by 2 points")
            (lit "Broad liability exposure identified")] |}
  else st.

Definition add_at_will (text_lower : str) (st : risk_state) : risk_state :=
  if contains (lit "at will") text_lower then
    {| risk_score := (risk_score st + 1)%Z;
       risk_reasons := risk_reasons st ++ [lit "At-will provisions increase uncertainty"];
       detailed_analysis := detailed_analysis st |}
  else st.

Definition add_penalties (text_lower : str) (st : risk_state) : risk_state :=
  if 2 <? count_penalty text_lower then
    {| risk_score := (risk_score st + 2)%Z;
       risk_reasons := risk_reasons st ++ [lit "Multiple penalty clauses identified"];
       detailed_analysis := detailed_analysis st |}
  else st.

(** The state when the level is decided: after the loop over the three
    tiers and the three additional factors.  Its [risk_score] is the raw
    score. *)
Definition risk_scan (text : str) : risk_state :=
  let text_lower := lower text in
  let st0 := {| risk_score := 0; risk_reasons := []; detailed_analysis := [] |} in
  let st1 :=
    fold_left
      (fun st tier => fold_left (risk_step text text_lower) (snd tier) st)
      risk_indicators st0 in
  add_penalties text_lower (add_at_will text_lower (add_without_limitation text_lower st1)).

Definition overall_risk (score : Z) : str :=
  if (8 <=? score)%Z then lit "HIGH"
  else if (4 <=? score)%Z then lit "MEDIUM"
  else if (0 <=? score)%Z then lit "LOW"
  else lit "VERY LOW".

(** The dictionary [assess_contract_risks] returns ([RiskAssessment] of
    [models.py]). *)
Record risk_assessment : Type := {
  risk_level : str;
  reported_score : Z;
  reasons : list str;
  analysis : list (dict str)
}.

Definition assess_contract_risks (text : str) : risk_assessment :=
  let st := risk_scan text in
  let level := overall_risk (risk_score st) in
  let rs := match risk_reasons st with
            | [] => [lit "Standard contract terms with typical risk level"]
            | l => l
            end in
  let da := match detailed_analysis st with
            | [] => [analysis_entry (lit "general terms")
                       (lit "standard risk level")
                       (lit "No specific high-risk factors identified")]
            | l => l
            end in
  {| risk_level := level;
     reported_score := Z.max 0 (risk_score st);
     reasons := firstn 10 rs;
     analysis := firstn 8 da |}.

Definition risk_to_value (r : risk_assessment) : value :=
  VDict [(lit "risk_level", VStr (risk_level r));
         (lit "risk_score", VInt (reported_score r));
         (lit "reasons", VStrs (reasons r));
         (lit "detailed_analysis", VList (map VStrDict (analysis r)))].

(** *** Obligations *)

Definition obligation_keywords : list str := lits [
  "shall"; "must"; "will"; "agrees to"; "undertakes to"; "commits to";
  "responsible for"; "liable for"; "duty to"; "obligation to";
  "required to"; "bound to"; "covenant to" ]%string.

Definition critical_keywords : list str := lits [
  "payment"; "deliver"; "complete"; "maintain"; "comply"; "perform";
  "provide" ]%string.

Definition payment_keywords : list str := lits [
  "pay"; "payment"; "remit"; "compensation"; "fee"; "amount"; "invoice" ]%string.

Definition performance_keywords : list str := lits [
  "deliver"; "perform"; "complete"; "execute"; "provide"; "supply" ]%string.

Definition k_all : str := lit "all_obligations".
Definition k_critical : str := lit "critical_obligations".
Definition k_payment : str := lit "payment_obligations".
Definition k_performance : str := lit "performance_obligations".

Definition obligation_keys : list str :=
  [k_all; k_critical; k_payment; k_performance].

Definition no_obligations : str :=
  lit "No specific obligations identified in this category".

(** [sentence[:300] + "..." if len(sentence) > 300 else sentence] *)
Definition clean_obligation (sentence : str) : str := clip 300 sentence.

(** [if c: d[k].append(x)] *)
Definition append_if (c : bool) (k : str) (x : str) (d : dict (list str))
  : exn (dict (list str)) :=
  if c then append_at k x d else Ok d.

(** One turn of the loop over the sentences. *)
Definition obligation_step (obligations : dict (list str)) (sentence : str)
  : exn (dict (list str)) :=
  let sentence := strip sentence in
  if len sentence <? 20 then Ok obligations
  else
    let sentence_lower := lower sentence in
    if any_in obligation_keywords sentence_lower then
      let clean := clean_obligation sentence in
      o1 <- append_at k_all clean obligations ;;
      o2 <- append_if (any_in critical_keywords sentence_lower) k_critical clean o1 ;;
      o3 <- append_if (any_in payment_keywords sentence_lower) k_payment clean o2 ;;
      append_if (any_in performance_keywords sentence_lower) k_performance clean o3
    else Ok obligations.

(** A [for] loop whose body may raise. *)
Fixpoint for_each {A S} (step : S -> A -> exn S) (l : list A) (st : S) : exn S :=
  match l with
  | [] => Ok st
  | x :: r => st' <- step st x ;; for_each step r st'
  end.

(** The closing loop over the keys: each list is replaced in place. *)
Definition finish_obligations (obligations : dict (list str)) : dict (list str) :=
  map (fun kv =>
         (fst kv,
          match snd kv with
          | [] => [no_obligations]
          | l => firstn 10 (fromkeys l)
          end))
      obligations.

Definition extract_precise_obligations (text : str) : exn (dict (list str)) :=
  let obligations := map (fun k => (k, @nil str)) obligation_keys in
  let sentences := split_punct text in
  o <- for_each obligation_step sentences obligations ;;
  Ok (finish_obligations o).

(** *** Sections *)

Definition general_terms : str := lit "general_terms".

Definition keywords : dict (list str) := [
  (lit "payment_terms", lits [
     "payment"; "fee"; "cost"; "amount"; "invoice"; "billing";
     "due"; "remuneration"; "compensation"; "salary"; "wage";
     "price"; "consideration"; "installment"; "deposit" ]%string);
  (lit "termination_clauses", lits [
     "termination"; "terminate"; "expire"; "expiration"; "end";
     "conclude"; "dissolution"; "cancellation"; "breach"; "default";
     "notice period"; "wind up" ]%string);
  (lit "liability_limitations", lits [
     "liability"; "damages"; "limitation"; "limit"; "responsible";
     "accountable"; "indemnify"; "indemnification"; "harm";
     "loss"; "consequential"; "indirect" ]%string);
  (lit "warranty_disclaimers", lits [
     "warranty"; "guarantee"; "assurance"; "as is"; "disclaim";
     "merchantability"; "fitness"; "defect"; "condition";
     "representation" ]%string);
  (lit "confidentiality", lits [
     "confidential"; "non-disclosure"; "nda"; "proprietary";
     "trade secret"; "classified"; "private"; "sensitive" ]%string);
  (lit "intellectual_property", lits [
     "intellectual property"; "copyright"; "patent"; "trademark";
     "trade secret"; "proprietary"; "ownership"; "license";
     "derivative works" ]%string);
  (lit "dispute_resolution", lits [
     "dispute"; "arbitration"; "mediation"; "jurisdiction";
     "governing law"; "venue"; "litigation"; "court" ]%string);
  (general_terms, [])
].

(** [sum(1 for kw in section_keywords if kw in para_lower)] *)
Definition keyword_matches (section_keywords : list str) (para_lower : str) : nat :=
  List.length (filter (fun kw => contains kw para_lower) section_keywords).

(** One turn of the inner loop: [best_match] after looking at a section. *)
Definition best_step (para_lower : str) (best_match : str * nat)
  (entry : str * list str) : str * nat :=
  let section_type := fst entry in
  let section_keywords := snd entry in
  if str_eqb section_type general_terms then best_match
  else
    let m := keyword_matches section_keywords para_lower in
    if snd best_match <? m then (section_type, m) else best_match.

Definition best_match (paragraph : str) : str * nat :=
  fold_left (best_step (lower paragraph)) keywords (general_terms, 0).

(** One turn of the loop over the paragraphs. *)
Definition section_step (sections : dict (list str)) (paragraph : str)
  : exn (dict (list str)) :=
  let best := best_match paragraph in
  if 0 <? snd best then append_at (fst best) paragraph sections
  else append_at general_terms paragraph sections.

(** The paragraphs: the blank-line split, or the sentence split when that
    yields nothing. *)
Definition paragraphs (text : str) : list str :=
  let ps :=
    map strip
      (filter (fun p => negb (len (strip p) =? 0) && (50 <? len (strip p)))
              (split_blank text)) in
  match ps with
  | [] => map strip (filter (fun s => 100 <? len (strip s)) (split_punct text))
  | _ => ps
  end.

Definition identify_contract_sections (text : str) : exn (dict (list str)) :=
  let sections := map (fun kv => (fst kv, @nil str)) keywords in
  for_each section_step (paragraphs text) sections.

(** *** Simplification *)

Definition simplifications : dict str := lit_pairs [
  ("hereinafter", "from now on");
  ("heretofore", "before this");
  ("whereas", "since");
  ("hereby", "by this document");
  ("thereof", "of that");
  ("wherein", "in which");
  ("notwithstanding", "despite");
  ("pursuant to", "according to");
  ("in consideration of", "in exchange for");
  ("force majeure", "unforeseeable circumstances");
  ("liquidated damages", "pre-agreed compensation");
  ("indemnify", "protect from loss");
  ("hold harmless", "not hold responsible");
  ("covenant", "promise");
  ("assign", "transfer");
  ("breach", "break the agreement");
  ("cure", "fix the problem");
  ("default", "fail to meet obligations");
  ("remedy", "solution");
  ("waiver", "giving up a right");
  ("perpetuity", "forever");
  ("forthwith", "immediately");
  ("inter alia", "among other things");
  ("shall", "must");
  ("shall not", "must not")
]%string.

(** One turn of the loop: the rule's pattern substituted through the
    whole of [result]. *)
Definition simplify_step (result : str) (rule : str * str) : str :=
  sub_ci (fst rule) (snd rule) result.

Definition simplify_legal_language (text : str) : str :=
  fold_left simplify_step simplifications text.

(** *** Question answering: the keyword engine *)

(** [set(question.lower().split())] against the words of a sentence. *)
Definition word_overlap (question sentence : str) : nat :=
  overlap (split_ws (lower question)) (split_ws (lower sentence)).

(** One turn of the loop of [_extract_relevant_clauses]. *)
Definition clause_step (question : str) (relevant_clauses : list str)
  (sentence : str) : list str :=
  if (len (strip sentence) =? 0) || (len (strip sentence) <? 30)
  then relevant_clauses
  else
    if 2 <=? word_overlap question sentence then
      let clause := strip sentence in
      if 50 <? len clause then relevant_clauses ++ [clip 250 clause]
      else relevant_clauses
    else relevant_clauses.

Definition _extract_relevant_clauses (context question : str) : list str :=
  let sentences := split_punct context in
  firstn 5 (fold_left (clause_step question) sentences []).

Definition base_questions : list str := lits [
  "What are the key payment obligations?";
  "How can this contract be terminated?";
  "What happens if there's a breach of contract?";
  "Are there any liability limitations?";
  "What are the warranty provisions?";
  "How are disputes resolved?";
  "What are the renewal terms?";
  "What are the confidentiality requirements?";
  "What intellectual property rights are involved?";
  "What are the performance standards?" ]%string.

Definition _generate_follow_up_questions (original_question context : str)
  : list str :=
  let original_words := split_ws (lower original_question) in
  firstn 6
    (filter (fun q => overlap original_words (split_ws (lower q)) <? 3)
            base_questions).

(** The lines of [context] that hold one of [words], stripped. *)
Definition matching_lines (words : list str) (context : str) : list str :=
  map strip
    (filter (fun section => any_in words (lower section)) (split_on nl context)).

Definition nlnl : str := [nl; nl].

(** The four topic branches share their shape: a header over the first
    three matching lines, or the topic's not-found message. *)
Definition topic_answer (header not_found : str) (info : list str) : str :=
  match info with
  | [] => not_found
  | _ => header ++ nlnl ++ join nlnl (firstn 3 info)
  end.

(** The generic branch: the sentences sharing two words or more with the
    question, by decreasing overlap. *)
Definition generic_answer (question_lower context : str) : str :=
  let question_words := split_ws question_lower in
  let relevant_sentences :=
    fold_left
      (fun acc sentence =>
         if len (strip sentence) <? 20 then acc
         else
           let ov := overlap question_words (split_ws (lower sentence)) in
           if 2 <=? ov then acc ++ [(ov, strip sentence)] else acc)
      (split_on "."%char context) [] in
  match relevant_sentences with
  | [] => lit "I couldn't find specific information related to your question in this contract. Please try asking about payment terms, termination conditions, obligations, or liability provisions."
  | _ =>
      lit "Based on your question, here are the most relevant parts of the contract:"
      ++ nlnl
      ++ join nlnl (map snd (firstn 3 (sort_desc fst relevant_sentences)))
  end.

Definition keyword_answer (question context : str) : str :=
  let question_lower := lower question in
  if any_in (lits ["payment"; "pay"; "cost"; "fee"; "money"; "amount"]%string)
            question_lower then
    topic_answer
      (lit "Based on the contract, here are the payment-related terms:")
      (lit "No specific payment terms found in this contract.")
      (matching_lines
         (lits ["payment"; "pay"; "fee"; "cost"; "$"; "amount"]%string) context)
  else if any_in (lits ["terminate"; "end"; "cancel"; "termination"]%string)
                 question_lower then
    topic_answer
      (lit "Regarding termination, the contract states:")
      (lit "No specific termination clauses found in this contract.")
      (matching_lines
         (lits ["terminate"; "termination"; "end"; "cancel"; "expire"]%string)
         context)
  else if any_in (lits ["risk"; "liability"; "damage"; "harm"]%string)
                 question_lower then
    topic_answer
      (lit "Regarding risks and liability:")
      (lit "No specific liability or risk clauses found.")
      (matching_lines
         (lits ["liability"; "damage"; "risk"; "harm"; "loss"; "indemnify"]%string)
         context)
  else if any_in (lits ["obligation"; "duty"; "must"; "shall"; "required"]%string)
                 question_lower then
    topic_answer
      (lit "The contract establishes these obligations:")
      (lit "No specific obligations found.")
      (matching_lines
         (lits ["shall"; "must"; "obligation"; "duty"; "required"; "responsible"]%string)
         context)
  else generic_answer question_lower context.

Definition canned_follow_ups : list str := lits [
  "What are the payment terms?";
  "How can this contract be terminated?";
  "What are the main obligations?";
  "What are the liability provisions?" ]%string.

Definition qa_result (answer : str) (clauses : list str) (confidence : float)
  (follow_ups : list str) : value :=
  VDict [(lit "answer", VStr answer);
         (lit "relevant_clauses", VStrs clauses);
         (lit "confidence", VFloat confidence);
         (lit "follow_up_suggestions", VStrs follow_ups)].

Definition ask_keyword_question (question context : str) : value :=
  qa_result (keyword_answer question context)
            (_extract_relevant_clauses context question)
            0.7%float
            canned_follow_ups.

(** *** Question answering: the Gemini path *)

(** A record of [logger]: the level and the message. *)
Definition log : Type := list (str * str).

(** [self.gemini_model]: absent, or the client.  Its prompt is a fixed
    template around [context[:2000]] and the question, so the client is
    taken as a function of these two; it yields [response.text] or
    raises. *)
Definition gemini : Type := option (str -> str -> exn str).

Definition ask_openai_question (gemini_model : gemini) (question context : str)
  (lg : log) : value * log :=
  match gemini_model with
  | None => (ask_keyword_question question context, lg)
  | Some generate_content =>
      match generate_content (slice 0 2000 context) question with
      | Ok text =>
          (qa_result (strip text)
                     (_extract_relevant_clauses context question)
                     0.9%float
                     (_generate_follow_up_questions question context),
           lg)
      | Raise e =>
          (ask_keyword_question question context,
           lg ++ [(lit "ERROR", lit "Gemini API error: " ++ e)])
      end
  end.

(** *** The extractors that rest on the regular-expression engine *)

Section Pipeline.

(** [re.findall(pattern, text, re.IGNORECASE)]: the matches, or the
    captures of the pattern's one group. *)
Variable re_findall : str -> str -> list str.

(** [re.search(pattern, text, re.IGNORECASE)] and [match.group(1)]. *)
Variable re_search : str -> str -> option str.

(** [list(set(matches))]: the order is the interpreter's. *)
Variable set_to_list : list str -> list str.

Definition entity_patterns : dict str := lit_pairs [
  ("amounts", "\$[\d,]+(?:\.\d{2})?|\b\d+(?:,\d{3})*(?:\.\d{2})?\s*(?:dollars?|USD|\$)");
  ("dates", "\b(?:\d{1,2}[/-]\d{1,2}[/-]\d{2,4}|\w+\s+\d{1,2},?\s+\d{4}|\d{1,2}\s+\w+\s+\d{4})");
  ("percentages", "\b\d+(?:\.\d+)?%|\b\d+(?:\.\d+)?\s*percent");
  ("timeframes", "\b\d+\s*(?:days?|weeks?|months?|years?|hours?)\b");
  ("addresses", "\b\d+\s+[A-Z][a-zA-Z\s]+(?:Street|St\.?|Avenue|Ave\.?|Road|Rd\.?|Drive|Dr\.?|Lane|Ln\.?)");
  ("phone_numbers", "\b(?:\(?\d{3}\)?[-.\s]?\d{3}[-.\s]?\d{4})\b");
  ("email_addresses", "\b[A-Za-z0-9._%+-]+@[A-Za-z0-9.-]+\.[A-Z|a-z]{2,}\b")
]%string.

Definition extract_key_entities (text : str) : dict (list str) :=
  fold_left
    (fun entities ep =>
       let matches := re_findall (snd ep) text in
       setitem (fst ep) (firstn 10 (set_to_list matches)) entities)
    entity_patterns [].

Definition amount_patterns : list str := lits [
  "\$[\d,]+(?:\.\d{2})?";
  "\b\d+(?:,\d{3})*(?:\.\d{2})?\s*dollars?";
  "\b\d+(?:,\d{3})*\s*USD" ]%string.

Definition payment_patterns : list str := lits [
  "(?:within|due\s+in|payable\s+in|paid\s+within)\s+(\d+)\s*(?:days?|weeks?|months?)";
  "net\s+(\d+)";
  "(\d+)\s*(?:days?|weeks?|months?)\s*(?:after|from|following)";
  "(?:monthly|quarterly|annually|weekly)\s+payments?" ]%string.

Definition interest_patterns : list str := lits [
  "(\d+(?:\.\d+)?)\s*%\s*(?:interest|rate|annual|per\s+annum)";
  "interest.*?(\d+(?:\.\d+)?)\s*(?:percent|%)" ]%string.

Definition payment_method_patterns : list str := lits [
  "\b(?:wire transfer|check|cash|credit card|bank transfer|ACH|electronic transfer)\b"
]%string.

Definition financial_keys : list str := lits [
  "amounts"; "payment_schedule"; "penalties"; "interest_rates";
  "currencies"; "payment_methods" ]%string.

(** [for pattern in patterns: info[key].extend(f(re.findall(pattern, text)))] *)
Definition extend_from (key : str) (f : str -> str) (patterns : list str)
  (text : str) (info : dict (list str)) : exn (dict (list str)) :=
  for_each
    (fun info pattern => extend_at key (map f (re_findall pattern text)) info)
    patterns info.

Definition extract_financial_terms (text : str) : exn (dict (list str)) :=
  let financial_info := map (fun k => (k, @nil str)) financial_keys in
  i1 <- extend_from (lit "amounts") (fun m => m) amount_patterns text financial_info ;;
  i2 <- extend_from (lit "payment_schedule") (fun m => m) payment_patterns text i1 ;;
  i3 <- extend_from (lit "interest_rates") (fun rate => rate ++ lit "%")
          interest_patterns text i2 ;;
  i4 <- extend_from (lit "payment_methods") (fun m => m)
          payment_method_patterns text i3 ;;
  Ok (map (fun kv => (fst kv, firstn 10 (fromkeys (snd kv)))) i4).

Definition date_patterns : dict str := lit_pairs [
  ("(?:effective|commence|start|begin|execution).*?(\w+\s+\d{1,2},?\s+\d{4})", "Contract Start");
  ("(?:expire|end|terminate|conclusion|completion).*?(\w+\s+\d{1,2},?\s+\d{4})", "Contract End");
  ("(?:due|payable|payment).*?(\w+\s+\d{1,2},?\s+\d{4})", "Payment Due");
  ("(?:delivery|deliver|provided).*?(\w+\s+\d{1,2},?\s+\d{4})", "Delivery Date");
  ("(?:review|evaluation|assessment).*?(\w+\s+\d{1,2},?\s+\d{4})", "Review Date")
]%string.

Definition timeline_event (date event : str) : dict str :=
  [(lit "date", date); (lit "event", event); (lit "type", lit "milestone")].

Definition extract_timeline (text : str) : list (dict str) :=
  firstn 12
    (fold_left
       (fun timeline pe =>
          timeline ++ map (fun m => timeline_event m (snd pe))
                          (re_findall (fst pe) text))
       date_patterns []).

(** *** Contract type, subject and summary *)

Definition contract_types : dict (list str) := [
  (lit "service agreement", lits ["service"; "services"; "provide"; "perform"; "consulting"]%string);
  (lit "employment contract", lits ["employment"; "employee"; "employer"; "salary"; "benefits"; "job"]%string);
  (lit "lease agreement", lits ["lease"; "rent"; "tenant"; "landlord"; "property"; "premises"]%string);
  (lit "purchase agreement", lits ["purchase"; "buy"; "sell"; "goods"; "product"; "merchandise"]%string);
  (lit "license agreement", lits ["license"; "licensing"; "intellectual property"; "software"; "patent"]%string);
  (lit "partnership agreement", lits ["partnership"; "partner"; "joint venture"; "collaborate"]%string);
  (lit "non-disclosure agreement", lits ["confidential"; "non-disclosure"; "nda"; "proprietary"]%string);
  (lit "loan agreement", lits ["loan"; "lend"; "borrow"; "credit"; "debt"; "principal"]%string);
  (lit "construction contract", lits ["construction"; "build"; "contractor"; "materials"; "project"]%string);
  (lit "supply agreement", lits ["supply"; "supplier"; "deliver"; "goods"; "materials"]%string)
].

(** [max(scores, key=scores.get)]: the first key of the greatest score. *)
Definition max_key (scores : dict nat) (dflt : str) : str :=
  match scores with
  | [] => dflt
  | kv :: r =>
      fst (fold_left (fun best kv' => if snd best <? snd kv' then kv' else best) r kv)
  end.

Definition _determine_contract_type (text : str) : str :=
  let text_lower := lower text in
  let scores :=
    fold_left
      (fun scores ck =>
         let score := keyword_matches (snd ck) text_lower in
         if 0 <? score then setitem (fst ck) score scores else scores)
      contract_types [] in
  max_key scores (lit "general agreement").

Definition subject_patterns : list str := lits [
  "(?:for the|regarding the|concerning the|related to the)\s+([^.]{10,50})";
  "(?:provision of|supply of|delivery of|performance of)\s+([^.]{10,50})";
  "this agreement covers\s+([^.]{10,50})";
  "the purpose of this agreement is\s+([^.]{10,50})" ]%string.

Definition type_subjects : dict str := lit_pairs [
  ("service agreement", "professional services and consulting");
  ("employment contract", "employment relationship and duties");
  ("lease agreement", "property rental and occupancy");
  ("purchase agreement", "goods purchase and delivery");
  ("license agreement", "intellectual property licensing");
  ("partnership agreement", "business partnership and collaboration");
  ("non-disclosure agreement", "confidential information protection");
  ("loan agreement", "financial lending and repayment");
  ("construction contract", "construction project and specifications");
  ("supply agreement", "goods supply and delivery")
]%string.

(** The first pattern that matches decides. *)
Fixpoint first_subject (patterns : list str) (text : str) : option str :=
  match patterns with
  | [] => None
  | pattern :: r =>
      match re_search pattern text with
      | Some g => Some (clip 100 (strip g))
      | None => first_subject r text
      end
  end.

Definition _extract_main_subject (text contract_type : str) : str :=
  match first_subject subject_patterns text with
  | Some subject => subject
  | None =>
      get_default contract_type (lit "business relationship and obligations")
                  type_subjects
  end.

Definition generate_executive_summary (text : str) (sections : dict (list str))
  (financial_terms : dict (list str)) (risk : risk_assessment) : str :=
  let contract_type := _determine_contract_type text in
  let main_subject := _extract_main_subject text contract_type in
  let section_count :=
    List.length (filter (fun s => negb (List.length s =? 0)) (map snd sections)) in
  let amounts := get_default (lit "amounts") [] financial_terms in
  let amount_count := List.length amounts in
  let p1 := [lit "This is a " ++ contract_type ++ lit " focusing on "
             ++ main_subject ++ lit "."] in
  let p2 :=
    if 0 <? amount_count
    then [lit "The contract involves financial obligations including "
          ++ join (lit ", ") (firstn 3 amounts) ++ lit "."]
    else [] in
  let p3 := [lit "Risk analysis indicates a " ++ risk_level risk
             ++ lit " risk level with " ++ of_nat (List.length (reasons risk))
             ++ lit " identified risk factors."] in
  let p4 :=
    if 0 <? section_count
    then [lit "The contract is structured into " ++ of_nat section_count
          ++ lit " main sections covering various legal and business aspects."]
    else [] in
  let timeline := extract_timeline text in
  let p5 :=
    match timeline with
    | [] => []
    | _ => [lit "Important dates include " ++ of_nat (List.length timeline)
            ++ lit " scheduled events or milestones."]
    end in
  join (lit " ") (p1 ++ p2 ++ p3 ++ p4 ++ p5).

(** *** The orchestrator *)

(** The dictionary built when every step went through. *)
Definition success_response
  (executive_summary contract_type main_subject : str) (risk : risk_assessment)
  (all_obligations amounts : list str) (financial_terms : dict (list str))
  (timeline key_terms : list (dict str))
  (obligations sections entities : dict (list str)) (simplified_text : str)
  : value :=
  VDict [
    (lit "processing_status", VStr (lit "success"));
    (lit "detailed_summary", VDict [
       (lit "executive_summary", VStr executive_summary);
       (lit "key_points", VStrs [
          lit "Contract type: " ++ contract_type;
          lit "Main subject: " ++ main_subject;
          lit "Risk level: " ++ risk_level risk;
          lit "Total obligations: " ++ of_nat (List.length all_obligations);
          lit "Financial terms: " ++ of_nat (List.length amounts)
            ++ lit " amounts identified" ]);
       (lit "financial_terms", VListDict financial_terms);
       (lit "timeline", VList (map VStrDict timeline));
       (lit "contract_type", VStr contract_type);
       (lit "main_subject", VStr main_subject) ]);
    (lit "key_terms", VList (map VStrDict key_terms));
    (lit "obligations", VListDict obligations);
    (lit "risk_assessment", risk_to_value risk);
    (lit "sections", VListDict sections);
    (lit "entities", VListDict entities);
    (lit "simplified_text", VStr simplified_text) ].

(** The body of the [try] of [process_contract]. *)
Definition process_contract_body (text : str) : exn value :=
  sections <- identify_contract_sections text ;;
  let entities := extract_key_entities text in
  financial_terms <- extract_financial_terms text ;;
  let timeline := extract_timeline text in
  let risk := assess_contract_risks text in
  let simplified_text := simplify_legal_language text in
  let key_terms := extract_legal_terms_from_text text in
  obligations <- extract_precise_obligations text ;;
  let contract_type := _determine_contract_type text in
  let main_subject := _extract_main_subject text contract_type in
  let executive_summary :=
    generate_executive_summary text sections financial_terms risk in
  all_obligations <- getitem k_all obligations ;;
  amounts <- getitem (lit "amounts") financial_terms ;;
  Ok (success_response executive_summary contract_type main_subject risk
        all_obligations amounts financial_terms timeline key_terms
        obligations sections entities simplified_text).

Definition failed_result (e : str) : value :=
  VDict [(lit "processing_status", VStr (lit "failed"));
         (lit "error", VStr (lit "Contract processing failed: " ++ e))].

(** [process_contract]: the log record of the start, the body, and the
    handler of [except Exception]. *)
Definition process_contract (text : str) (lg : log) : value * log :=
  let lg1 := lg ++ [(lit "INFO", lit "Processing contract of "
                       ++ of_nat (len text) ++ lit " characters")] in
  match process_contract_body text with
  | Ok response => (response, lg1)
  | Raise e =>
      (failed_result e,
       lg1 ++ [(lit "ERROR", lit "Error in contract processing: " ++ e)])
  end.

End Pipeline.

(** ** Vocabulary of the properties *)

(** *** Substitution: how a pattern can meet a replacement *)

(** [q] and [r] agree, ignoring case, as far as both go. *)
Fixpoint compat (q r : str) : bool :=
  match q, r with
  | a :: q', b :: r' => Ascii.eqb (lower_char b) a && compat q' r'
  | _, _ => true
  end.

(** No non-empty tail of [q] can run into the head of a replacement
    [rep]. *)
Definition start_free (q rep : str) : bool :=
  forallb (fun k => negb (compat (skipn k q) rep)) (seq 0 (len q)).

(** No occurrence of [q] can begin inside a replacement [rep]. *)
Definition end_free (q rep : str) : bool :=
  forallb (fun i => negb (compat q (skipn i rep))) (seq 0 (len rep)).

Definition hereby : str := lit "hereby".
Definition by_this_document : str := lit "by this document".
Definition thereof : str := lit "thereof".

(** The trigger phrases of the substitution table. *)
Definition triggers : list str := keys simplifications.

(** Every occurrence of a trigger phrase in [text] is one of "hereby". *)
Definition only_hereby (text : str) : bool :=
  forallb (fun q => str_eqb q hereby || negb (search_ci q text)) triggers.

(** No "hereby" of [text] follows "here" or is followed by "hereof". *)
Definition hereby_clear (text : str) : bool :=
  negb (search_ci (lit "herehereby") text)
  && negb (search_ci (lit "herebyhereof") text).

Definition shall : str := lit "shall".
Definition must : str := lit "must".
Definition shall_not : str := lit "shall not".

(** *** Sections *)

Definition section_keys : list str := lits [
  "payment_terms"; "termination_clauses"; "liability_limitations";
  "warranty_disclaimers"; "confidentiality"; "intellectual_property";
  "dispute_resolution"; "general_terms" ]%string.

(** The keywords of a list that occur in the lowered paragraph: each is
    there once, however often it occurs. *)
Definition keywords_found (section_keywords : list str) (paragraph : str)
  : list str :=
  filter (fun kw => contains kw (lower paragraph)) section_keywords.

(** The count of each section other than the default one, in the order
    of the table: how many of its keywords occur in the paragraph. *)
Definition section_scores (paragraph : str) : list (str * nat) :=
  map (fun entry =>
         (fst entry, List.length (keywords_found (snd entry) paragraph)))
      (filter (fun entry => negb (str_eqb (fst entry) general_terms)) keywords).

(** The number of places of [s] at which [p] begins. *)
Fixpoint occurrences (p s : str) : nat :=
  (if starts_with p s then 1 else 0)
  + match s with
    | [] => 0
    | _ :: s' => occurrences p s'
    end.

(** The occurrences of the keywords of a list in the lowered paragraph,
    all together: a keyword that occurs four times counts four times. *)
Definition occurrence_count (section_keywords : list str) (paragraph : str)
  : nat :=
  list_sum (map (fun kw => occurrences kw (lower paragraph)) section_keywords).

(** A paragraph that names a fee four times and the end of the
    agreements with two words. *)
Definition fees_paragraph : str := lit
  "A fee for setup, a fee for use, a fee for support and a fee for training apply until the agreements expire or end.".

(** A paragraph with one keyword of payment and one of dispute
    resolution. *)
Definition invoice_paragraph : str := lit
  "The invoice is sent to the court named in this contract by the first day of each month.".

(** A paragraph with no keyword of any section. *)
Definition signing_paragraph : str := lit
  "The parties sign this paper in two copies, one for each of them, on the same day.".

(** Four paragraphs, the second too short to be kept, parted by blank
    lines of three kinds. *)
Definition sample_contract : str :=
  fees_paragraph ++ [nl; nl] ++ lit "Signed by both."
  ++ [nl; " "%char; nl] ++ invoice_paragraph
  ++ [nl; nl; nl] ++ signing_paragraph ++ [nl].

(** A sentence of more than 100 characters whose lines, parted by blank
    lines, have 50 characters at most each. *)
Definition unbroken_sentence : str :=
  lit "The fee is set each year" ++ [nl; nl]
  ++ lit "by the two parties together" ++ [nl; nl]
  ++ lit "and the invoice follows within a month of that" ++ [nl; nl]
  ++ lit "so that no amount is left open".

Definition unbroken_text : str := unbroken_sentence ++ lit ". Done.".

(** The comparison of the inner loop, on a section and its count. *)
Definition pick (best e : str * nat) : str * nat :=
  if snd best <? snd e then e else best.

(** The bucket the loop appends [paragraph] to. *)
Definition bucket_of (paragraph : str) : str :=
  let best := best_match paragraph in
  if 0 <? snd best then fst best else general_terms.

(** [b] is the default bucket when every count is zero, and otherwise the
    first section of the greatest count. *)
Definition first_greatest (scores : list (str * nat)) (b : str) : Prop :=
  ((forall e, In e scores -> snd e = 0) /\ b = general_terms)
  \/ exists pre m post,
       scores = pre ++ (b, m) :: post /\ 0 < m
       /\ (forall e, In e pre -> snd e < m)
       /\ (forall e, In e post -> snd e <= m).

(** A list holds no string twice. *)
Fixpoint distinct (l : list str) : bool :=
  match l with
  | [] => true
  | x :: r => negb (mem x r) && distinct r
  end.

(** The strings of [l] not yet in [seen], each at its first place. *)
Fixpoint first_seen (seen l : list str) : list str :=
  match l with
  | [] => []
  | x :: r =>
      if mem x seen then first_seen seen r
      else x :: first_seen (seen ++ [x]) r
  end.

(** *** Obligations *)

(** The stripped sentences the loop takes for obligations. *)
Definition is_obligation (sentence : str) : bool :=
  negb (len sentence <? 20) && any_in obligation_keywords (lower sentence).

Definition obligation_sentences (text : str) : list str :=
  filter is_obligation (map strip (split_punct text)).

(** Whether a sentence taken for an obligation goes to the list [k]. *)
Definition in_category (k : str) (sentence : str) : bool :=
  if str_eqb k k_all then true
  else if str_eqb k k_critical then any_in critical_keywords (lower sentence)
  else if str_eqb k k_payment then any_in payment_keywords (lower sentence)
  else if str_eqb k k_performance then any_in performance_keywords (lower sentence)
  else false.

(** The list of [k] when the loop over the sentences ends. *)
Definition collected (k : str) (text : str) : list str :=
  map clean_obligation (filter (in_category k) (obligation_sentences text)).

(** The dictionary of the four lists. *)
Definition four (a c p f : list str) : dict (list str) :=
  [(k_all, a); (k_critical, c); (k_payment, p); (k_performance, f)].

(** A sentence of 301 characters that states an obligation to pay. *)
Definition long_sentence : str :=
  lit "The tenant shall pay the rent " ++ repeat "x"%char 271.

(** Four sentences: one twice, one too short, one of delivery. *)
Definition two_obligations : str := lit
  "The tenant shall pay the rent. The tenant shall pay the rent! Short shall. The landlord must deliver the keys to the tenant?".

(** *** Question answering *)

(** The sentence passes the two tests of the loop that decide whether it
    is kept. *)
Definition kept_clause (question sentence : str) : bool :=
  (50 <? len (strip sentence)) && (2 <=? word_overlap question sentence).

Definition payment_words : list str :=
  lits ["payment"; "pay"; "fee"; "cost"; "$"; "amount"]%string.

(** The lines of the context that the payment branch keeps. *)
Definition payment_lines (context : str) : list str :=
  filter (fun section => any_in payment_words (lower section))
         (split_on nl context).

Definition payment_question : str := lit "What is the payment schedule?".

Definition due_monthly : str := lit "$500 due monthly".

(** *** Glossary *)

(** No glossary term occurs in the text. *)
Definition no_glossary_term (text : str) : bool :=
  forallb (fun td => negb (contains (lower (fst td)) (lower text)))
          legal_term_definitions.

(** *** The result of the orchestrator *)

Definition summary_fields : list str := lits [
  "executive_summary"; "key_points"; "financial_terms"; "timeline";
  "contract_type"; "main_subject" ]%string.

Definition result_fields : list str := lits [
  "key_terms"; "obligations"; "risk_assessment"; "sections"; "entities";
  "simplified_text" ]%string.

(** Every key of [fields] is a key of the dictionary [v]. *)
Definition has_fields (fields : list str) (v : value) : Prop :=
  forall k, In k fields -> exists x, vget k v = Some x.

Definition success_result (r : value) : Prop :=
  vget (lit "processing_status") r = Some (VStr (lit "success"))
  /\ (exists summary,
        vget (lit "detailed_summary") r = Some summary
        /\ has_fields summary_fields summary)
  /\ has_fields result_fields r.

Definition failure_result (r : value) : Prop :=
  vget (lit "processing_status") r = Some (VStr (lit "failed"))
  /\ exists e, vget (lit "error") r = Some (VStr e).

(** *** The order of the sets *)

(** [order] is a way in which [list(set(l))] may come: the strings of
    [l], each once, in an order that the interpreter chooses. *)
Definition set_order (order : list str -> list str) : Prop :=
  forall l, NoDup (order l) /\ forall x, In x (order l) <-> In x l.

(** The order of the first occurrences, and that order reversed. *)
Definition first_order (l : list str) : list str := fromkeys l.
Definition last_order (l : list str) : list str := rev (fromkeys l).

(** A text with two amounts and nothing else that a pattern of the
    pipeline matches. *)
Definition two_amounts : str := lit "Pay $100 now and $200 later.".

(** What the engine finds in [two_amounts]: the two amounts with the
    patterns that begin with the dollar alternative, the one of the
    entities and the first of the financial terms, and no match of any
    other pattern. *)
Definition two_amounts_findall (pattern text : str) : list str :=
  if starts_with (lit "\$[\d,]+(?:\.\d{2})?") pattern
  then [lit "$100"; lit "$200"]
  else [].

Definition two_amounts_search (pattern text : str) : option str := None.

(** *** Financial terms *)

Section FinancialVocabulary.

Variable re_findall : str -> str -> list str.

(** What the loop over [patterns] adds to a list. *)
Definition gathered (f : str -> str) (patterns : list str) (text : str)
  : list str :=
  List.concat (map (fun pattern => map f (re_findall pattern text)) patterns).

(** The list of [key] when the four loops of [extract_financial_terms]
    end. *)
Definition financial_raw (key text : str) : list str :=
  ((([] ++ (if str_eqb (lit "amounts") key
            then gathered (fun m => m) amount_patterns text else []))
       ++ (if str_eqb (lit "payment_schedule") key
           then gathered (fun m => m) payment_patterns text else []))
      ++ (if str_eqb (lit "interest_rates") key
          then gathered (fun rate => rate ++ lit "%") interest_patterns text
          else []))
     ++ (if str_eqb (lit "payment_methods") key
         then gathered (fun m => m) payment_method_patterns text else []).

End FinancialVocabulary.

(** *** Contract type and subject *)

Definition general_agreement : str := lit "general agreement".

Definition default_subject : str := lit "business relationship and obligations".

(** The score of each archetype, in the order of the table: how many of
    its keywords occur in the lowered text. *)
Definition type_scores (text : str) : list (str * nat) :=
  map (fun ck =>
         (fst ck,
          List.length (filter (fun kw => contains kw (lower text)) (snd ck))))
      contract_types.

(** A text with one keyword of a loan and one of a supply, and a text
    with one keyword of a purchase and two of a supply. *)
Definition loan_and_supply : str := lit "The loan covers the supply.".
Definition supply_of_goods : str := lit "The supply of goods.".

(** [b] is [dflt] when every score is zero, and otherwise the first name
    of the greatest score. *)
Definition first_greatest_or (dflt : str) (scores : list (str * nat)) (b : str)
  : Prop :=
  ((forall e, In e scores -> snd e = 0) /\ b = dflt)
  \/ exists pre m post,
       scores = pre ++ (b, m) :: post /\ 0 < m
       /\ (forall e, In e pre -> snd e < m)
       /\ (forall e, In e post -> snd e <= m).

(** *** Risk *)

(** The indicators of the three tiers, in the order of the loop. *)
Definition indicator_points : list (str * Z) :=
  List.concat (map snd risk_indicators).

(** What an indicator adds to the score. *)
Definition points_of (text_lower : str) (ip : str * Z) : Z :=
  if contains (fst ip) text_lower then snd ip else 0%Z.

Definition sum_points (text_lower : str) (l : list (str * Z)) : Z :=
  fold_right Z.add 0%Z (map (points_of text_lower) l).

(** The text holds none of the phrases the scoring looks for, and two
    penalty words at most. *)
Definition no_risk_phrase (text : str) : bool :=
  let text_lower := lower text in
  forallb (fun ip => negb (contains (fst ip) text_lower)) indicator_points
  && negb (contains (lit "without limitation") text_lower)
  && negb (contains (lit "at will") text_lower)
  && (count_penalty text_lower <=? 2).

Definition riskiest_text : str := lit
  "unlimited liability, personal guarantee, liquidated damages, specific performance, criminal liability, punitive damages, indemnify, hold harmless, strict liability, immediate termination, no cure period, forfeiture, material breach, reasonable efforts, best efforts, consequential damages, indirect damages, without limitation, at will, penalty, penalty, penalties".

Definition safest_text : str := lit
  "limitation of liability, cure period, force majeure, arbitration, mediation, mutual, standard terms, industry standard, reasonable, good faith, fair dealing, customary, typical".

(** *** Simplification *)

(** No trigger phrase of the table occurs in the text. *)
Definition no_trigger (text : str) : bool :=
  forallb (fun q => negb (search_ci q text)) triggers.

(** The rule of index [i] has a pattern that can overlap neither its own
    replacement nor that of a later rule. *)
Definition clean_rule (i : nat) : bool :=
  match nth_error simplifications i with
  | Some (q, rep) =>
      negb (len q =? 0) && start_free q rep && end_free q rep
      && forallb (fun r => negb (len (fst r) =? 0)
                           && start_free q (snd r) && end_free q (snd r))
                 (skipn (S i) simplifications)
  | None => false
  end.

(** The trigger phrases of the clean rules. *)
Definition never_left : list str := lits [
  "pursuant to"; "force majeure"; "indemnify"; "assign"; "breach"; "cure";
  "default"; "waiver"; "perpetuity"; "forthwith"; "shall"; "shall not" ]%string.

(** *** Context windows *)

(** A string given by its code points.  The strings of this embedding
    are those of code points below 256, on which [str.lower] turns one
    character into one; a text with a code point beyond, such as U+0130,
    which [str.lower] turns into two characters, is outside it, and the
    positions found in its lowered form are not those of the text. *)
Definition of_codes (cps : list N) : str := map ascii_of_N cps.

Definition codes (s : str) : list N := map N_of_ascii s.

Definition latin1 (cps : list N) : bool :=
  forallb (fun c => (c <? 256)%N) cps.

(** The phrase is not empty and neither begins nor ends with a space. *)
Definition edges_clear (p : str) : bool :=
  match p with
  | c :: _ => negb (is_space c)
  | [] => false
  end
  && match rev p with
     | d :: _ => negb (is_space d)
     | [] => false
     end.

(** [p] occurs in [s] and begins among its first [n + 1] characters. *)
Definition occurs_within (n : nat) (p s : str) : Prop :=
  exists a b, s = a ++ p ++ b /\ len a <= n.

(** The entry of the glossary term [term], found in [text]. *)
Definition term_entry (text : str) (td : str * str) : dict str :=
  key_term (title (fst td)) (snd td)
           (_extract_context_around_phrase text (fst td) 80).

(** The entry the scoring loop adds for an indicator found in [text]. *)
Definition indicator_entry (text : str) (ip : str * Z) : dict str :=
  analysis_entry (fst ip)
    ((if (0 <? snd ip)%Z then lit "increases" else lit "reduces")
     ++ lit " risk by " ++ of_nat (Z.abs_nat (snd ip)) ++ lit " points")
    (clip 150 (_extract_context_around_phrase text (fst ip) 100)).

Definition without_limitation_entry : dict str :=
  analysis_entry (lit "without limitation")
                 (lit "increases risk by 2 points")
                 (lit "Broad liability exposure identified").

Definition general_terms_entry : dict str :=
  analysis_entry (lit "general terms")
                 (lit "standard risk level")
                 (lit "No specific high-risk factors identified").

(** What an entry of the detailed analysis shows. *)
Definition shown_factor (text : str) (entry : dict str) : Prop :=
  entry = general_terms_entry
  \/ entry = without_limitation_entry
  \/ exists indicator points context,
       In (indicator, points) indicator_points
       /\ contains indicator (lower text) = true
       /\ entry = indicator_entry text (indicator, points)
       /\ dict_get (lit "factor") entry = Some indicator
       /\ dict_get (lit "context") entry = Some context
       /\ contains indicator (lower context) = true.

(** ** [models.py]: the response models *)

(** The annotation of a field. *)
Inductive schema : Type :=
| SStr
| SInt
| SFloat
| SAny
| SList (item : schema)
| SDict (item : schema)
| SModel (fields : list (str * schema)).

(** The value has the shape the annotation asks for: every field of a
    model is there, with a value of the shape of its annotation. *)
Fixpoint conforms (t : schema) (v : value) {struct t} : bool :=
  match t with
  | SStr => match v with VStr _ => true | _ => false end
  | SInt => match v with VInt _ => true | _ => false end
  | SFloat => match v with VFloat _ => true | _ => false end
  | SAny => true
  | SList item =>
      match v with
      | VList l => forallb (conforms item) l
      | _ => false
      end
  | SDict item =>
      match v with
      | VDict d => forallb (fun kv => conforms item (snd kv)) d
      | _ => false
      end
  | SModel fields =>
      match v with
      | VDict d =>
          (fix all (fs : list (str * schema)) : bool :=
             match fs with
             | [] => true
             | (k, t') :: r =>
                 match dict_get k d with
                 | Some x => conforms t' x
                 | None => false
                 end && all r
             end) fields
      | _ => false
      end
  end.

Definition KeyTerm : schema := SModel [
  (lit "term", SStr); (lit "definition", SStr); (lit "context", SStr) ].

Definition RiskAssessment : schema := SModel [
  (lit "risk_level", SStr); (lit "risk_score", SInt);
  (lit "reasons", SList SStr);
  (lit "detailed_analysis", SList (SDict SStr)) ].

Definition Obligations : schema := SModel [
  (lit "all_obligations", SList SStr);
  (lit "critical_obligations", SList SStr);
  (lit "payment_obligations", SList SStr);
  (lit "performance_obligations", SList SStr) ].

Definition DetailedSummary : schema := SModel [
  (lit "executive_summary", SStr); (lit "key_points", SList SStr);
  (lit "financial_terms", SDict SAny);
  (lit "timeline", SList (SDict SStr));
  (lit "contract_type", SStr); (lit "main_subject", SStr) ].

Definition ContractAnalysisResponse : schema := SModel [
  (lit "detailed_summary", DetailedSummary);
  (lit "key_terms", SList KeyTerm);
  (lit "obligations", Obligations);
  (lit "risk_assessment", RiskAssessment);
  (lit "sections", SDict (SList SStr));
  (lit "entities", SDict (SList SStr));
  (lit "simplified_text", SStr);
  (lit "processing_status", SStr) ].

Definition QuestionResponse : schema := SModel [
  (lit "answer", SStr); (lit "relevant_clauses", SList SStr);
  (lit "confidence", SFloat); (lit "follow_up_suggestions", SList SStr) ].

(** ** [app.py]: the endpoints *)

(** What a handler ends with: the returned body, or [HTTPException]. *)
Inductive http : Type :=
| Returned (body : value)
| HTTPException (status_code : nat) (detail : value).

(** [not s.strip()] *)
Definition blank (s : str) : bool := len (strip s) =? 0.

(** [result.get(k) != s] *)
Definition differs (v : option value) (s : str) : bool :=
  match v with
  | Some (VStr x) => negb (str_eqb x s)
  | _ => true
  end.

Section Endpoints.

Variable re_findall : str -> str -> list str.
Variable re_search : str -> str -> option str.
Variable set_to_list : list str -> list str.

(** [get_processor()]: the processor, here its Gemini client, or the
    exception its construction raises. *)
Variable get_processor : exn gemini.

(** The models [ContractAnalysisResponse] and [QuestionResponse] built
    from the fields of a result: the body of the response, or the
    message of the validation error. *)
Variable analysis_response : value -> exn value.
Variable question_response : value -> exn value.

Definition bad_request (detail : string) : http :=
  HTTPException 400 (VStr (lit detail)).

Definition server_error (prefix : string) (e : str) : http :=
  HTTPException 500 (VStr (lit prefix ++ e)).

Definition analyze_contract_text (contract_text : str) (lg : log) : http * log :=
  if blank contract_text then
    (bad_request "Contract text cannot be empty", lg)
  else if len contract_text <? 100 then
    (bad_request "Contract text too short for meaningful analysis", lg)
  else
    match get_processor with
    | Raise e =>
        (server_error "Analysis failed: " e,
         lg ++ [(lit "ERROR", lit "Error in analyze_contract_text: " ++ e)])
    | Ok processor =>
        let (result, lg1) :=
          process_contract re_findall re_search set_to_list contract_text lg in
        if differs (vget (lit "processing_status") result) (lit "success") then
          (HTTPException 500
             match vget (lit "error") result with
             | Some detail => detail
             | None => VStr (lit "Processing failed")
             end,
           lg1)
        else
          let lg2 :=
            lg1 ++ [(lit "INFO", lit "Successfully analyzed contract with "
                       ++ of_nat (len contract_text) ++ lit " characters")] in
          match analysis_response result with
          | Ok body => (Returned body, lg2)
          | Raise e =>
              (server_error "Analysis failed: " e,
               lg2 ++ [(lit "ERROR", lit "Error in analyze_contract_text: " ++ e)])
          end
    end.

Definition ask_question (question contract_context : str) (lg : log)
  : http * log :=
  if blank question then (bad_request "Question cannot be empty", lg)
  else if blank contract_context then
    (bad_request "Contract context is required", lg)
  else if 500 <? len question then
    (bad_request "Question too long. Maximum 500 characters", lg)
  else
    match get_processor with
    | Raise e =>
        (server_error "Question processing failed: " e,
         lg ++ [(lit "ERROR", lit "Error processing question: " ++ e)])
    | Ok gemini_model =>
        let (answer_data, lg1) :=
          ask_openai_question gemini_model question contract_context lg in
        let lg2 :=
          lg1 ++ [(lit "INFO", lit "Successfully answered question: "
                     ++ slice 0 50 question ++ lit "...")] in
        match question_response answer_data with
        | Ok body => (Returned body, lg2)
        | Raise e =>
            (server_error "Question processing failed: " e,
             lg2 ++ [(lit "ERROR", lit "Error processing question: " ++ e)])
        end
    end.

End Endpoints.

(** A text that passes the guards of the endpoints. *)
Definition plain_lease : str := lit
  "This lease is made between the Landlord and the Tenant for the flat at 2 Mill Lane, for one year, at a rent of 500 a month.".

(** The list a category ends with. *)
Definition finished (k text : str) : list str :=
  match collected k text with
  | [] => [no_obligations]
  | x :: r => firstn 10 (fromkeys (x :: r))
  end.

Definition sizes (sections : dict (list str)) : nat :=
  list_sum (map (fun kv => List.length (snd kv)) sections).

(** * Properties *)

(** ** Lists and strings *)

Lemma str_eqb_eq (a b : str) : str_eqb a b = true <-> a = b.
Proof.
  revert b; induction a as [|x a IH]; intros [|y b]; simpl; split;
    try congruence; try easy.
  - intros H. apply andb_prop in H as [H1 H2].
    apply Ascii.eqb_eq in H1. apply IH in H2. congruence.
  - intros H. injection H as -> ->. rewrite Ascii.eqb_refl. simpl.
    now apply IH.
Qed.

Lemma str_eqb_refl (a : str) : str_eqb a a = true.
Proof. now apply str_eqb_eq. Qed.

Lemma str_eqb_neq (a b : str) : str_eqb a b = false <-> a <> b.
Proof.
  split.
  - intros H E. apply str_eqb_eq in E. congruence.
  - intros H. destruct (str_eqb a b) eqn:E; [|reflexivity].
    apply str_eqb_eq in E. contradiction.
Qed.

Lemma mem_In (x : str) (l : list str) : mem x l = true <-> In x l.
Proof.
  induction l as [|y l IH]; simpl.
  - split; [discriminate | tauto].
  - rewrite orb_true_iff, IH, str_eqb_eq. split; intros [H|H]; auto.
Qed.

(** ** Case-insensitive substitution *)

Section Substitution.

Variables p rep : str.

Lemma sub_go_skip (s : str) :
  forall k, sub_go p rep k s = sub_ci p rep (skipn k s).
Proof.
  induction s as [|c r IH]; intros [|k]; try reflexivity.
  simpl. apply IH.
Qed.

Lemma sub_ci_cons (c : ascii) (r : str) :
  sub_ci p rep (c :: r) =
  if match_ci p (c :: r) then rep ++ sub_ci p rep (skipn (len p - 1) r)
  else c :: sub_ci p rep r.
Proof.
  unfold sub_ci at 1. cbn [sub_go]. now rewrite sub_go_skip.
Qed.

Lemma search_ci_cons (q : str) (c : ascii) (r : str) :
  search_ci q (c :: r) = match_ci q (c :: r) || search_ci q r.
Proof. reflexivity. Qed.

Lemma search_false_head (q s : str) :
  search_ci q s = false -> match_ci q s = false.
Proof.
  destruct s; simpl; intros H.
  - now apply orb_false_elim in H as [H _].
  - now apply orb_false_elim in H as [H _].
Qed.

Lemma search_false_tail (q : str) (c : ascii) (r : str) :
  search_ci q (c :: r) = false -> search_ci q r = false.
Proof.
  rewrite search_ci_cons. intros H. now apply orb_false_elim in H.
Qed.

Lemma search_false_skipn (q s : str) (k : nat) :
  search_ci q s = false -> search_ci q (skipn k s) = false.
Proof.
  revert s; induction k as [|k IH]; intros s H; [exact H|].
  destruct s as [|c r]; [exact H|].
  simpl. apply IH. eapply search_false_tail; eauto.
Qed.

(** A string without the pattern is left as it is. *)
Lemma sub_ci_absent (s : str) :
  search_ci p s = false -> sub_ci p rep s = s.
Proof.
  induction s as [|c r IH]; intros H; [reflexivity|].
  rewrite sub_ci_cons, (search_false_head _ _ H).
  f_equal. apply IH. eapply search_false_tail; eauto.
Qed.

Lemma match_ci_app (x y s : str) :
  match_ci (x ++ y) s = match_ci x s && match_ci y (skipn (len x) s).
Proof.
  revert s; induction x as [|a x IH]; intros s; simpl.
  - reflexivity.
  - destruct s as [|b s]; [reflexivity|].
    simpl. now rewrite IH, andb_assoc.
Qed.

Lemma search_ci_skipn (q s : str) (k : nat) :
  match_ci q (skipn k s) = true -> search_ci q s = true.
Proof.
  revert s; induction k as [|k IH]; intros s H.
  - destruct s; simpl in *; now rewrite H.
  - destruct s as [|c r].
    + simpl in *. now rewrite H.
    + rewrite search_ci_cons. simpl in H. rewrite (IH _ H).
      apply orb_true_r.
Qed.

Lemma search_ci_prefix (x y s : str) :
  search_ci x s = false -> search_ci (x ++ y) s = false.
Proof.
  induction s as [|c r IH]; intros H.
  - simpl in *. apply orb_false_elim in H as [H _].
    now rewrite match_ci_app, H.
  - rewrite search_ci_cons in *. apply orb_false_elim in H as [H1 H2].
    now rewrite match_ci_app, H1, IH.
Qed.

Lemma match_compat (q r z : str) :
  match_ci q (r ++ z) = true -> compat q r = true.
Proof.
  revert r; induction q as [|a q IH]; intros [|b r]; simpl; auto.
  intros H. apply andb_prop in H as [H1 H2].
  now rewrite H1, (IH _ H2).
Qed.

(** An occurrence of [q] at the head of the output begins at the head of
    the input too, or runs from the input into a replacement. *)
Lemma match_after_sub (q : str) :
  forall s, match_ci q (sub_ci p rep s) = true ->
    match_ci q s = true \/
    exists x y, q = x ++ y /\ y <> [] /\ match_ci x s = true /\
                match_ci p (skipn (len x) s) = true /\ compat y rep = true.
Proof.
  induction q as [|a q IH]; intros s H; [now left|].
  destruct s as [|c r]; [discriminate H|].
  rewrite sub_ci_cons in H.
  destruct (match_ci p (c :: r)) eqn:Hp.
  - right. exists [], (a :: q). repeat split; auto; try discriminate.
    eapply match_compat; eauto.
  - cbn [match_ci] in H. apply andb_prop in H as [H1 H2].
    destruct (IH _ H2) as [Hq | (x & y & -> & Hy & Hx & Hpx & Hc)].
    + left. cbn [match_ci]. now rewrite H1, Hq.
    + right. exists (a :: x), y. repeat split; auto.
      cbn [match_ci]. now rewrite H1, Hx.
Qed.

Lemma start_free_split (q x y : str) :
  start_free q rep = true -> q = x ++ y -> y <> [] -> compat y rep = false.
Proof.
  unfold start_free. rewrite forallb_forall. intros H -> Hy.
  specialize (H (len x)).
  rewrite skipn_app, skipn_all, Nat.sub_diag in H. simpl in H.
  apply negb_true_iff, H, in_seq. unfold len. rewrite length_app.
  destruct y; [contradiction|]. simpl. lia.
Qed.

Lemma match_after_sub_free (q s : str) :
  start_free q rep = true ->
  match_ci q (sub_ci p rep s) = true -> match_ci q s = true.
Proof.
  intros Hf H.
  destruct (match_after_sub q s H) as [Hq | (x & y & E & Hy & _ & _ & Hc)];
    [exact Hq|].
  rewrite (start_free_split q x y Hf E Hy) in Hc. discriminate.
Qed.

(** Occurrences that begin inside a replacement. *)
Lemma search_past_block (q r z : str) :
  (forall i, i < len r -> match_ci q (skipn i r ++ z) = false) ->
  search_ci q (r ++ z) = search_ci q z.
Proof.
  induction r as [|b r IH]; intros H; [reflexivity|].
  change ((b :: r) ++ z) with (b :: (r ++ z)).
  rewrite search_ci_cons.
  assert (H0 : match_ci q (b :: r ++ z) = false) by (apply (H 0); simpl; lia).
  rewrite H0. simpl.
  apply IH. intros i Hi. apply (H (S i)). simpl. lia.
Qed.

Lemma end_free_block (q z : str) (i : nat) :
  end_free q rep = true -> i < len rep ->
  match_ci q (skipn i rep ++ z) = false.
Proof.
  unfold end_free. rewrite forallb_forall. intros H Hi.
  specialize (H i). rewrite negb_true_iff in H.
  destruct (match_ci q (skipn i rep ++ z)) eqn:E; [|reflexivity].
  apply match_compat in E. rewrite H in E; [discriminate|].
  apply in_seq. lia.
Qed.

(** The pattern for the induction on the input: a property [P] of the
    input that its tails keep, under which no occurrence of [q] begins in
    a stretch the substitution leaves alone, or inside a replacement. *)
Lemma absent_after_sub_gen (q : str) (P : str -> Prop) :
  p <> [] ->
  (forall c r, P (c :: r) -> P r) ->
  (forall s, P s -> match_ci p s = false ->
             match_ci q (sub_ci p rep s) = false) ->
  (forall s i, P s -> match_ci p s = true -> i < len rep ->
     match_ci q (skipn i rep ++ sub_ci p rep (skipn (len p) s)) = false) ->
  forall s, P s -> search_ci q (sub_ci p rep s) = false.
Proof.
  intros Hp Htl Hgap Hblock.
  assert (Hsk : forall k s, P s -> P (skipn k s)).
  { induction k as [|k IH]; intros s Hs; [exact Hs|].
    destruct s as [|c r]; [exact Hs|]. simpl. eauto. }
  intros s. remember (len s) as n eqn:En. revert s En.
  induction n as [n IH] using lt_wf_ind. intros s En Hs.
  destruct s as [|c r].
  - specialize (Hgap [] Hs). cbn in *. destruct p; [contradiction|].
    rewrite Hgap; reflexivity.
  - destruct (match_ci p (c :: r)) eqn:Hm.
    + rewrite sub_ci_cons, Hm.
      assert (Hlen : skipn (len p - 1) r = skipn (len p) (c :: r)).
      { destruct p; [contradiction|]. simpl. now rewrite Nat.sub_0_r. }
      rewrite Hlen.
      rewrite search_past_block.
      * eapply IH; [| reflexivity | now apply Hsk].
        subst n. unfold len. rewrite length_skipn.
        destruct p; [contradiction|]. simpl. lia.
      * intros i Hi. now apply Hblock.
    + pose proof (Hgap _ Hs Hm) as Hh.
      rewrite sub_ci_cons, Hm in *.
      rewrite search_ci_cons, Hh. simpl.
      eapply IH; [| reflexivity | eauto].
      subst n. simpl. lia.
Qed.

(** A phrase absent from the input, and unable to overlap a replacement,
    is absent from the output. *)
Lemma absent_after_sub (q s : str) :
  p <> [] -> start_free q rep = true -> end_free q rep = true ->
  search_ci q s = false -> search_ci q (sub_ci p rep s) = false.
Proof.
  intros Hp Hs He.
  apply (absent_after_sub_gen q (fun s => search_ci q s = false)); auto.
  - intros c r. apply search_false_tail.
  - intros s0 H0 _.
    destruct (match_ci q (sub_ci p rep s0)) eqn:E; [|reflexivity].
    apply match_after_sub_free in E; auto.
    now rewrite (search_false_head _ _ H0) in E.
  - intros s0 i _ _ Hi. now apply end_free_block.
Qed.

(** A pattern unable to overlap its own replacement is gone after its
    substitution. *)
Lemma removed_by_sub (s : str) :
  p <> [] -> start_free p rep = true -> end_free p rep = true ->
  search_ci p (sub_ci p rep s) = false.
Proof.
  intros Hp Hs He.
  apply (absent_after_sub_gen p (fun _ => True)); auto.
  - intros s0 _ Hm.
    destruct (match_ci p (sub_ci p rep s0)) eqn:E; [|reflexivity].
    apply match_after_sub_free in E; auto. congruence.
  - intros s0 i _ _ Hi. now apply end_free_block.
Qed.

End Substitution.

(** ** [simplify_legal_language] *)

Lemma fold_simplify_absent (rules : dict str) (t : str) :
  (forall rule, In rule rules -> search_ci (fst rule) t = false) ->
  fold_left simplify_step rules t = t.
Proof.
  induction rules as [|rule rules IH]; intros H; [reflexivity|].
  simpl. unfold simplify_step at 2.
  rewrite sub_ci_absent by (apply H; now left).
  apply IH. intros r Hr. apply H. now right.
Qed.

Lemma last_two_rules :
  skipn 23 simplifications = [(shall, must); (shall_not, lit "must not")].
Proof. reflexivity. Qed.

Lemma simplify_by_shall (text : str) :
  simplify_legal_language text =
  sub_ci shall_not (lit "must not")
    (sub_ci shall must (fold_left simplify_step (firstn 23 simplifications) text)).
Proof.
  unfold simplify_legal_language.
  rewrite <- (firstn_skipn 23 simplifications) at 1.
  rewrite fold_left_app, last_two_rules. reflexivity.
Qed.

Lemma shall_removed (s : str) : search_ci shall (sub_ci shall must s) = false.
Proof. apply removed_by_sub; [discriminate | reflexivity | reflexivity]. Qed.

Lemma shall_not_idle (s : str) :
  search_ci shall s = false -> sub_ci shall_not (lit "must not") s = s.
Proof.
  intros H. apply sub_ci_absent.
  change shall_not with (shall ++ lit " not"). now apply search_ci_prefix.
Qed.

(** C10. The output of [simplify_legal_language] holds no occurrence of
    "shall" in any mix of cases, whatever the input: the "shall" rule
    leaves none in what it is given, be it the input's own or made by an
    earlier rule at a splice; no replacement text holds one; and when
    the turn of the one later rule, "shall not", comes, its pattern has
    no match, so the output is that of the "shall" rule. *)
Theorem simplify_leaves_no_shall :
  (forall text, search_ci shall (simplify_legal_language text) = false)
  /\ (forall s, search_ci shall (sub_ci shall must s) = false)
  /\ forallb (fun rule => negb (search_ci shall (snd rule))) simplifications = true
  /\ skipn 23 simplifications = [(shall, must); (shall_not, lit "must not")]
  /\ (forall text,
        let before := fold_left simplify_step (firstn 24 simplifications) text in
        search_ci shall_not before = false
        /\ simplify_legal_language text = before).
Proof.
  assert (H24 : forall text,
             fold_left simplify_step (firstn 24 simplifications) text =
             sub_ci shall must
               (fold_left simplify_step (firstn 23 simplifications) text)).
  { intros text.
    change (firstn 24 simplifications)
      with (firstn 23 simplifications ++ [(shall, must)]).
    now rewrite fold_left_app. }
  split; [|split; [|split; [|split]]].
  - intros text. rewrite simplify_by_shall.
    rewrite shall_not_idle; apply shall_removed.
  - apply shall_removed.
  - reflexivity.
  - apply last_two_rules.
  - intros text before. subst before. rewrite H24. split.
    + change shall_not with (shall ++ lit " not").
      apply search_ci_prefix, shall_removed.
    + rewrite simplify_by_shall. apply shall_not_idle, shall_removed.
Qed.

(** *** Running the table twice *)

Lemma split_lengths (q x y : str) :
  q = x ++ y -> y <> [] ->
  x = firstn (len x) q /\ y = skipn (len x) q /\ len x < len q.
Proof.
  intros -> Hy. unfold len.
  rewrite firstn_app, firstn_all, Nat.sub_diag, app_nil_r.
  rewrite skipn_app, skipn_all, Nat.sub_diag. simpl.
  repeat split. rewrite length_app.
  destruct y; [contradiction|]. simpl. lia.
Qed.

Lemma hereby_overlap (k : nat) :
  k < 6 -> compat (skipn k hereby) by_this_document = true -> k = 4.
Proof.
  intros Hk.
  do 6 (destruct k as [|k]; [vm_compute; congruence|]). lia.
Qed.

Lemma thereof_overlap (i : nat) :
  i < 16 -> compat thereof (skipn i by_this_document) = true -> i = 15.
Proof.
  intros Hi.
  do 16 (destruct i as [|i]; [vm_compute; congruence|]). lia.
Qed.

Lemma hereby_absent_after (s : str) :
  search_ci (lit "herehereby") s = false ->
  search_ci hereby (sub_ci hereby by_this_document s) = false.
Proof.
  apply (absent_after_sub_gen hereby by_this_document hereby
           (fun s => search_ci (lit "herehereby") s = false)).
  - discriminate.
  - intros c r. apply search_false_tail.
  - intros s0 H0 Hm.
    destruct (match_ci hereby (sub_ci hereby by_this_document s0)) eqn:E;
      [|reflexivity].
    apply match_after_sub in E.
    destruct E as [E | (x & y & E & Hy & Hx & Hp & Hc)]; [congruence|].
    destruct (split_lengths _ _ _ E Hy) as (Ex & Ey & Hk).
    rewrite Ey in Hc. apply hereby_overlap in Hc; [|exact Hk].
    rewrite Hc in Ex. change (firstn 4 hereby) with (lit "here") in Ex.
    apply search_false_head in H0.
    change (lit "herehereby") with (lit "here" ++ hereby) in H0.
    rewrite match_ci_app, <- Ex, Hx, Hp in H0. discriminate.
  - intros s0 i _ _ Hi. now apply end_free_block.
Qed.

Lemma thereof_absent_after (s : str) :
  search_ci thereof s = false ->
  search_ci (lit "herebyhereof") s = false ->
  search_ci thereof (sub_ci hereby by_this_document s) = false.
Proof.
  intros H1 H2.
  apply (absent_after_sub_gen hereby by_this_document thereof
           (fun s => search_ci thereof s = false /\
                     search_ci (lit "herebyhereof") s = false)).
  - discriminate.
  - intros c r [A B]. split; eapply search_false_tail; eauto.
  - intros s0 [A _] _.
    destruct (match_ci thereof (sub_ci hereby by_this_document s0)) eqn:E;
      [|reflexivity].
    apply match_after_sub_free in E; [|reflexivity].
    now rewrite (search_false_head _ _ A) in E.
  - intros s0 i [_ B] Hm Hi.
    destruct (match_ci thereof (skipn i by_this_document ++ _)) eqn:E;
      [|reflexivity].
    pose proof (match_compat _ _ _ E) as Hc.
    apply thereof_overlap in Hc; [|exact Hi]. subst i.
    change (skipn 15 by_this_document) with (lit "t") in E.
    change (match_ci (lit "hereof")
              (sub_ci hereby by_this_document (skipn (len hereby) s0)) = true)
      in E.
    apply match_after_sub_free in E; [|reflexivity].
    apply search_false_head in B.
    change (lit "herebyhereof") with (hereby ++ lit "hereof") in B.
    rewrite match_ci_app, Hm, E in B. discriminate.
  - now split.
Qed.

Lemma other_triggers_free :
  forallb (fun q => str_eqb q hereby || str_eqb q thereof
                    || (start_free q by_this_document
                        && end_free q by_this_document))
          triggers = true.
Proof. vm_compute. reflexivity. Qed.

(** When only "hereby" occurs, and clear of "here" and "hereof", its
    substitution leaves a text without any trigger phrase. *)
Lemma triggers_absent_after_hereby (s : str) :
  only_hereby s = true -> hereby_clear s = true ->
  forall q, In q triggers ->
            search_ci q (sub_ci hereby by_this_document s) = false.
Proof.
  unfold only_hereby, hereby_clear. rewrite forallb_forall.
  intros Hon Hcl q Hq.
  apply andb_prop in Hcl as [C1 C2]. rewrite negb_true_iff in C1, C2.
  pose proof other_triggers_free as Hfree. rewrite forallb_forall in Hfree.
  specialize (Hon q Hq). specialize (Hfree q Hq).
  destruct (str_eqb q hereby) eqn:Eh.
  - apply str_eqb_eq in Eh. subst q. now apply hereby_absent_after.
  - simpl in Hon, Hfree. rewrite negb_true_iff in Hon.
    destruct (str_eqb q thereof) eqn:Et.
    + apply str_eqb_eq in Et. subst q. now apply thereof_absent_after.
    + simpl in Hfree. apply andb_prop in Hfree as [F1 F2].
      apply absent_after_sub; auto. discriminate.
Qed.

Lemma rule_trigger (rule : str * str) :
  In rule simplifications -> In (fst rule) triggers.
Proof. intros H. unfold triggers, keys. now apply in_map. Qed.

Lemma hereby_rule_position :
  simplifications =
  firstn 3 simplifications ++ (hereby, by_this_document) :: skipn 4 simplifications.
Proof. reflexivity. Qed.

Lemma simplify_only_hereby (s : str) :
  only_hereby s = true -> hereby_clear s = true ->
  simplify_legal_language s = sub_ci hereby by_this_document s.
Proof.
  intros Hon Hcl. unfold simplify_legal_language.
  rewrite hereby_rule_position, fold_left_app. cbn [fold_left].
  rewrite (fold_simplify_absent (firstn 3 simplifications) s).
  - change (simplify_step s (hereby, by_this_document))
      with (sub_ci hereby by_this_document s).
    apply fold_simplify_absent. intros rule Hr.
    apply triggers_absent_after_hereby; auto.
    apply rule_trigger. rewrite <- (firstn_skipn 4 simplifications).
    apply in_or_app. now right.
  - intros rule Hr.
    assert (Hin : In rule simplifications).
    { rewrite <- (firstn_skipn 3 simplifications). apply in_or_app. now left. }
    unfold only_hereby in Hon. rewrite forallb_forall in Hon.
    specialize (Hon _ (rule_trigger _ Hin)).
    destruct (str_eqb (fst rule) hereby) eqn:E.
    + exfalso. revert Hr E. clear.
      cbn [firstn simplifications lit_pairs map In].
      intros [<-|[<-|[<-|[]]]]; vm_compute; discriminate.
    + simpl in Hon. now rewrite negb_true_iff in Hon.
Qed.

(** C9, as amended.  For every text in which the only occurrences of
    trigger phrases are those of "hereby", none of them right after
    "here" or right before "hereof", a second run of
    [simplify_legal_language] leaves the output of the first
    unchanged. *)
Theorem simplify_twice_hereby (text : str) :
  only_hereby text = true -> hereby_clear text = true ->
  simplify_legal_language (simplify_legal_language text) =
  simplify_legal_language text.
Proof.
  intros Hon Hcl. rewrite (simplify_only_hereby text Hon Hcl).
  unfold simplify_legal_language at 1.
  apply fold_simplify_absent. intros rule Hr.
  apply triggers_absent_after_hereby; auto. now apply rule_trigger.
Qed.

Lemma simplify_twice_hereby_witness :
  let text := lit "The parties hereby agree, and the Tenant HEREBY accepts." in
  only_hereby text = true /\ hereby_clear text = true /\
  simplify_legal_language text =
    lit "The parties by this document agree, and the Tenant by this document accepts." /\
  simplify_legal_language (simplify_legal_language text) =
    simplify_legal_language text.
Proof.
  intros text.
  assert (Hon : only_hereby text = true) by (vm_compute; reflexivity).
  assert (Hcl : hereby_clear text = true) by (vm_compute; reflexivity).
  split; [exact Hon|]. split; [exact Hcl|].
  split; [vm_compute; reflexivity|].
  exact (simplify_twice_hereby text Hon Hcl).
Defined.

(** C9, as stated, fails: in "herehereby" the only trigger phrase is
    "hereby", the first run splices "here" onto "by this document" and
    so makes a new "hereby", which the second run rewrites. *)
Lemma simplify_twice_hereby_counterexample :
  let text := lit "herehereby" in
  only_hereby text = true
  /\ simplify_legal_language text = lit "hereby this document"
  /\ simplify_legal_language (simplify_legal_language text)
     = lit "by this document this document"
  /\ simplify_legal_language (simplify_legal_language text)
     <> simplify_legal_language text.
Proof.
  vm_compute. repeat split; try reflexivity. discriminate.
Qed.

(** ** Dictionaries *)

Lemma dict_get_In {A} (k : str) (d : dict A) :
  In k (keys d) -> exists v, dict_get k d = Some v.
Proof.
  induction d as [|[k' v] d IH]; simpl; [tauto|].
  intros [E|H].
  - subst k'. rewrite str_eqb_refl. eauto.
  - destruct (str_eqb k k'); eauto.
Qed.

Lemma dict_get_Some_In {A} (k : str) (d : dict A) (v : A) :
  dict_get k d = Some v -> In k (keys d).
Proof.
  induction d as [|[k' v'] d IH]; simpl; [discriminate|].
  destruct (str_eqb k k') eqn:E.
  - apply str_eqb_eq in E. auto.
  - auto.
Qed.

Lemma dict_get_const {A B} (c : B) (k : str) (d : dict A) (v : B) :
  dict_get k (map (fun kv => (fst kv, c)) d) = Some v -> v = c.
Proof.
  induction d as [|[k' v'] d IH]; simpl; [discriminate|].
  destruct (str_eqb k k'); [congruence | exact IH].
Qed.

Lemma distinct_NoDup (l : list str) : distinct l = true -> NoDup l.
Proof.
  induction l as [|x l IH]; simpl; intros H; constructor.
  - apply andb_prop in H as [H _]. rewrite negb_true_iff in H.
    intros Hin. apply mem_In in Hin. congruence.
  - apply IH. now apply andb_prop in H as [_ H].
Qed.

Lemma dict_get_map {A B} (f : str * A -> B) (k : str) (d : dict A) :
  dict_get k (map (fun kv => (fst kv, f kv)) d) =
  match dict_get k d with
  | Some v => Some (f (k, v))
  | None => None
  end.
Proof.
  induction d as [|[k' v] d IH]; simpl; [reflexivity|].
  destruct (str_eqb k k') eqn:E; [|exact IH].
  apply str_eqb_eq in E. now subst k'.
Qed.

Lemma keys_map {A B} (f : str * A -> B) (d : dict A) :
  keys (map (fun kv => (fst kv, f kv)) d) = keys d.
Proof. unfold keys. rewrite map_map. reflexivity. Qed.

(** [d[k].extend(xs)] on a dictionary of distinct keys that holds [k]:
    the list at [k] grows, nothing else moves. *)
Lemma extend_at_map (k : str) (xs : list str) (d : dict (list str)) :
  NoDup (keys d) -> In k (keys d) ->
  extend_at k xs d =
  Ok (map (fun kv => (fst kv,
                      snd kv ++ (if str_eqb k (fst kv) then xs else []))) d).
Proof.
  unfold extend_at, getitem.
  induction d as [|[k' v] d IH]; simpl; [tauto|].
  intros Hnd Hin. inversion Hnd as [|? ? Hk' Hnd']; subst.
  destruct (str_eqb k k') eqn:E.
  - apply str_eqb_eq in E. subst k'. simpl. do 2 f_equal.
    clear IH Hin Hnd. induction d as [|[k2 v2] d IH]; [reflexivity|].
    simpl in *. inversion Hnd' as [|? ? Hk2 Hnd2]; subst.
    destruct (str_eqb k k2) eqn:E2.
    + apply str_eqb_eq in E2. subst k2. tauto.
    + rewrite app_nil_r. f_equal. apply IH; tauto.
  - destruct Hin as [Hin|Hin]; [subst k'; now rewrite str_eqb_refl in E|].
    specialize (IH Hnd' Hin).
    destruct (dict_get k d) as [l|]; [|discriminate IH].
    simpl in *. injection IH as IH. rewrite app_nil_r. now rewrite IH.
Qed.

(** ** [identify_contract_sections] *)

Lemma best_match_scores (pl : str) (l : dict (list str)) (b : str * nat) :
  fold_left (best_step pl) l b =
  fold_left pick
    (map (fun entry => (fst entry, keyword_matches (snd entry) pl))
         (filter (fun entry => negb (str_eqb (fst entry) general_terms)) l))
    b.
Proof.
  revert b; induction l as [|e l IH]; intros b; [reflexivity|].
  simpl. unfold best_step at 2.
  destruct (str_eqb (fst e) general_terms); simpl; apply IH.
Qed.

Lemma pick_first_greatest (l : list (str * nat)) :
  forall b,
    (fold_left pick l b = b /\ forall e, In e l -> snd e <= snd b)
    \/ exists pre c m post,
         l = pre ++ (c, m) :: post /\ fold_left pick l b = (c, m) /\ snd b < m
         /\ (forall e, In e pre -> snd e < m)
         /\ (forall e, In e post -> snd e <= m).
Proof.
  induction l as [|e l IH]; intros b; cbn [fold_left].
  - left. split; [reflexivity | intros e []].
  - unfold pick at 2 4. destruct (snd b <? snd e) eqn:E.
    + apply Nat.ltb_lt in E.
      destruct (IH e) as [[Hr Hle] | (pre & c & m & post & -> & Hr & Hlt & Hpre & Hpost)].
      * right. exists [], (fst e), (snd e), l.
        rewrite Hr. destruct e. simpl in *. repeat split; auto. tauto.
      * right. exists (e :: pre), c, m, post. repeat split; auto; [lia|].
        intros e' [<-|H]; auto.
    + apply Nat.ltb_ge in E.
      destruct (IH b) as [[Hr Hle] | (pre & c & m & post & -> & Hr & Hlt & Hpre & Hpost)].
      * left. split; [exact Hr|]. intros e' [<-|H]; auto.
      * right. exists (e :: pre), c, m, post. repeat split; auto.
        intros e' [<-|H]; auto. lia.
Qed.

Lemma best_match_pick (p : str) :
  best_match p = fold_left pick (section_scores p) (general_terms, 0).
Proof. unfold best_match, section_scores. apply best_match_scores. Qed.

Lemma bucket_first_greatest (p : str) :
  first_greatest (section_scores p) (bucket_of p).
Proof.
  unfold first_greatest, bucket_of. rewrite best_match_pick.
  generalize (section_scores p). intros l.
  destruct (pick_first_greatest l (general_terms, 0))
    as [[Hr Hle] | (pre & c & m & post & E & Hr & Hlt & Hpre & Hpost)];
    rewrite Hr; cbn [fst snd] in *.
  - left. split; [|reflexivity].
    intros e He. specialize (Hle e He). lia.
  - right. apply Nat.ltb_lt in Hlt as Hlt'. rewrite Hlt'.
    exists pre, m, post. repeat split; auto.
Qed.

Lemma section_score_names (p : str) :
  map fst (section_scores p) = removelast section_keys.
Proof. reflexivity. Qed.

Lemma bucket_is_key (p : str) : In (bucket_of p) section_keys.
Proof.
  destruct (bucket_first_greatest p) as [[_ ->] | (pre & m & post & E & _)].
  - change section_keys with (removelast section_keys ++ [general_terms]).
    apply in_or_app. right. now left.
  - assert (H : In (bucket_of p) (map fst (section_scores p))).
    { rewrite E, map_app. apply in_or_app. right. now left. }
    rewrite section_score_names in H.
    change section_keys with (removelast section_keys ++ [general_terms]).
    apply in_or_app. now left.
Qed.

Lemma section_step_bucket (d : dict (list str)) (p : str) :
  section_step d p = append_at (bucket_of p) p d.
Proof.
  unfold section_step, bucket_of. now destruct (0 <? snd (best_match p)).
Qed.

Lemma sections_loop (ps : list str) :
  forall d : dict (list str),
    NoDup (keys d) -> (forall p, In p ps -> In (bucket_of p) (keys d)) ->
    for_each section_step ps d =
    Ok (map (fun kv =>
               (fst kv,
                snd kv ++ filter (fun p => str_eqb (bucket_of p) (fst kv)) ps))
            d).
Proof.
  induction ps as [|p ps IH]; intros d Hnd Hin.
  - simpl. f_equal. rewrite <- (map_id d) at 1. apply map_ext.
    intros [k v]. simpl. now rewrite app_nil_r.
  - cbn [for_each]. rewrite section_step_bucket. unfold append_at.
    rewrite extend_at_map; auto; [|apply Hin; now left].
    cbn [bind]. rewrite IH.
    + f_equal. rewrite map_map. apply map_ext. intros [k v]. cbn [fst snd filter].
      rewrite <- app_assoc. f_equal.
      destruct (str_eqb (bucket_of p) k); reflexivity.
    + now rewrite keys_map.
    + intros q Hq. rewrite keys_map. apply Hin. now right.
Qed.

Lemma section_keys_nodup : NoDup section_keys.
Proof. apply distinct_NoDup. vm_compute. reflexivity. Qed.

Lemma sections_general (text : str) :
  exists sections,
    identify_contract_sections text = Ok sections
    /\ keys sections = section_keys
    /\ NoDup (keys sections)
    /\ (forall k, In k section_keys ->
          dict_get k sections =
          Some (filter (fun p => str_eqb (bucket_of p) k) (paragraphs text)))
    /\ (forall p k l, In p (paragraphs text) -> dict_get k sections = Some l ->
          (In p l <-> k = bucket_of p))
    /\ (forall p, In p (paragraphs text) ->
          In (bucket_of p) section_keys
          /\ first_greatest (section_scores p) (bucket_of p)).
Proof.
  unfold identify_contract_sections.
  set (empty := map (fun kv : str * list str => (fst kv, @nil str)) keywords).
  assert (Hkeys : keys empty = section_keys) by reflexivity.
  rewrite sections_loop;
    [| rewrite Hkeys; apply section_keys_nodup
     | intros p _; rewrite Hkeys; apply bucket_is_key ].
  set (grow := fun kv : str * list str =>
                 snd kv ++ filter (fun p => str_eqb (bucket_of p) (fst kv))
                                  (paragraphs text)).
  change (map _ empty) with (map (fun kv => (fst kv, grow kv)) empty).
  eexists. split; [reflexivity|].
  assert (Hget : forall k l,
            dict_get k (map (fun kv => (fst kv, grow kv)) empty) = Some l <->
            In k section_keys /\
            l = filter (fun p => str_eqb (bucket_of p) k) (paragraphs text)).
  { intros k l. rewrite dict_get_map. split.
    - destruct (dict_get k empty) as [v|] eqn:Hv; [|discriminate].
      intros H. injection H as <-. split.
      + rewrite <- Hkeys. eapply dict_get_Some_In; eauto.
      + apply dict_get_const in Hv. subst v. reflexivity.
    - intros [Hk ->]. rewrite <- Hkeys in Hk.
      destruct (dict_get_In k empty Hk) as [v Hv]. rewrite Hv.
      apply dict_get_const in Hv. subst v. reflexivity. }
  split; [rewrite keys_map; exact Hkeys|].
  split; [rewrite keys_map, Hkeys; apply section_keys_nodup|].
  split; [intros k Hk; apply Hget; auto|]. split.
  - intros p k l Hp Hl. apply Hget in Hl as [_ ->].
    rewrite filter_In, str_eqb_eq. intuition congruence.
  - intros p Hp. split; [apply bucket_is_key | apply bucket_first_greatest].
Qed.

(** C3. [identify_contract_sections] returns, for every text, a mapping
    whose keys are the eight buckets; the list of a bucket is made of the
    paragraphs of the split whose bucket it is, in their order, so that
    each paragraph is in one bucket alone; and that bucket is the first
    section, in the order of the table, of the greatest number of
    keywords found in the paragraph, each keyword counted once however
    often it occurs, or [general_terms] when no keyword of any section
    is found.  On the sample of four paragraphs the short one is left
    out, the paragraph of four fees and two words of ending goes to the
    termination clauses, the one that ties payment with dispute
    resolution goes to payment, the first of the two in the table, and
    the one without keywords to the general terms; a text without a
    paragraph of more than 50 characters is split into its sentences of
    more than 100. *)
Theorem sections_partition :
  (forall text,
     exists sections,
       identify_contract_sections text = Ok sections
       /\ keys sections = section_keys
       /\ NoDup (keys sections)
       /\ (forall k, In k section_keys ->
             dict_get k sections =
             Some (filter (fun p => str_eqb (bucket_of p) k) (paragraphs text)))
       /\ (forall p k l, In p (paragraphs text) -> dict_get k sections = Some l ->
             (In p l <-> k = bucket_of p))
       /\ (forall p, In p (paragraphs text) ->
             In (bucket_of p) section_keys
             /\ first_greatest (section_scores p) (bucket_of p)))
  /\ (forall p,
        map snd (section_scores p) =
        map (fun entry =>
               List.length
                 (filter (fun kw => contains kw (lower p)) (snd entry)))
            (removelast keywords))
  /\ paragraphs sample_contract =
     [fees_paragraph; invoice_paragraph; signing_paragraph]
  /\ map snd (section_scores fees_paragraph) = [1; 2; 0; 0; 0; 0; 0]
  /\ map snd (section_scores invoice_paragraph) = [1; 0; 0; 0; 0; 0; 1]
  /\ identify_contract_sections sample_contract =
     Ok [ (lit "payment_terms", [invoice_paragraph]);
          (lit "termination_clauses", [fees_paragraph]);
          (lit "liability_limitations", []);
          (lit "warranty_disclaimers", []);
          (lit "confidentiality", []);
          (lit "intellectual_property", []);
          (lit "dispute_resolution", []);
          (lit "general_terms", [signing_paragraph]) ]
  /\ paragraphs unbroken_text = [unbroken_sentence]
  /\ (exists sections,
        identify_contract_sections unbroken_text = Ok sections
        /\ dict_get (lit "payment_terms") sections = Some [unbroken_sentence]).
Proof.
  split; [exact sections_general|].
  split; [intros p; unfold section_scores; rewrite map_map; reflexivity|].
  split; [vm_compute; reflexivity|].
  split; [vm_compute; reflexivity|].
  split; [vm_compute; reflexivity|].
  split; [vm_compute; reflexivity|].
  split; [vm_compute; reflexivity|].
  eexists. split; vm_compute; reflexivity.
Qed.

(** The count of the occurrences of keywords does not decide the
    bucket: in [fees_paragraph] the keywords of payment occur four
    times, more often than those of any other section, and the
    paragraph is filed under the termination clauses, of which two
    keywords occur, once each. *)
Lemma sections_partition_counterexample :
  paragraphs fees_paragraph = [fees_paragraph]
  /\ map (fun entry => (fst entry, occurrence_count (snd entry) fees_paragraph))
         keywords =
     [ (lit "payment_terms", 4); (lit "termination_clauses", 2);
       (lit "liability_limitations", 0); (lit "warranty_disclaimers", 0);
       (lit "confidentiality", 0); (lit "intellectual_property", 0);
       (lit "dispute_resolution", 0); (lit "general_terms", 0) ]
  /\ identify_contract_sections fees_paragraph =
     Ok [ (lit "payment_terms", []);
          (lit "termination_clauses", [fees_paragraph]);
          (lit "liability_limitations", []);
          (lit "warranty_disclaimers", []);
          (lit "confidentiality", []);
          (lit "intellectual_property", []);
          (lit "dispute_resolution", []);
          (lit "general_terms", []) ].
Proof. repeat split; vm_compute; reflexivity. Qed.


(** ** [dict.fromkeys] *)

Lemma fromkeys_first_seen (l acc : list str) :
  fold_left (fun acc x => if mem x acc then acc else acc ++ [x]) l acc =
  acc ++ first_seen acc l.
Proof.
  revert acc; induction l as [|x l IH]; intros acc; simpl.
  - now rewrite app_nil_r.
  - destruct (mem x acc); rewrite IH; [reflexivity|].
    now rewrite <- app_assoc.
Qed.

Lemma first_seen_In (l seen : list str) (y : str) :
  In y (first_seen seen l) <-> In y l /\ ~ In y seen.
Proof.
  revert seen; induction l as [|x l IH]; intros seen; simpl; [tauto|].
  destruct (mem x seen) eqn:E.
  - apply mem_In in E. rewrite IH. intuition congruence.
  - assert (Hx : ~ In x seen) by (rewrite <- mem_In; congruence).
    simpl. rewrite IH, in_app_iff. simpl.
    destruct (list_eq_dec ascii_dec x y); intuition congruence.
Qed.

Lemma first_seen_NoDup (l seen : list str) : NoDup (first_seen seen l).
Proof.
  revert seen; induction l as [|x l IH]; intros seen; simpl; [constructor|].
  destruct (mem x seen); [apply IH|].
  constructor; [|apply IH].
  rewrite first_seen_In, in_app_iff. simpl. tauto.
Qed.

Lemma first_seen_ext (l s1 s2 : list str) :
  (forall z, In z s1 <-> In z s2) -> first_seen s1 l = first_seen s2 l.
Proof.
  revert s1 s2; induction l as [|x l IH]; intros s1 s2 H; simpl; [reflexivity|].
  assert (E : mem x s1 = mem x s2).
  { destruct (mem x s1) eqn:E1, (mem x s2) eqn:E2; auto.
    - apply mem_In, H, mem_In in E1. congruence.
    - apply mem_In, H, mem_In in E2. congruence. }
  rewrite E. destruct (mem x s2); [now apply IH|].
  f_equal. apply IH. intros z. rewrite !in_app_iff, H. tauto.
Qed.

Lemma first_seen_more (l seen : list str) (x : str) :
  first_seen (seen ++ [x]) l =
  filter (fun y => negb (str_eqb y x)) (first_seen seen l).
Proof.
  revert seen; induction l as [|y l IH]; intros seen; simpl; [reflexivity|].
  destruct (mem y seen) eqn:E.
  - assert (E' : mem y (seen ++ [x]) = true).
    { apply mem_In, in_or_app. left. now apply mem_In. }
    rewrite E'. apply IH.
  - simpl. destruct (str_eqb y x) eqn:Eyx; simpl.
    + apply str_eqb_eq in Eyx. subst y.
      assert (E' : mem x (seen ++ [x]) = true).
      { apply mem_In, in_or_app. right. now left. }
      rewrite E'. symmetry. apply forallb_filter_id, forallb_forall.
      intros z Hz. apply first_seen_In in Hz as [_ Hz].
      apply negb_true_iff, str_eqb_neq. intros ->. apply Hz.
      apply in_or_app. right. now left.
    + assert (E' : mem y (seen ++ [x]) = false).
      { destruct (mem y (seen ++ [x])) eqn:M; [|reflexivity].
        apply mem_In, in_app_or in M as [M|[M|[]]].
        - apply mem_In in M. congruence.
        - subst. now rewrite str_eqb_refl in Eyx. }
      rewrite E'. f_equal. rewrite <- IH. apply first_seen_ext.
      intros z. rewrite !in_app_iff. simpl. tauto.
Qed.

Lemma fromkeys_eq (l : list str) : fromkeys l = first_seen [] l.
Proof. unfold fromkeys. now rewrite fromkeys_first_seen. Qed.

Lemma fromkeys_In (l : list str) (y : str) : In y (fromkeys l) <-> In y l.
Proof. rewrite fromkeys_eq, first_seen_In. simpl. tauto. Qed.

Lemma fromkeys_NoDup (l : list str) : NoDup (fromkeys l).
Proof. rewrite fromkeys_eq. apply first_seen_NoDup. Qed.

(** The order: the head stays first, and the rest is de-duplicated as it
    would be alone, less the head. *)
Lemma fromkeys_cons (x : str) (l : list str) :
  fromkeys (x :: l) = x :: filter (fun y => negb (str_eqb y x)) (fromkeys l).
Proof.
  rewrite !fromkeys_eq. simpl. f_equal. apply (first_seen_more l [] x).
Qed.

Lemma In_firstn {A} (n : nat) (l : list A) (x : A) :
  In x (firstn n l) -> In x l.
Proof.
  revert l; induction n as [|n IH]; intros [|y l]; simpl; try tauto.
  intros [H|H]; auto.
Qed.

Lemma NoDup_firstn {A} (n : nat) (l : list A) : NoDup l -> NoDup (firstn n l).
Proof.
  revert l; induction n as [|n IH]; intros [|x l] H; simpl; try constructor.
  - inversion H; subst. intros Hin. apply In_firstn in Hin. contradiction.
  - inversion H; subst. now apply IH.
Qed.

(** ** [extract_precise_obligations] *)

Lemma obligation_step_four (a c p f : list str) (sentence : str) :
  obligation_step (four a c p f) sentence =
  let s := strip sentence in
  let add k := if is_obligation s && in_category k s
               then [clean_obligation s] else [] in
  Ok (four (a ++ add k_all) (c ++ add k_critical)
           (p ++ add k_payment) (f ++ add k_performance)).
Proof.
  unfold obligation_step, is_obligation. cbn zeta.
  destruct (len (strip sentence) <? 20); cbn [negb andb].
  - now rewrite !app_nil_r.
  - destruct (any_in obligation_keywords (lower (strip sentence)));
      cbn [andb]; [|now rewrite !app_nil_r].
    change (in_category k_all (strip sentence)) with true.
    change (in_category k_critical (strip sentence))
      with (any_in critical_keywords (lower (strip sentence))).
    change (in_category k_payment (strip sentence))
      with (any_in payment_keywords (lower (strip sentence))).
    change (in_category k_performance (strip sentence))
      with (any_in performance_keywords (lower (strip sentence))).
    destruct (any_in critical_keywords _), (any_in payment_keywords _),
      (any_in performance_keywords _); rewrite ?app_nil_r; reflexivity.
Qed.

Lemma obligations_loop (sentences : list str) :
  forall a c p f,
    for_each obligation_step sentences (four a c p f) =
    let got k :=
      map clean_obligation
        (filter (in_category k) (filter is_obligation (map strip sentences))) in
    Ok (four (a ++ got k_all) (c ++ got k_critical)
             (p ++ got k_payment) (f ++ got k_performance)).
Proof.
  induction sentences as [|s l IH]; intros a c p f; cbn zeta.
  - cbn. now rewrite !app_nil_r.
  - cbn [for_each]. rewrite obligation_step_four. cbn zeta. cbn [bind].
    rewrite IH. cbn zeta. cbn [map filter].
    destruct (is_obligation (strip s)); cbn [andb filter].
    + destruct (in_category k_all (strip s)), (in_category k_critical (strip s)),
        (in_category k_payment (strip s)), (in_category k_performance (strip s));
        cbn [map]; rewrite <- ?app_assoc, ?app_nil_r; reflexivity.
    + now rewrite !app_nil_r.
Qed.

Lemma clean_obligation_cases (sentence : str) :
  (len sentence <= 300 /\ clean_obligation sentence = sentence)
  \/ (300 < len sentence
      /\ clean_obligation sentence = firstn 300 sentence ++ lit "..."
      /\ len (firstn 300 sentence) = 300).
Proof.
  unfold clean_obligation, clip. destruct (300 <? len sentence) eqn:E.
  - apply Nat.ltb_lt in E. right. repeat split; auto.
    unfold len in *. rewrite length_firstn. lia.
  - apply Nat.ltb_ge in E. now left.
Qed.

Lemma clean_obligation_length (sentence : str) :
  len (clean_obligation sentence) <= 303.
Proof.
  destruct (clean_obligation_cases sentence) as [[H ->] | (H & -> & H')].
  - lia.
  - unfold len in *. rewrite length_app, H'. simpl. lia.
Qed.

Lemma obligations_general (text : str) :
  exists obligations,
    extract_precise_obligations text = Ok obligations
    /\ keys obligations = obligation_keys
    /\ (forall k, In k obligation_keys ->
        exists l,
          dict_get k obligations = Some l
          /\ l <> [] /\ List.length l <= 10 /\ NoDup l
          /\ (collected k text = [] -> l = [no_obligations])
          /\ (collected k text <> [] ->
              l = firstn 10 (fromkeys (collected k text)))
          /\ (forall e, In e l ->
                e = no_obligations
                \/ exists sentence,
                     In sentence (obligation_sentences text)
                     /\ in_category k sentence = true
                     /\ e = clean_obligation sentence))
    /\ (forall l, NoDup (fromkeys l) /\ forall x, In x (fromkeys l) <-> In x l)
    /\ (forall x l,
          fromkeys (x :: l) =
          x :: filter (fun y => negb (str_eqb y x)) (fromkeys l))
    /\ (forall sentence,
          (len sentence <= 300 /\ clean_obligation sentence = sentence)
          \/ (300 < len sentence
              /\ clean_obligation sentence = firstn 300 sentence ++ lit "..."
              /\ len (firstn 300 sentence) = 300)).
Proof.
  unfold extract_precise_obligations.
  change (map (fun k => (k, @nil str)) obligation_keys) with (four [] [] [] []).
  rewrite obligations_loop. cbn zeta. cbn [bind app].
  fold (obligation_sentences text).
  change (fun k => map clean_obligation
                     (filter (in_category k) (obligation_sentences text)))
    with (fun k => collected k text).
  eexists. split; [reflexivity|]. split; [reflexivity|].
  split; [|split; [|split]].
  - intros k Hk.
    assert (Hin : forall e, In e (collected k text) ->
              exists sentence,
                In sentence (obligation_sentences text)
                /\ in_category k sentence = true
                /\ e = clean_obligation sentence).
    { intros e He. unfold collected in He.
      apply in_map_iff in He as (s & <- & Hs).
      apply filter_In in Hs as [Hs1 Hs2]. eauto. }
    assert (Hget : dict_get k
              (finish_obligations
                 (four (collected k_all text) (collected k_critical text)
                       (collected k_payment text) (collected k_performance text)))
              = Some match collected k text with
                     | [] => [no_obligations]
                     | x :: r => firstn 10 (fromkeys (x :: r))
                     end).
    { destruct Hk as [<-|[<-|[<-|[<-|[]]]]]; reflexivity. }
    eexists. split; [exact Hget|].
    destruct (collected k text) as [|x raw].
    + split; [discriminate|]. split; [simpl; lia|].
      split; [repeat constructor; intros []|].
      split; [reflexivity|]. split; [congruence|].
      intros e [<-|[]]. now left.
    + split; [rewrite fromkeys_cons; discriminate|].
      split; [apply firstn_le_length|].
      split; [apply NoDup_firstn, fromkeys_NoDup|].
      split; [discriminate|]. split; [reflexivity|].
      intros e He. right. apply In_firstn in He.
      apply Hin. exact (proj1 (fromkeys_In _ _) He).
  - intros l. split; [apply fromkeys_NoDup | intros x; apply fromkeys_In].
  - apply fromkeys_cons.
  - apply clean_obligation_cases.
Qed.

(** C6. For every text, [extract_precise_obligations] returns the four
    lists (all, critical, payment, performance), and each of them is not
    empty, holds no string twice and has ten entries at most: it is the
    one placeholder when the loop found no sentence for it, and else the
    first ten of the excerpts found, de-duplicated in their order of
    insertion.  An excerpt is the sentence when that is 300 characters
    long at most, and else its first 300 characters with "..." after
    them, so that every entry is 303 characters long at most; a sentence
    of 301 characters gives an excerpt of 303. *)
Theorem obligation_lists :
  (forall text,
     exists obligations,
       extract_precise_obligations text = Ok obligations
       /\ keys obligations = obligation_keys
       /\ (forall k, In k obligation_keys ->
           exists l,
             dict_get k obligations = Some l
             /\ l <> [] /\ List.length l <= 10 /\ NoDup l
             /\ (collected k text = [] -> l = [no_obligations])
             /\ (collected k text <> [] ->
                 l = firstn 10 (fromkeys (collected k text)))
             /\ (forall e, In e l ->
                   e = no_obligations
                   \/ exists sentence,
                        In sentence (obligation_sentences text)
                        /\ in_category k sentence = true
                        /\ e = clean_obligation sentence)
             /\ (forall e, In e l -> len e <= 303))
       /\ (forall l, NoDup (fromkeys l) /\ forall x, In x (fromkeys l) <-> In x l)
       /\ (forall x l,
             fromkeys (x :: l) =
             x :: filter (fun y => negb (str_eqb y x)) (fromkeys l))
       /\ (forall sentence,
             (len sentence <= 300 /\ clean_obligation sentence = sentence)
             \/ (300 < len sentence
                 /\ clean_obligation sentence = firstn 300 sentence ++ lit "..."
                 /\ len (firstn 300 sentence) = 300)))
  /\ extract_precise_obligations two_obligations =
     Ok (four [lit "The tenant shall pay the rent";
               lit "The landlord must deliver the keys to the tenant"]
              [lit "The landlord must deliver the keys to the tenant"]
              [lit "The tenant shall pay the rent"]
              [lit "The landlord must deliver the keys to the tenant"])
  /\ len long_sentence = 301
  /\ len (firstn 300 long_sentence ++ lit "...") = 303
  /\ extract_precise_obligations (long_sentence ++ lit ".") =
     Ok (four [firstn 300 long_sentence ++ lit "..."]
              [no_obligations]
              [firstn 300 long_sentence ++ lit "..."]
              [no_obligations]).
Proof.
  split.
  - intros text.
    destruct (obligations_general text)
      as (obligations & H1 & H2 & H3 & H4 & H5 & H6).
    exists obligations. split; [exact H1|]. split; [exact H2|].
    split; [|split; [exact H4 | split; [exact H5 | exact H6]]].
    intros k Hk.
    destruct (H3 k Hk) as (l & G1 & G2 & G3 & G4 & G5 & G6 & G7).
    exists l. repeat (split; [assumption|]).
    intros e He. destruct (G7 e He) as [-> | (sentence & _ & _ & ->)].
    + vm_compute. lia.
    + apply clean_obligation_length.
  - repeat split; vm_compute; reflexivity.
Qed.

(** An excerpt of more than 300 characters: the sentence of 301
    characters is cut to 300 and the three points are added. *)
Lemma obligation_lists_counterexample :
  exists obligations e,
    extract_precise_obligations (long_sentence ++ lit ".") = Ok obligations
    /\ dict_get k_all obligations = Some [e]
    /\ len e = 303
    /\ 300 < len e.
Proof.
  exists (four [firstn 300 long_sentence ++ lit "..."]
               [no_obligations]
               [firstn 300 long_sentence ++ lit "..."]
               [no_obligations]),
         (firstn 300 long_sentence ++ lit "...").
  split; [vm_compute; reflexivity|]. split; [reflexivity|].
  split; [vm_compute; reflexivity | vm_compute; lia].
Qed.


(** ** Substrings *)

Lemma starts_with_spec (p s : str) :
  starts_with p s = true <-> exists b, s = p ++ b.
Proof.
  revert s; induction p as [|a p IH]; intros s; simpl.
  - split; eauto.
  - destruct s as [|c s].
    + split; [discriminate | intros [b H]; discriminate].
    + rewrite andb_true_iff, Ascii.eqb_eq, IH. split.
      * intros [-> [b ->]]. eauto.
      * intros [b H]. injection H as -> ->. eauto.
Qed.

Lemma contains_spec (p s : str) :
  contains p s = true <-> exists a b, s = a ++ p ++ b.
Proof.
  induction s as [|c s IH].
  - simpl. rewrite orb_false_r, starts_with_spec. split.
    + intros [b H]. exists [], b. exact H.
    + intros (a & b & H). destruct a; [eauto|discriminate].
  - cbn [contains]. rewrite orb_true_iff, starts_with_spec, IH. split.
    + intros [[b H] | (a & b & H)].
      * exists [], b. exact H.
      * exists (c :: a), b. simpl. now rewrite H.
    + intros (a & b & H). destruct a as [|x a].
      * left. eauto.
      * right. injection H as -> ->. eauto.
Qed.

Lemma contains_app_r (p a s : str) :
  contains p s = true -> contains p (a ++ s) = true.
Proof.
  rewrite !contains_spec. intros (x & y & ->).
  exists (a ++ x), y. now rewrite app_assoc.
Qed.

Lemma contains_trans (p q s : str) :
  contains p q = true -> contains q s = true -> contains p s = true.
Proof.
  rewrite !contains_spec. intros (a & b & ->) (c & d & ->).
  exists (c ++ a), (b ++ d). now rewrite <- !app_assoc.
Qed.

Lemma contains_join (sep x : str) (l : list str) :
  In x l -> contains x (join sep l) = true.
Proof.
  intros H. apply contains_spec.
  induction l as [|y l IH]; [contradiction|].
  destruct H as [<-|H].
  - destruct l as [|z l].
    + exists [], []. simpl. now rewrite app_nil_r.
    + exists [], (sep ++ join sep (z :: l)). reflexivity.
  - destruct (IH H) as (a & b & E). destruct l as [|z l]; [contradiction|].
    exists (y ++ sep ++ a), b.
    change (join sep (y :: z :: l)) with (y ++ sep ++ join sep (z :: l)).
    rewrite E. now rewrite <- !app_assoc.
Qed.

Lemma contains_lstrip (c : ascii) (p s : str) :
  is_space c = false ->
  contains (c :: p) s = true -> contains (c :: p) (lstrip s) = true.
Proof.
  intros Hc. induction s as [|x s IH]; intros H; [exact H|].
  cbn [lstrip]. destruct (is_space x) eqn:Ex; [|exact H].
  apply IH. cbn [contains starts_with] in H.
  destruct (Ascii.eqb c x) eqn:E; [|exact H].
  apply Ascii.eqb_eq in E. congruence.
Qed.

Lemma contains_rev (p s : str) :
  contains p s = true -> contains (rev p) (rev s) = true.
Proof.
  rewrite !contains_spec. intros (a & b & ->).
  exists (rev b), (rev a). now rewrite !rev_app_distr, app_assoc.
Qed.

(** A phrase that neither begins nor ends with a space survives
    [strip]. *)
Lemma contains_strip (p s : str) (c d : ascii) (q : str) :
  p = c :: q -> rev p = d :: rev (removelast p) ->
  is_space c = false -> is_space d = false ->
  contains p s = true -> contains p (strip s) = true.
Proof.
  intros Ep Er Hc Hd H. unfold strip, rstrip.
  rewrite <- (rev_involutive p). apply contains_rev.
  rewrite Er. apply contains_lstrip; [exact Hd|]. rewrite <- Er.
  apply contains_rev. rewrite Ep. apply contains_lstrip; [exact Hc|].
  now rewrite <- Ep.
Qed.

(** ** [_extract_relevant_clauses] *)

Lemma clause_loop (question : str) (sentences : list str) :
  forall acc,
    fold_left (clause_step question) sentences acc =
    acc ++ map (fun s => clip 250 (strip s))
               (filter (kept_clause question) sentences).
Proof.
  induction sentences as [|s l IH]; intros acc; cbn [fold_left filter].
  - now rewrite app_nil_r.
  - rewrite IH. unfold clause_step, kept_clause.
    destruct (len (strip s) =? 0) eqn:E0;
      [apply Nat.eqb_eq in E0; rewrite E0; reflexivity|].
    destruct (len (strip s) <? 30) eqn:E30; cbn [orb].
    + apply Nat.ltb_lt in E30.
      assert (E : (50 <? len (strip s)) = false) by (apply Nat.ltb_ge; lia).
      now rewrite E.
    + destruct (2 <=? word_overlap question s); rewrite ?andb_false_r;
        [|reflexivity].
      rewrite andb_true_r. destruct (50 <? len (strip s)); [|reflexivity].
      cbn [map]. now rewrite <- app_assoc.
Qed.

(** C5, as amended.  [_extract_relevant_clauses] splits the context into
    sentences and keeps those whose stripped text is longer than 50
    characters and shares two words or more with the question, in lower
    case; each is stripped and, beyond 250 characters, cut to its first
    250 with "..." after them; the first five are returned. *)
Theorem relevant_clauses_kept (context question : str) :
  _extract_relevant_clauses context question =
    firstn 5 (map (fun s => clip 250 (strip s))
                  (filter (kept_clause question) (split_punct context)))
  /\ List.length (_extract_relevant_clauses context question) <= 5
  /\ (forall s, kept_clause question s =
                (50 <? len (strip s)) && (2 <=? word_overlap question s))
  /\ (forall c, clip 250 c = if 250 <? len c then firstn 250 c ++ lit "..." else c).
Proof.
  unfold _extract_relevant_clauses. rewrite clause_loop. cbn [app].
  split; [reflexivity|]. split; [apply firstn_le_length|].
  split; reflexivity.
Qed.

(** C5, as stated, fails: a sentence of 44 characters that shares three
    words with the question is longer than 30 characters and is not
    kept. *)
Lemma relevant_clauses_counterexample :
  let context := lit "The payment schedule is set out in annex two." in
  let question := lit "What is the payment schedule?" in
  let sentence := lit "The payment schedule is set out in annex two" in
  In sentence (split_punct context)
  /\ len (strip sentence) = 44
  /\ word_overlap question sentence = 3
  /\ _extract_relevant_clauses context question = [].
Proof.
  vm_compute. repeat split. now left.
Qed.

(** ** The fallback chain *)

Lemma payment_branch (context : str) :
  keyword_answer payment_question context =
  topic_answer
    (lit "Based on the contract, here are the payment-related terms:")
    (lit "No specific payment terms found in this contract.")
    (map strip (payment_lines context)).
Proof. reflexivity. Qed.

Lemma due_monthly_strip (line : str) :
  contains due_monthly line = true -> contains due_monthly (strip line) = true.
Proof.
  apply (contains_strip due_monthly line "$"%char "y"%char
           (lit "500 due monthly")); reflexivity.
Qed.

(** C4, as amended.  [ask_openai_question] hands back the answer of
    the keyword engine when there is no client and when the call of the
    client raises; that answer has confidence 0.7 and the four canned
    follow-up questions.  Without a client, the question about the
    payment schedule is answered with every line of the context that is
    among its first three lines holding a payment word: a line with
    "$500 due monthly" that is one of these three is in the answer,
    stripped. *)
Theorem fallback_answer :
  (forall question context lg,
     ask_openai_question None question context lg =
     (ask_keyword_question question context, lg))
  /\ (forall generate question context lg e,
        generate (slice 0 2000 context) question = Raise e ->
        fst (ask_openai_question (Some generate) question context lg) =
        ask_keyword_question question context)
  /\ (forall question context,
        vget (lit "confidence") (ask_keyword_question question context)
          = Some (VFloat 0.7%float)
        /\ vget (lit "follow_up_suggestions") (ask_keyword_question question context)
          = Some (VStrs (lits [
               "What are the payment terms?";
               "How can this contract be terminated?";
               "What are the main obligations?";
               "What are the liability provisions?" ]%string)))
  /\ (forall context lg line,
        In line (firstn 3 (payment_lines context)) ->
        contains due_monthly line = true ->
        exists answer,
          vget (lit "answer")
               (fst (ask_openai_question None payment_question context lg))
            = Some (VStr answer)
          /\ contains (strip line) answer = true
          /\ contains due_monthly answer = true).
Proof.
  split; [reflexivity|]. split.
  { intros generate question context lg e H. cbn [ask_openai_question].
    now rewrite H. }
  split; [intros; split; reflexivity|].
  intros context lg line Hin Hdue.
  exists (keyword_answer payment_question context). split; [reflexivity|].
  assert (Hans : contains (strip line)
                   (keyword_answer payment_question context) = true).
  { rewrite payment_branch. unfold topic_answer.
    assert (Hs : In (strip line) (firstn 3 (map strip (payment_lines context)))).
    { rewrite firstn_map. now apply in_map. }
    destruct (map strip (payment_lines context)) as [|x l] eqn:E.
    - rewrite firstn_nil in Hs. contradiction.
    - rewrite <- E in *. rewrite app_assoc.
      apply contains_app_r, contains_join, Hs. }
  split; [exact Hans|].
  eapply contains_trans; [|exact Hans]. now apply due_monthly_strip.
Qed.

Lemma fallback_answer_witness :
  let context :=
    join [nl] (lits ["Lease of flat 2"; "  Rent: $500 due monthly  ";
                     "Term: one year"]%string) in
  exists answer,
    vget (lit "answer")
         (fst (ask_openai_question None payment_question context []))
      = Some (VStr answer)
    /\ contains (lit "Rent: $500 due monthly") answer = true
    /\ contains due_monthly answer = true.
Proof.
  intros context.
  apply (proj2 (proj2 (proj2 fallback_answer)) context []
           (lit "  Rent: $500 due monthly  ")).
  - vm_compute. now left.
  - vm_compute. reflexivity.
Defined.

(** C4, as stated, fails: the answer holds three lines at most, so a
    line with "$500 due monthly" that comes after three other lines
    holding a payment word is not in it. *)
Lemma fallback_answer_counterexample :
  let context :=
    join [nl] (lits ["Fee: one"; "Fee: two"; "Fee: three";
                     "Rent: $500 due monthly"]%string) in
  let line := lit "Rent: $500 due monthly" in
  In line (split_on nl context)
  /\ contains due_monthly line = true
  /\ exists answer,
       vget (lit "answer")
            (fst (ask_openai_question None payment_question context []))
         = Some (VStr answer)
       /\ answer = lit "Based on the contract, here are the payment-related terms:"
                   ++ nlnl ++ join nlnl (lits ["Fee: one"; "Fee: two"; "Fee: three"]%string)
       /\ contains line answer = false
       /\ contains due_monthly answer = false.
Proof.
  cbv zeta. split; [vm_compute; tauto|]. split; [vm_compute; reflexivity|].
  eexists. split; [reflexivity|]. vm_compute. repeat split.
Qed.

(** ** [extract_legal_terms_from_text] *)

Lemma append_loop {A B} (c : A -> bool) (g : A -> B) (l : list A) :
  forall acc,
    fold_left (fun found x => if c x then found ++ [g x] else found) l acc =
    acc ++ map g (filter c l).
Proof.
  induction l as [|x l IH]; intros acc; cbn [fold_left filter].
  - now rewrite app_nil_r.
  - rewrite IH. destruct (c x); [|reflexivity].
    cbn [map]. now rewrite <- app_assoc.
Qed.

Lemma found_terms_loop (text : str) :
  found_terms text =
  fold_left
    (fun found td =>
       if contains (lower (fst td)) (lower text)
       then found ++ [key_term (title (fst td)) (snd td)
                        (_extract_context_around_phrase text (fst td) 80)]
       else found)
    legal_term_definitions [].
Proof. reflexivity. Qed.

Lemma found_terms_filter (text : str) :
  found_terms text =
  map (fun td => key_term (title (fst td)) (snd td)
                   (_extract_context_around_phrase text (fst td) 80))
      (filter (fun td => contains (lower (fst td)) (lower text))
              legal_term_definitions).
Proof.
  rewrite found_terms_loop.
  rewrite (append_loop
             (fun td => contains (lower (fst td)) (lower text))
             (fun td => key_term (title (fst td)) (snd td)
                          (_extract_context_around_phrase text (fst td) 80))).
  apply app_nil_l.
Qed.

Lemma filter_none {A} (c : A -> bool) (l : list A) :
  forallb (fun x => negb (c x)) l = true -> filter c l = [].
Proof.
  induction l as [|x l IH]; simpl; [reflexivity|].
  intros H. apply andb_prop in H as [H1 H2].
  rewrite negb_true_iff in H1. rewrite H1. now apply IH.
Qed.

(** C7. On a text in which no glossary term occurs,
    [extract_legal_terms_from_text] returns the three default terms,
    Agreement, Party and Terms, with their definitions and contexts; on
    every text it returns 15 terms at most, and never an empty list. *)
Theorem legal_terms_defaults :
  (forall text, no_glossary_term text = true ->
     extract_legal_terms_from_text text = [
       key_term (lit "Agreement")
                (lit "A mutual understanding between parties")
                (lit "This agreement establishes terms and conditions");
       key_term (lit "Party")
                (lit "An individual or entity entering into a contract")
                (lit "Each party has rights and obligations");
       key_term (lit "Terms")
                (lit "Conditions and provisions of a contract")
                (lit "The terms of this contract are binding") ])
  /\ (forall text, List.length (extract_legal_terms_from_text text) <= 15)
  /\ (forall text, extract_legal_terms_from_text text <> []).
Proof.
  split; [|split].
  - intros text H. unfold extract_legal_terms_from_text.
    rewrite found_terms_filter, (filter_none _ _ H). reflexivity.
  - intros text. apply firstn_le_length.
  - intros text. unfold extract_legal_terms_from_text.
    destruct (found_terms text); discriminate.
Qed.

Lemma legal_terms_defaults_witness :
  let text := lit "Hello world, this text has nothing legal in it." in
  no_glossary_term text = true
  /\ map (dict_get (lit "term")) (extract_legal_terms_from_text text) =
     [Some (lit "Agreement"); Some (lit "Party"); Some (lit "Terms")].
Proof.
  intros text.
  assert (H : no_glossary_term text = true) by (vm_compute; reflexivity).
  split; [exact H|].
  rewrite (proj1 legal_terms_defaults text H). reflexivity.
Defined.

(** ** [assess_contract_risks] *)

(** C2. The level of [assess_contract_risks] is decided on the raw
    score, the score when the loops end: HIGH from 8, MEDIUM from 4 to
    7, LOW from 0 to 3, VERY LOW below 0; the [risk_score] of the result
    is the raw score, or 0 when that is negative.  Texts of raw score 8,
    7, 0 and -1 show the four levels at their bounds. *)
Theorem risk_level_on_raw_score :
  (forall text,
     let raw := risk_score (risk_scan text) in
     let result := risk_to_value (assess_contract_risks text) in
     vget (lit "risk_score") result = Some (VInt (Z.max 0 raw))
     /\ ((8 <= raw)%Z -> vget (lit "risk_level") result = Some (VStr (lit "HIGH")))
     /\ ((4 <= raw < 8)%Z -> vget (lit "risk_level") result = Some (VStr (lit "MEDIUM")))
     /\ ((0 <= raw < 4)%Z -> vget (lit "risk_level") result = Some (VStr (lit "LOW")))
     /\ ((raw < 0)%Z -> vget (lit "risk_level") result = Some (VStr (lit "VERY LOW"))))
  /\ (let text := lit "Criminal liability, unlimited liability, employment at will." in
      risk_score (risk_scan text) = 8%Z
      /\ risk_level (assess_contract_risks text) = lit "HIGH"
      /\ reported_score (assess_contract_risks text) = 8%Z)
  /\ (let text := lit "Criminal liability and unlimited liability." in
      risk_score (risk_scan text) = 7%Z
      /\ risk_level (assess_contract_risks text) = lit "MEDIUM"
      /\ reported_score (assess_contract_risks text) = 7%Z)
  /\ (let text := lit "The tenant pays the rent." in
      risk_score (risk_scan text) = 0%Z
      /\ risk_level (assess_contract_risks text) = lit "LOW"
      /\ reported_score (assess_contract_risks text) = 0%Z)
  /\ (let text := lit "A mutual agreement." in
      risk_score (risk_scan text) = (-1)%Z
      /\ risk_level (assess_contract_risks text) = lit "VERY LOW"
      /\ reported_score (assess_contract_risks text) = 0%Z).
Proof.
  split.
  - intros text raw result. subst result.
    change (vget (lit "risk_score") (risk_to_value (assess_contract_risks text)))
      with (Some (VInt (Z.max 0 raw))).
    change (vget (lit "risk_level") (risk_to_value (assess_contract_risks text)))
      with (Some (VStr (overall_risk raw))).
    split; [reflexivity|]. unfold overall_risk.
    repeat split; intros H.
    + destruct (Z.leb_spec 8 raw); [reflexivity | lia].
    + destruct (Z.leb_spec 8 raw); [lia|].
      destruct (Z.leb_spec 4 raw); [reflexivity | lia].
    + destruct (Z.leb_spec 8 raw); [lia|].
      destruct (Z.leb_spec 4 raw); [lia|].
      destruct (Z.leb_spec 0 raw); [reflexivity | lia].
    + destruct (Z.leb_spec 8 raw); [lia|].
      destruct (Z.leb_spec 4 raw); [lia|].
      destruct (Z.leb_spec 0 raw); [lia | reflexivity].
  - repeat split; vm_compute; reflexivity.
Qed.

(** ** [process_contract] *)

Section Orchestrator.

Variable re_findall : str -> str -> list str.
Variable re_search : str -> str -> option str.
Variable set_to_list : list str -> list str.

Lemma success_response_shape
  (executive_summary contract_type main_subject : str) (risk : risk_assessment)
  (all_obligations amounts : list str) (financial_terms : dict (list str))
  (timeline key_terms : list (dict str))
  (obligations sections entities : dict (list str)) (simplified_text : str) :
  success_result
    (success_response executive_summary contract_type main_subject risk
       all_obligations amounts financial_terms timeline key_terms
       obligations sections entities simplified_text).
Proof.
  split; [reflexivity|]. split.
  - eexists. split; [reflexivity|].
    intros k [<-|[<-|[<-|[<-|[<-|[<-|[]]]]]]]; eexists; reflexivity.
  - intros k [<-|[<-|[<-|[<-|[<-|[<-|[]]]]]]]; eexists; reflexivity.
Qed.

Lemma body_success (text : str) (response : value) :
  process_contract_body re_findall re_search set_to_list text = Ok response ->
  success_result response.
Proof.
  unfold process_contract_body.
  destruct (identify_contract_sections text) as [sections|]; [|discriminate].
  cbn [bind].
  destruct (extract_financial_terms re_findall text) as [financial|];
    [|discriminate].
  cbn [bind].
  destruct (extract_precise_obligations text) as [obligations|]; [|discriminate].
  cbn [bind].
  destruct (getitem k_all obligations) as [all_obligations|]; [|discriminate].
  cbn [bind].
  destruct (getitem (lit "amounts") financial) as [amounts|]; [|discriminate].
  cbn [bind]. intros H.
  assert (E : forall a b : value, Ok a = Ok b -> a = b)
    by (intros a b Hab; now injection Hab).
  rewrite <- (E _ _ H). apply success_response_shape.
Qed.

(** C1. For every text, [process_contract] returns a result: one of
    status "success" that holds the summary, with its six fields, and
    the six other fields, or one of status "failed" with an error
    string; an exception of the body is caught and reported in the
    second form. *)
Theorem process_contract_total (text : str) (lg : log) :
  exists result lg',
    process_contract re_findall re_search set_to_list text lg = (result, lg')
    /\ (success_result result \/ failure_result result)
    /\ (forall e,
          process_contract_body re_findall re_search set_to_list text = Raise e ->
          failure_result result).
Proof.
  unfold process_contract.
  destruct (process_contract_body re_findall re_search set_to_list text)
    as [response|e] eqn:E.
  - do 2 eexists. split; [reflexivity|]. split.
    + left. eapply body_success; eauto.
    + discriminate.
  - do 2 eexists. split; [reflexivity|].
    assert (F : failure_result (failed_result e)).
    { split; [reflexivity|]. eexists. reflexivity. }
    split; [now right | intros; exact F].
Qed.


End Orchestrator.

(** ** [extract_financial_terms] *)

Section Financial.

Variable re_findall : str -> str -> list str.

Lemma extend_from_map (key : str) (f : str -> str) (text : str)
  (patterns : list str) :
  forall info : dict (list str),
    NoDup (keys info) -> In key (keys info) ->
    extend_from re_findall key f patterns text info =
    Ok (map (fun kv =>
               (fst kv,
                snd kv ++ (if str_eqb key (fst kv)
                           then gathered re_findall f patterns text else [])))
            info).
Proof.
  unfold extend_from, gathered.
  induction patterns as [|p ps IH]; intros info Hnd Hin.
  - cbn. f_equal. rewrite <- (map_id info) at 1. apply map_ext.
    intros [k v]. cbn. destruct (str_eqb key k); now rewrite app_nil_r.
  - cbn [for_each]. rewrite extend_at_map by assumption. cbn [bind].
    rewrite IH; [| now rewrite keys_map | now rewrite keys_map].
    f_equal. rewrite map_map. apply map_ext. intros [k v]. cbn [fst snd map List.concat].
    rewrite <- app_assoc. destruct (str_eqb key k); reflexivity.
Qed.

Lemma financial_keys_nodup : NoDup financial_keys.
Proof. apply distinct_NoDup. vm_compute. reflexivity. Qed.

(** The dictionary [extract_financial_terms] ends with, before the
    closing de-duplication. *)
Lemma financial_loops (text : str) :
  extract_financial_terms re_findall text =
  Ok (map (fun kv => (fst kv, firstn 10 (fromkeys (snd kv))))
          (map (fun k => (k, financial_raw re_findall k text)) financial_keys)).
Proof.
  unfold extract_financial_terms.
  set (info0 := map (fun k => (k, @nil str)) financial_keys).
  assert (K0 : keys info0 = financial_keys).
  { unfold keys, info0. rewrite map_map. apply map_id. }
  rewrite extend_from_map;
    [| rewrite K0; apply financial_keys_nodup
     | rewrite K0; vm_compute; tauto ].
  cbn [bind].
  rewrite extend_from_map;
    [| rewrite keys_map, K0; apply financial_keys_nodup
     | rewrite keys_map, K0; vm_compute; tauto ].
  cbn [bind].
  rewrite extend_from_map;
    [| rewrite !keys_map, K0; apply financial_keys_nodup
     | rewrite !keys_map, K0; vm_compute; tauto ].
  cbn [bind].
  rewrite extend_from_map;
    [| rewrite !keys_map, K0; apply financial_keys_nodup
     | rewrite !keys_map, K0; vm_compute; tauto ].
  cbn [bind]. reflexivity.
Qed.

(** X1. [extract_financial_terms] never raises; its result has the six
    keys, each with the first ten of the strings gathered for it,
    de-duplicated in their order; the lists of "penalties" and of
    "currencies" are empty whatever the text. *)
Theorem financial_terms_shape (text : str) :
  exists info,
    extract_financial_terms re_findall text = Ok info
    /\ keys info = financial_keys
    /\ (forall k, In k financial_keys ->
          dict_get k info =
          Some (firstn 10 (fromkeys (financial_raw re_findall k text))))
    /\ dict_get (lit "penalties") info = Some []
    /\ dict_get (lit "currencies") info = Some []
    /\ (forall k l, dict_get k info = Some l ->
          NoDup l /\ List.length l <= 10).
Proof.
  rewrite financial_loops. eexists. split; [reflexivity|].
  set (raw := fun k => (k, financial_raw re_findall k text)).
  assert (Hget : forall k,
            dict_get k (map (fun kv : str * list str =>
                               (fst kv, firstn 10 (fromkeys (snd kv))))
                            (map raw financial_keys)) =
            if mem k financial_keys
            then Some (firstn 10 (fromkeys (financial_raw re_findall k text)))
            else None).
  { intros k.
    rewrite (dict_get_map (fun kv => firstn 10 (fromkeys (snd kv)))).
    generalize financial_keys. intros l.
    induction l as [|k' l IH]; [reflexivity|].
    cbn [map dict_get mem raw fst snd].
    destruct (str_eqb k k') eqn:E; [|exact IH].
    apply str_eqb_eq in E. now subst k'. }
  split.
  { rewrite (keys_map (fun kv => firstn 10 (fromkeys (snd kv)))).
    unfold keys, raw. rewrite map_map. apply map_id. }
  split.
  { intros k Hk. rewrite Hget. apply mem_In in Hk. now rewrite Hk. }
  split; [reflexivity|]. split; [reflexivity|].
  intros k l. rewrite Hget. destruct (mem k financial_keys); [|discriminate].
  remember (firstn 10 (fromkeys (financial_raw re_findall k text))) as r eqn:Er.
  intros H. injection H as <-. subst r. split.
  - apply NoDup_firstn, fromkeys_NoDup.
  - apply firstn_le_length.
Qed.

End Financial.

(** ** [process_contract]: no key is ever missing *)

Lemma sections_ok (text : str) :
  exists sections, identify_contract_sections text = Ok sections.
Proof.
  unfold identify_contract_sections.
  set (empty := map (fun kv : str * list str => (fst kv, @nil str)) keywords).
  assert (Hkeys : keys empty = section_keys) by reflexivity.
  rewrite sections_loop;
    [ eexists; reflexivity
    | rewrite Hkeys; apply section_keys_nodup
    | intros p _; rewrite Hkeys; apply bucket_is_key ].
Qed.

Lemma obligations_result (text : str) :
  extract_precise_obligations text =
  Ok (finish_obligations
        (four (collected k_all text) (collected k_critical text)
              (collected k_payment text) (collected k_performance text))).
Proof.
  unfold extract_precise_obligations.
  change (map (fun k => (k, @nil str)) obligation_keys) with (four [] [] [] []).
  rewrite obligations_loop. reflexivity.
Qed.

Section Success.

Variable re_findall : str -> str -> list str.
Variable re_search : str -> str -> option str.
Variable set_to_list : list str -> list str.

Lemma body_ok (text : str) :
  exists response,
    process_contract_body re_findall re_search set_to_list text = Ok response
    /\ success_result response.
Proof.
  unfold process_contract_body.
  destruct (sections_ok text) as [sections ->]. cbn [bind].
  rewrite financial_loops. cbn [bind].
  rewrite obligations_result. cbn [bind].
  change (getitem k_all
            (finish_obligations
               (four (collected k_all text) (collected k_critical text)
                     (collected k_payment text) (collected k_performance text))))
    with (Ok match collected k_all text with
             | [] => [no_obligations]
             | x :: r => firstn 10 (fromkeys (x :: r))
             end).
  cbn [bind].
  change (getitem (lit "amounts")
            (map (fun kv : str * list str =>
                    (fst kv, firstn 10 (fromkeys (snd kv))))
                 (map (fun k => (k, financial_raw re_findall k text))
                      financial_keys)))
    with (Ok (firstn 10 (fromkeys (financial_raw re_findall (lit "amounts") text)))).
  cbn [bind].
  eexists. split; [reflexivity|]. apply success_response_shape.
Qed.

Lemma process_contract_ok (text : str) (lg : log) :
  exists response,
    process_contract re_findall re_search set_to_list text lg =
    (response,
     lg ++ [(lit "INFO", lit "Processing contract of "
               ++ of_nat (len text) ++ lit " characters")])
    /\ success_result response.
Proof.
  destruct (body_ok text) as (response & E & S).
  exists response. split; [|exact S].
  unfold process_contract. now rewrite E.
Qed.

(** X2. Every key that [process_contract] and the functions it calls
    read from a dictionary is there: the body of the [try] raises no
    [KeyError], the result has status "success" and all its fields, and
    the one record logged is that of the start. *)
Theorem process_contract_succeeds (text : str) (lg : log) :
  exists response,
    process_contract_body re_findall re_search set_to_list text = Ok response
    /\ process_contract re_findall re_search set_to_list text lg =
       (response,
        lg ++ [(lit "INFO", lit "Processing contract of "
                  ++ of_nat (len text) ++ lit " characters")])
    /\ success_result response.
Proof.
  destruct (body_ok text) as (response & E & S).
  exists response. split; [exact E|]. split; [|exact S].
  unfold process_contract. now rewrite E.
Qed.

End Success.

(** ** [_determine_contract_type] *)

Lemma setitem_fresh {A} (k : str) (v : A) (d : dict A) :
  ~ In k (keys d) -> setitem k v d = d ++ [(k, v)].
Proof.
  induction d as [|[k' v'] d IH]; intros H; [reflexivity|].
  cbn [setitem]. destruct (str_eqb k k') eqn:E.
  - apply str_eqb_eq in E. subst. exfalso. apply H. now left.
  - cbn [app]. f_equal. apply IH. intros Hin. apply H. now right.
Qed.

Lemma scores_loop (tl : str) (l : dict (list str)) :
  forall acc : dict nat,
    NoDup (keys acc ++ keys l) ->
    fold_left
      (fun scores ck =>
         let score := keyword_matches (snd ck) tl in
         if 0 <? score then setitem (fst ck) score scores else scores)
      l acc =
    acc ++ filter (fun kv => 0 <? snd kv)
                  (map (fun ck => (fst ck, keyword_matches (snd ck) tl)) l).
Proof.
  induction l as [|[k ws] l IH]; intros acc Hnd; cbn [fold_left map filter].
  - now rewrite app_nil_r.
  - cbn [fst snd]. cbn zeta.
    assert (Hk : ~ In k (keys acc)).
    { intros Hin. cbn [keys map fst] in Hnd.
      apply NoDup_remove_2 in Hnd. apply Hnd, in_or_app. now left. }
    destruct (0 <? keyword_matches ws tl).
    + rewrite setitem_fresh by exact Hk. rewrite IH.
      * now rewrite <- app_assoc.
      * unfold keys in *. rewrite map_app, <- app_assoc. exact Hnd.
    + apply IH. cbn [keys map fst] in Hnd.
      now apply NoDup_remove_1 in Hnd.
Qed.

Lemma filter_split {A} (f : A -> bool) (l : list A) :
  forall pre x post,
    filter f l = pre ++ x :: post ->
    exists pre' post',
      l = pre' ++ x :: post' /\ filter f pre' = pre /\ filter f post' = post.
Proof.
  induction l as [|y l IH]; intros pre x post H.
  - destruct pre; discriminate.
  - cbn [filter] in H. destruct (f y) eqn:E.
    + destruct pre as [|z pre].
      * injection H as -> H. exists [], l. repeat split; auto.
      * injection H as -> H. destruct (IH _ _ _ H) as (pre' & post' & -> & H1 & H2).
        exists (z :: pre'), post'. cbn [filter app]. rewrite E.
        repeat split; auto. now rewrite H1.
    + destruct (IH _ _ _ H) as (pre' & post' & -> & H1 & H2).
      exists (y :: pre'), post'. cbn [filter app]. rewrite E. auto.
Qed.

Lemma max_key_first_greatest (dflt : str) (scores : list (str * nat)) :
  first_greatest_or dflt scores
    (max_key (filter (fun kv => 0 <? snd kv) scores) dflt).
Proof.
  unfold first_greatest_or.
  destruct (filter (fun kv => 0 <? snd kv) scores) as [|kv r] eqn:F.
  - left. split; [|reflexivity]. intros e He.
    destruct (0 <? snd e) eqn:E.
    + assert (Hin : In e (filter (fun kv => 0 <? snd kv) scores))
        by (apply filter_In; auto).
      rewrite F in Hin. contradiction.
    + apply Nat.ltb_ge in E. lia.
  - right. cbn [max_key].
    change (fold_left (fun best kv' => if snd best <? snd kv' then kv' else best) r kv)
      with (fold_left pick r kv).
    assert (Hsplit : exists preF m postF,
              kv :: r = preF ++ (fst (fold_left pick r kv), m) :: postF
              /\ (forall e, In e preF -> snd e < m)
              /\ (forall e, In e postF -> snd e <= m)).
    { destruct (pick_first_greatest r kv)
        as [[Hr Hle] | (pre & c & m & post & -> & Hr & Hlt & Hpre & Hpost)].
      - rewrite Hr. exists [], (snd kv), r. destruct kv as [k n].
        repeat split; auto. intros e [].
      - rewrite Hr. exists (kv :: pre), m, post. repeat split; auto.
        intros e [<-|He]; auto. }
    destruct Hsplit as (preF & m & postF & E & Hpre & Hpost).
    rewrite <- F in E.
    destruct (filter_split _ _ _ _ _ E) as (pre' & post' & -> & F1 & F2).
    assert (Hm : 0 < m).
    { assert (Hin : In (fst (fold_left pick r kv), m)
                       (filter (fun kv => 0 <? snd kv)
                               (pre' ++ (fst (fold_left pick r kv), m) :: post'))).
      { rewrite E. apply in_or_app. right. now left. }
      apply filter_In in Hin as [_ Hin]. now apply Nat.ltb_lt in Hin. }
    exists pre', m, post'. split; [reflexivity|]. split; [exact Hm|].
    split; intros e He; destruct (0 <? snd e) eqn:Ee.
    + apply Hpre. rewrite <- F1. apply filter_In. auto.
    + apply Nat.ltb_ge in Ee. lia.
    + apply Hpost. rewrite <- F2. apply filter_In. auto.
    + apply Nat.ltb_ge in Ee. lia.
Qed.

Lemma contract_types_nodup : NoDup (keys contract_types).
Proof. apply distinct_NoDup. vm_compute. reflexivity. Qed.

Lemma contract_type_scores (text : str) :
  _determine_contract_type text =
  max_key (filter (fun kv => 0 <? snd kv) (type_scores text)) general_agreement.
Proof.
  unfold _determine_contract_type. cbv zeta.
  rewrite scores_loop; [reflexivity|].
  cbn [keys map app]. apply contract_types_nodup.
Qed.

Lemma contract_type_range (text : str) :
  In (_determine_contract_type text) (general_agreement :: keys contract_types).
Proof.
  rewrite contract_type_scores.
  destruct (max_key_first_greatest general_agreement (type_scores text))
    as [[_ ->] | (pre & m & post & E & _)]; [now left | right].
  remember (max_key (filter (fun kv => 0 <? snd kv) (type_scores text))
                    general_agreement) as b eqn:Eb.
  clear Eb.
  assert (H : In b (map fst (type_scores text))).
  { rewrite E, map_app. apply in_or_app. right. now left. }
  unfold type_scores in H. rewrite map_map in H. exact H.
Qed.

Lemma general_agreement_fresh : ~ In general_agreement (keys contract_types).
Proof.
  rewrite <- mem_In. vm_compute. discriminate.
Qed.

Lemma filter_length_zero {A} (f : A -> bool) (l : list A) :
  List.length (filter f l) = 0 <-> forall x, In x l -> f x = false.
Proof.
  induction l as [|y l IH]; cbn [filter].
  - split; [intros _ x [] | reflexivity].
  - destruct (f y) eqn:E; cbn [List.length].
    + split; [discriminate|]. intros H.
      specialize (H y (or_introl eq_refl)). congruence.
    + rewrite IH. split.
      * intros H x [<-|Hx]; auto.
      * intros H x Hx. apply H. now right.
Qed.

Lemma contract_type_general (text : str) :
  first_greatest_or general_agreement (type_scores text)
                    (_determine_contract_type text)
  /\ map fst (type_scores text) = keys contract_types
  /\ (_determine_contract_type text = general_agreement <->
      forall e, In e (type_scores text) -> snd e = 0).
Proof.
  assert (H := max_key_first_greatest general_agreement (type_scores text)).
  rewrite <- contract_type_scores in H.
  assert (K : map fst (type_scores text) = keys contract_types).
  { unfold type_scores. rewrite map_map. reflexivity. }
  split; [exact H|]. split; [exact K|].
  remember (_determine_contract_type text) as b eqn:Eb. clear Eb.
  split.
  - intros E. destruct H as [[Hz _] | (pre & m & post & Hs & _)]; [exact Hz|].
    exfalso. apply general_agreement_fresh. rewrite <- K, <- E, Hs, map_app.
    apply in_or_app. right. now left.
  - intros Hz. destruct H as [[_ E] | (pre & m & post & Hs & Hm & _)]; [exact E|].
    exfalso.
    assert (Hin : In (b, m) (type_scores text)).
    { rewrite Hs. apply in_or_app. right. now left. }
    specialize (Hz _ Hin). cbn in Hz. lia.
Qed.

(** X3. [_determine_contract_type] returns the first archetype, in the
    order of the table, of the greatest number of keywords found in the
    lowered text, and "general agreement" exactly when no keyword of any
    archetype occurs in it.  A text with one keyword of a loan and one of
    a supply is a loan agreement, the first of the two in the table; one
    with one keyword of a purchase and two of a supply is a supply
    agreement, though the purchase comes first. *)
Theorem contract_type_first_greatest :
  (forall text,
     first_greatest_or general_agreement (type_scores text)
                       (_determine_contract_type text)
     /\ map fst (type_scores text) = keys contract_types
     /\ (_determine_contract_type text = general_agreement <->
         forall ck kw, In ck contract_types -> In kw (snd ck) ->
                       contains kw (lower text) = false))
  /\ map snd (type_scores loan_and_supply) = [0; 0; 0; 0; 0; 0; 0; 1; 0; 1]
  /\ _determine_contract_type loan_and_supply = lit "loan agreement"
  /\ map snd (type_scores supply_of_goods) = [0; 0; 0; 1; 0; 0; 0; 0; 0; 2]
  /\ _determine_contract_type supply_of_goods = lit "supply agreement"
  /\ _determine_contract_type (lit "Hello there.") = general_agreement.
Proof.
  split; [|repeat split; vm_compute; reflexivity].
  intros text. destruct (contract_type_general text) as (H1 & H2 & H3).
  split; [exact H1|]. split; [exact H2|]. rewrite H3. split.
  - intros Hz ck kw Hck Hkw.
    assert (Hin : In (fst ck,
                      List.length (filter (fun kw => contains kw (lower text))
                                          (snd ck)))
                     (type_scores text)).
    { unfold type_scores. apply in_map_iff. exists ck. auto. }
    specialize (Hz _ Hin). cbn [snd] in Hz.
    exact (proj1 (filter_length_zero _ _) Hz kw Hkw).
  - intros Hz e He. unfold type_scores in He.
    apply in_map_iff in He as (ck & <- & Hck). cbn [snd].
    apply filter_length_zero. intros kw Hkw. exact (Hz ck kw Hck Hkw).
Qed.


(** ** [_extract_main_subject] *)

Lemma clip_length (n : nat) (s : str) : len (clip n s) <= n + 3.
Proof.
  unfold clip. destruct (n <? len s) eqn:E.
  - unfold len. rewrite length_app, length_firstn. simpl. lia.
  - apply Nat.ltb_ge in E. lia.
Qed.

Lemma type_subject_length (contract_type : str) :
  len (get_default contract_type default_subject type_subjects) <= 40.
Proof.
  unfold get_default, type_subjects, lit_pairs. cbn [map dict_get fst snd].
  repeat (destruct (str_eqb contract_type _); [vm_compute; lia|]).
  vm_compute. lia.
Qed.

Lemma type_subject_default (contract_type : str) :
  In contract_type (general_agreement :: keys contract_types) ->
  (get_default contract_type default_subject type_subjects = default_subject
   <-> contract_type = general_agreement).
Proof.
  intros H.
  cbn [keys contract_types map fst In] in H.
  repeat (destruct H as [<-|H];
          [split; [vm_compute; intros E; first [reflexivity | discriminate E]
                  | intros E; first [vm_compute; reflexivity | discriminate E]]|]).
  contradiction.
Qed.

Section Subject.

Variable re_search : str -> str -> option str.

Lemma first_subject_length (patterns : list str) (text subject : str) :
  first_subject re_search patterns text = Some subject -> len subject <= 103.
Proof.
  induction patterns as [|p ps IH]; cbn [first_subject]; [discriminate|].
  destruct (re_search p text) as [g|]; [|exact IH].
  intros H. injection H as <-. apply (clip_length 100).
Qed.

Lemma first_subject_none (patterns : list str) (text : str) :
  (forall p, In p patterns -> re_search p text = None) ->
  first_subject re_search patterns text = None.
Proof.
  induction patterns as [|p ps IH]; intros H; [reflexivity|].
  cbn [first_subject]. rewrite (H p) by now left.
  apply IH. intros q Hq. apply H. now right.
Qed.

(** X4. The subject [_extract_main_subject] returns is 103 characters
    long at most.  When none of the four patterns matches, the subject
    of the type found by [_determine_contract_type] is the phrase the
    table has for that type, and the phrase "business relationship and
    obligations" exactly when the type is "general agreement": every
    archetype has its own phrase. *)
Theorem main_subject_fallback (text : str) :
  (forall contract_type,
     len (_extract_main_subject re_search text contract_type) <= 103)
  /\ ((forall p, In p subject_patterns -> re_search p text = None) ->
      let contract_type := _determine_contract_type text in
      _extract_main_subject re_search text contract_type =
        get_default contract_type default_subject type_subjects
      /\ (_extract_main_subject re_search text contract_type = default_subject
          <-> contract_type = general_agreement)).
Proof.
  split.
  - intros ct. unfold _extract_main_subject.
    destruct (first_subject re_search subject_patterns text) as [s|] eqn:E.
    + eapply first_subject_length; eauto.
    + pose proof (type_subject_length ct) as H. fold default_subject. lia.
  - intros Hnone ct. unfold _extract_main_subject.
    rewrite (first_subject_none _ _ Hnone). fold default_subject.
    split; [reflexivity|].
    apply type_subject_default, contract_type_range.
Qed.

End Subject.

Lemma main_subject_fallback_witness :
  let text := lit "The tenant pays rent to the landlord." in
  let no_match := fun _ _ : str => @None str in
  _determine_contract_type text = lit "lease agreement"
  /\ _extract_main_subject no_match text (_determine_contract_type text) =
     lit "property rental and occupancy".
Proof.
  intros text no_match. split; [vm_compute; reflexivity|].
  rewrite (proj1 (proj2 (main_subject_fallback no_match text) (fun _ _ => eq_refl))).
  vm_compute. reflexivity.
Defined.

(** ** [assess_contract_risks]: the range of the score *)

Lemma risk_steps_score (text tl : str) (l : list (str * Z)) :
  forall st,
    risk_score (fold_left (risk_step text tl) l st) =
    (risk_score st + sum_points tl l)%Z.
Proof.
  unfold sum_points.
  induction l as [|ip l IH]; intros st; cbn [fold_left map fold_right].
  - lia.
  - rewrite IH.
    assert (H : risk_score (risk_step text tl st ip) =
                (risk_score st + points_of tl ip)%Z).
    { unfold risk_step, points_of.
      destruct (contains (fst ip) tl); cbn [risk_score]; lia. }
    rewrite H. lia.
Qed.

Lemma risk_tiers_score (text tl : str) (tiers : list (str * list (str * Z))) :
  forall st,
    risk_score
      (fold_left (fun st tier => fold_left (risk_step text tl) (snd tier) st)
                 tiers st) =
    (risk_score st + sum_points tl (List.concat (map snd tiers)))%Z.
Proof.
  induction tiers as [|t tiers IH]; intros st; cbn [fold_left map List.concat].
  - unfold sum_points. cbn. lia.
  - rewrite IH, risk_steps_score. unfold sum_points.
    rewrite map_app, fold_right_app.
    generalize (map (points_of tl) (snd t)). intros a.
    generalize (fold_right Z.add 0%Z
                  (map (points_of tl) (List.concat (map snd tiers)))).
    intros z. induction a as [|x a IHa]; cbn [fold_right]; lia.
Qed.

Lemma risk_scan_score (text : str) :
  risk_score (risk_scan text) =
  (sum_points (lower text) indicator_points
   + (if contains (lit "without limitation") (lower text) then 2 else 0)
   + (if contains (lit "at will") (lower text) then 1 else 0)
   + (if (2 <? count_penalty (lower text))%nat then 2 else 0))%Z.
Proof.
  unfold risk_scan. cbv zeta.
  unfold add_penalties, add_at_will, add_without_limitation.
  set (st1 := fold_left _ risk_indicators _).
  assert (E : risk_score st1 = sum_points (lower text) indicator_points).
  { unfold st1. rewrite risk_tiers_score. reflexivity. }
  destruct (contains (lit "without limitation") (lower text)),
    (contains (lit "at will") (lower text)),
    (2 <? count_penalty (lower text)); cbn [risk_score]; lia.
Qed.

Lemma cure_period_forced (s : str) :
  contains (lit "no cure period") s = true ->
  contains (lit "cure period") s = true.
Proof. apply contains_trans. vm_compute. reflexivity. Qed.

Lemma reasonable_forced (s : str) :
  contains (lit "reasonable efforts") s = true ->
  contains (lit "reasonable") s = true.
Proof. apply contains_trans. vm_compute. reflexivity. Qed.

Ltac bound_indicators :=
  repeat match goal with
         | |- context [if ?c then ?p else 0%Z] =>
             let x := fresh "x" in
             let E := fresh "E" in
             remember (if c then p else 0%Z) as x eqn:E;
             assert (Z.min 0 p <= x <= Z.max 0 p)%Z
               by (rewrite E; destruct c; lia);
             clear E
         end.

Lemma sum_points_range (s : str) :
  (-13 <= sum_points s indicator_points <= 41)%Z.
Proof.
  unfold sum_points, indicator_points, risk_indicators, points_of.
  cbn [map snd fst List.concat app fold_right].
  pose proof (cure_period_forced s) as Hc.
  pose proof (reasonable_forced s) as Hr.
  destruct (contains (lit "no cure period") s);
    [rewrite (Hc eq_refl) | destruct (contains (lit "cure period") s)];
    (destruct (contains (lit "reasonable efforts") s);
     [rewrite (Hr eq_refl) | destruct (contains (lit "reasonable") s)]);
    clear Hc Hr; bound_indicators; lia.
Qed.

Lemma firstn_nonempty {A} (n : nat) (x : A) (l : list A) :
  0 < n -> 1 <= List.length (firstn n (x :: l)) <= n.
Proof.
  intros Hn. split; [|apply firstn_le_length].
  destruct n; cbn; lia.
Qed.

(** X5. The raw score of [assess_contract_risks] lies between -13 and
    46 on every text, and both bounds are reached; so the reported
    score lies between 0 and 46.  The result has from one to ten
    reasons and from one to eight entries of detailed analysis. *)
Theorem risk_score_range :
  (forall text,
     (-13 <= risk_score (risk_scan text) <= 46)%Z
     /\ (0 <= reported_score (assess_contract_risks text) <= 46)%Z
     /\ 1 <= List.length (reasons (assess_contract_risks text)) <= 10
     /\ 1 <= List.length (analysis (assess_contract_risks text)) <= 8)
  /\ risk_score (risk_scan riskiest_text) = 46%Z
  /\ risk_score (risk_scan safest_text) = (-13)%Z.
Proof.
  split; [|split; vm_compute; reflexivity].
  intros text.
  assert (R : (-13 <= risk_score (risk_scan text) <= 46)%Z).
  { rewrite risk_scan_score.
    pose proof (sum_points_range (lower text)).
    destruct (contains (lit "without limitation") (lower text)),
      (contains (lit "at will") (lower text)),
      (2 <? count_penalty (lower text)); lia. }
  split; [exact R|]. split; [cbn [assess_contract_risks reported_score]; lia|].
  unfold assess_contract_risks. cbv zeta. cbn [reasons analysis].
  split.
  - destruct (risk_reasons (risk_scan text)); apply firstn_nonempty; lia.
  - destruct (detailed_analysis (risk_scan text)); apply firstn_nonempty; lia.
Qed.

Lemma risk_steps_idle (text tl : str) (l : list (str * Z)) (st : risk_state) :
  forallb (fun ip => negb (contains (fst ip) tl)) l = true ->
  fold_left (risk_step text tl) l st = st.
Proof.
  revert st; induction l as [|ip l IH]; intros st H; [reflexivity|].
  cbn [forallb] in H. apply andb_prop in H as [H1 H2].
  rewrite negb_true_iff in H1.
  cbn [fold_left].
  assert (E : risk_step text tl st ip = st)
    by (unfold risk_step; now rewrite H1).
  rewrite E. now apply IH.
Qed.

Lemma risk_tiers_idle (text tl : str) (tiers : list (str * list (str * Z)))
  (st : risk_state) :
  forallb (fun ip => negb (contains (fst ip) tl))
          (List.concat (map snd tiers)) = true ->
  fold_left (fun st tier => fold_left (risk_step text tl) (snd tier) st)
            tiers st = st.
Proof.
  revert st; induction tiers as [|t tiers IH]; intros st H; [reflexivity|].
  cbn [map List.concat] in H. rewrite forallb_app in H.
  apply andb_prop in H as [H1 H2].
  cbn [fold_left]. rewrite risk_steps_idle by exact H1. now apply IH.
Qed.

(** X6. On a text that holds no indicator phrase, neither "without
    limitation" nor "at will", and two penalty words at most,
    [assess_contract_risks] returns the level LOW with score 0, the one
    standard reason and the one standard entry of analysis. *)
Theorem risk_nothing_found (text : str) :
  no_risk_phrase text = true ->
  assess_contract_risks text =
  {| risk_level := lit "LOW";
     reported_score := 0;
     reasons := [lit "Standard contract terms with typical risk level"];
     analysis := [analysis_entry (lit "general terms")
                    (lit "standard risk level")
                    (lit "No specific high-risk factors identified")] |}.
Proof.
  unfold no_risk_phrase. cbv zeta. intros H.
  apply andb_prop in H as [H Hp]. apply andb_prop in H as [H Hw].
  apply andb_prop in H as [Hi Hl].
  rewrite negb_true_iff in Hl, Hw. apply Nat.leb_le in Hp.
  assert (Hp' : (2 <? count_penalty (lower text)) = false)
    by (apply Nat.ltb_ge; exact Hp).
  unfold assess_contract_risks, risk_scan. cbv zeta.
  rewrite risk_tiers_idle by exact Hi.
  unfold add_penalties, add_at_will, add_without_limitation.
  rewrite Hl, Hw, Hp'. reflexivity.
Qed.

Lemma risk_nothing_found_witness :
  let text := lit "The Tenant pays the rent on the first day of each month." in
  no_risk_phrase text = true
  /\ risk_level (assess_contract_risks text) = lit "LOW"
  /\ reported_score (assess_contract_risks text) = 0%Z.
Proof.
  intros text.
  assert (H : no_risk_phrase text = true) by (vm_compute; reflexivity).
  split; [exact H|]. rewrite (risk_nothing_found text H). split; reflexivity.
Defined.

(** ** [simplify_legal_language]: what stays and what goes *)

(** X7. A text in which no trigger phrase of the table occurs, in any
    mix of cases, is returned unchanged by [simplify_legal_language]. *)
Theorem simplify_without_trigger (text : str) :
  no_trigger text = true -> simplify_legal_language text = text.
Proof.
  unfold no_trigger. rewrite forallb_forall. intros H.
  apply fold_simplify_absent. intros rule Hr.
  apply negb_true_iff, H. now apply rule_trigger.
Qed.

Lemma simplify_without_trigger_witness :
  let text := lit "The Tenant pays the rent on the first day of each month." in
  no_trigger text = true /\ simplify_legal_language text = text.
Proof.
  intros text.
  assert (H : no_trigger text = true) by (vm_compute; reflexivity).
  split; [exact H | exact (simplify_without_trigger text H)].
Defined.

Lemma nonempty_len (q : str) : negb (len q =? 0) = true -> q <> [].
Proof. destruct q; [discriminate | discriminate]. Qed.

Lemma fold_simplify_keeps_absent (q : str) (rules : dict str) :
  forallb (fun r => negb (len (fst r) =? 0)
                    && start_free q (snd r) && end_free q (snd r)) rules = true ->
  forall t, search_ci q t = false ->
            search_ci q (fold_left simplify_step rules t) = false.
Proof.
  induction rules as [|r rules IH]; intros H t Ht; [exact Ht|].
  cbn [forallb] in H. apply andb_prop in H as [Hr H].
  apply andb_prop in Hr as [Hr He]. apply andb_prop in Hr as [Hn Hs].
  cbn [fold_left]. apply IH; [exact H|].
  unfold simplify_step. apply absent_after_sub; auto.
  now apply nonempty_len.
Qed.

Lemma rule_never_left (i : nat) (q rep : str) :
  nth_error simplifications i = Some (q, rep) -> clean_rule i = true ->
  forall text, search_ci q (simplify_legal_language text) = false.
Proof.
  intros Hnth Hc text. unfold clean_rule in Hc. rewrite Hnth in Hc.
  apply andb_prop in Hc as [Hc Hlater]. apply andb_prop in Hc as [Hc He].
  apply andb_prop in Hc as [Hn Hs].
  unfold simplify_legal_language.
  rewrite <- (firstn_skipn i simplifications), fold_left_app.
  assert (Hsk : skipn i simplifications = (q, rep) :: skipn (S i) simplifications).
  { clear - Hnth. revert i Hnth. generalize simplifications. intros l.
    induction l as [|x l IH]; intros [|i] H; try discriminate.
    - cbn in H. injection H as ->. reflexivity.
    - cbn in H. cbn [skipn]. rewrite (IH i H). reflexivity. }
  rewrite Hsk. cbn [fold_left].
  apply fold_simplify_keeps_absent; [exact Hlater|].
  unfold simplify_step. cbn [fst snd].
  apply removed_by_sub; auto. now apply nonempty_len.
Qed.

(** X8. Twelve trigger phrases never occur, in any mix of cases, in the
    output of [simplify_legal_language], whatever the input: "pursuant
    to", "force majeure", "indemnify", "assign", "breach", "cure",
    "default", "waiver", "perpetuity", "forthwith", "shall" and "shall
    not".  They are those of the rules whose pattern can overlap neither
    their own replacement nor a later one. *)
Theorem triggers_never_left (text : str) :
  Forall (fun q => search_ci q (simplify_legal_language text) = false)
         never_left
  /\ never_left =
     map (fun i => fst (nth i simplifications ([], [])))
         (filter clean_rule (seq 0 (List.length simplifications))).
Proof.
  split; [|vm_compute; reflexivity].
  unfold never_left, lits. cbn [map].
  repeat (constructor;
          [ first
              [ apply (rule_never_left 7 _ (lit "according to")); [reflexivity | vm_compute; reflexivity]
              | apply (rule_never_left 9 _ (lit "unforeseeable circumstances")); [reflexivity | vm_compute; reflexivity]
              | apply (rule_never_left 11 _ (lit "protect from loss")); [reflexivity | vm_compute; reflexivity]
              | apply (rule_never_left 14 _ (lit "transfer")); [reflexivity | vm_compute; reflexivity]
              | apply (rule_never_left 15 _ (lit "break the agreement")); [reflexivity | vm_compute; reflexivity]
              | apply (rule_never_left 16 _ (lit "fix the problem")); [reflexivity | vm_compute; reflexivity]
              | apply (rule_never_left 17 _ (lit "fail to meet obligations")); [reflexivity | vm_compute; reflexivity]
              | apply (rule_never_left 19 _ (lit "giving up a right")); [reflexivity | vm_compute; reflexivity]
              | apply (rule_never_left 20 _ (lit "forever")); [reflexivity | vm_compute; reflexivity]
              | apply (rule_never_left 21 _ (lit "immediately")); [reflexivity | vm_compute; reflexivity]
              | apply (rule_never_left 23 _ (lit "must")); [reflexivity | vm_compute; reflexivity]
              | apply (rule_never_left 24 _ (lit "must not")); [reflexivity | vm_compute; reflexivity] ]
          | ]).
  constructor.
Qed.

(** ** [_extract_context_around_phrase] *)

Lemma is_space_lower (c : ascii) : is_space (lower_char c) = is_space c.
Proof.
  destruct c as [[] [] [] [] [] [] [] []]; vm_compute; reflexivity.
Qed.

Lemma lower_lstrip (s : str) : lower (lstrip s) = lstrip (lower s).
Proof.
  induction s as [|c s IH]; [reflexivity|].
  cbn [lower map lstrip]. rewrite is_space_lower.
  destruct (is_space c); [exact IH | reflexivity].
Qed.

Lemma lower_strip (s : str) : lower (strip s) = strip (lower s).
Proof.
  unfold strip, rstrip, lower.
  rewrite map_rev. fold (lower (lstrip (rev (lstrip s)))).
  rewrite lower_lstrip. unfold lower at 1. rewrite map_rev.
  fold (lower (lstrip s)). now rewrite lower_lstrip.
Qed.

Lemma lower_clip (n : nat) (s : str) : lower (clip n s) = clip n (lower s).
Proof.
  unfold clip, len, lower. rewrite length_map.
  destruct (n <? List.length s); [|reflexivity].
  now rewrite map_app, firstn_map.
Qed.

Lemma lower_slice (a b : nat) (s : str) : lower (slice a b s) = slice a b (lower s).
Proof. unfold slice, lower. now rewrite <- firstn_map, <- skipn_map. Qed.

Lemma find_spec (p s : str) (i : nat) :
  find p s = Some i -> exists a b, s = a ++ p ++ b /\ len a = i.
Proof.
  revert i; induction s as [|c s IH]; intros i; cbn [find].
  - destruct (starts_with p []) eqn:E; [|discriminate].
    intros H. injection H as <-. apply starts_with_spec in E as [b E].
    exists [], b. auto.
  - destruct (starts_with p (c :: s)) eqn:E.
    + intros H. injection H as <-. apply starts_with_spec in E as [b E].
      exists [], b. auto.
    + destruct (find p s) as [j|]; [|discriminate].
      intros H. injection H as <-.
      destruct (IH j eq_refl) as (a & b & -> & Ha).
      exists (c :: a), b. cbn. auto.
Qed.

Lemma find_none (p s : str) : find p s = None -> contains p s = false.
Proof.
  induction s as [|c s IH]; cbn [find contains].
  - destruct (starts_with p []); [discriminate | reflexivity].
  - destruct (starts_with p (c :: s)); [discriminate|].
    destruct (find p s); [discriminate|]. intros _. now apply IH.
Qed.

Lemma slice_window (s e : nat) (a p b : str) :
  s <= len a -> len a + len p <= e ->
  occurs_within (len a - s) p (slice s e (a ++ p ++ b))
  /\ len (slice s e (a ++ p ++ b)) <= e - s.
Proof.
  unfold occurs_within, slice, len. intros Hs He. split.
  - exists (skipn s a), (firstn (e - s - (List.length a - s) - List.length p) b).
    split; [|rewrite length_skipn; lia].
    rewrite skipn_app.
    replace (s - List.length a) with 0 by lia. cbn [skipn].
    rewrite firstn_app, length_skipn.
    rewrite (firstn_all2 (skipn s a)) by (rewrite length_skipn; lia).
    rewrite firstn_app.
    rewrite (firstn_all2 p) by lia. reflexivity.
  - apply firstn_le_length.
Qed.

Lemma lstrip_window (n : nat) (c : ascii) (q s : str) :
  is_space c = false ->
  occurs_within n (c :: q) s -> occurs_within n (c :: q) (lstrip s).
Proof.
  intros Hc (a & b & -> & Ha).
  revert n Ha; induction a as [|x a IH]; intros n Ha.
  - cbn [app lstrip]. rewrite Hc. exists [], b. auto.
  - cbn [app lstrip]. destruct (is_space x).
    + unfold len in Ha. cbn [List.length] in Ha.
      destruct (IH (n - 1)) as (a' & b' & E & Ha'); [unfold len; lia|].
      exists a', b'. split; [exact E | lia].
    + exists (x :: a), b. auto.
Qed.

Lemma lstrip_length (s : str) : len (lstrip s) <= len s.
Proof.
  unfold len. induction s as [|c s IH]; [cbn; lia|].
  cbn [lstrip]. destruct (is_space c); cbn [List.length] in *; lia.
Qed.

Lemma strip_length (s : str) : len (strip s) <= len s.
Proof.
  unfold strip, rstrip, len. rewrite length_rev.
  pose proof (lstrip_length (rev (lstrip s))) as H1.
  pose proof (lstrip_length s) as H2.
  unfold len in *. rewrite length_rev in H1. lia.
Qed.

Lemma rstrip_window (n : nat) (p s : str) (d : ascii) (r : str) :
  rev p = d :: r -> is_space d = false ->
  occurs_within n p s -> occurs_within n p (rstrip s).
Proof.
  intros Er Hd (a & b & -> & Ha). unfold rstrip.
  rewrite !rev_app_distr, <- app_assoc, Er.
  assert (H : exists b', lstrip (rev b ++ (d :: r) ++ rev a)
                         = b' ++ (d :: r) ++ rev a).
  { clear - Hd. induction (rev b) as [|x l IH].
    - cbn [app lstrip]. rewrite Hd. exists []. reflexivity.
    - cbn [app lstrip]. destruct (is_space x); [exact IH|].
      exists (x :: l). reflexivity. }
  destruct H as [b' ->].
  exists a, (rev b'). split; [|exact Ha].
  rewrite !rev_app_distr, rev_involutive, <- Er, rev_involutive.
  now rewrite <- app_assoc.
Qed.

Lemma strip_window (n : nat) (p s : str) :
  edges_clear p = true -> occurs_within n p s -> occurs_within n p (strip s).
Proof.
  unfold edges_clear. intros H Hs. apply andb_prop in H as [H1 H2].
  destruct p as [|c q]; [discriminate|].
  destruct (rev (c :: q)) as [|d r] eqn:Er; [discriminate|].
  rewrite negb_true_iff in H1, H2. unfold strip.
  eapply rstrip_window; eauto. now apply lstrip_window.
Qed.

Lemma clip_window (k n : nat) (p s : str) :
  n + len p <= k -> occurs_within n p s -> occurs_within n p (clip k s).
Proof.
  intros Hk (a & b & -> & Ha). unfold clip.
  destruct (k <? len (a ++ p ++ b)); [|exists a, b; auto].
  exists a, (firstn (k - len a - len p) b ++ lit "..."). split; [|exact Ha].
  unfold len in *. rewrite firstn_app, (firstn_all2 a) by lia.
  rewrite firstn_app, (firstn_all2 p) by lia.
  now rewrite <- !app_assoc.
Qed.

Lemma occurs_contains (n : nat) (p s : str) :
  occurs_within n p s -> contains p s = true.
Proof. intros (a & b & E & _). apply contains_spec. eauto. Qed.

(** The window of a phrase that occurs in the text. *)
Lemma context_window (text phrase : str) (n : nat) :
  edges_clear (lower phrase) = true ->
  contains (lower phrase) (lower text) = true ->
  n + len phrase <= 200 ->
  occurs_within n (lower phrase)
                (lower (_extract_context_around_phrase text phrase n))
  /\ len (_extract_context_around_phrase text phrase n) <= 203.
Proof.
  intros He Hc Hn. unfold _extract_context_around_phrase. cbv zeta.
  destruct (find (lower phrase) (lower text)) as [i|] eqn:F;
    [|apply find_none in F; congruence].
  destruct (find_spec _ _ _ F) as (a & b & E & Ha).
  split; [|apply (clip_length 200)].
  rewrite lower_clip, lower_strip, lower_slice, E.
  assert (Hlen : len text = len a + len (lower phrase) + len b).
  { unfold len. rewrite <- (length_map lower_char text).
    fold (lower text). rewrite E, !length_app. lia. }
  assert (Hp : len (lower phrase) = len phrase)
    by (unfold len, lower; apply length_map).
  rewrite <- Ha.
  destruct (slice_window (len a - n)
              (Nat.min (len text) (len a + len phrase + n)) a (lower phrase) b)
    as [Hw _]; [lia | lia |].
  apply clip_window; [lia|]. apply strip_window; [exact He|].
  destruct Hw as (a' & b' & E' & Ha'). exists a', b'. split; [exact E'|lia].
Qed.

Lemma context_fallback (text phrase : str) (n : nat) :
  contains (lower phrase) (lower text) = false ->
  _extract_context_around_phrase text phrase n =
  lit "The term '" ++ phrase ++ lit "' appears in the contract".
Proof.
  intros Hc. unfold _extract_context_around_phrase. cbv zeta.
  destruct (find (lower phrase) (lower text)) as [i|] eqn:F; [|reflexivity].
  destruct (find_spec _ _ _ F) as (a & b & E & _).
  assert (contains (lower phrase) (lower text) = true)
    by (apply contains_spec; eauto).
  congruence.
Qed.

(** X9. For a text and a phrase of code points below 256: when the
    phrase, which neither begins nor ends with a space, occurs in the
    text in some mix of cases and is not longer than 200 less the
    margin, the context [_extract_context_around_phrase] returns holds
    the phrase, begun within the margin, and is 203 characters long at
    most; when the phrase does not occur, the context is the sentence
    that says the term appears in the contract. *)
Theorem context_holds_phrase (text_codes phrase_codes : list N) (n : nat) :
  let text := of_codes text_codes in
  let phrase := of_codes phrase_codes in
  latin1 text_codes = true -> latin1 phrase_codes = true ->
  (edges_clear (lower phrase) = true ->
   contains (lower phrase) (lower text) = true ->
   n + len phrase <= 200 ->
   occurs_within n (lower phrase)
                 (lower (_extract_context_around_phrase text phrase n))
   /\ contains (lower phrase)
               (lower (_extract_context_around_phrase text phrase n)) = true
   /\ len (_extract_context_around_phrase text phrase n) <= 203)
  /\ (contains (lower phrase) (lower text) = false ->
      _extract_context_around_phrase text phrase n =
      lit "The term '" ++ phrase ++ lit "' appears in the contract").
Proof.
  intros text phrase _ _. split.
  - intros He Hc Hn. destruct (context_window text phrase n He Hc Hn) as [H1 H2].
    split; [exact H1|]. split; [|exact H2]. eapply occurs_contains; eauto.
  - apply context_fallback.
Qed.

Lemma context_holds_phrase_witness :
  let text_codes :=
    codes (lit "1. Either party may seek   Force Majeure   relief at any time.") in
  let phrase_codes := codes (lit "force majeure") in
  latin1 text_codes = true /\ latin1 phrase_codes = true
  /\ _extract_context_around_phrase
       (of_codes text_codes) (of_codes phrase_codes) 10 =
     lit "ay seek   Force Majeure   relief"
  /\ contains (lower (of_codes phrase_codes))
       (lower (_extract_context_around_phrase
                 (of_codes text_codes) (of_codes phrase_codes) 10)) = true.
Proof.
  intros text_codes phrase_codes.
  assert (H1 : latin1 text_codes = true) by (vm_compute; reflexivity).
  assert (H2 : latin1 phrase_codes = true) by (vm_compute; reflexivity).
  split; [exact H1|]. split; [exact H2|].
  split; [vm_compute; reflexivity|].
  apply (proj1 (context_holds_phrase text_codes phrase_codes 10 H1 H2));
    [vm_compute; reflexivity | vm_compute; reflexivity | vm_compute; lia].
Defined.

(** ** The contexts shown with terms and risk factors *)

Lemma glossary_phrases :
  forallb (fun td => str_eqb (lower (fst td)) (fst td)
                     && edges_clear (fst td) && (80 + len (fst td) <=? 200))
          legal_term_definitions = true.
Proof. vm_compute. reflexivity. Qed.

Lemma indicator_phrases :
  forallb (fun ip => str_eqb (lower (fst ip)) (fst ip)
                     && edges_clear (fst ip) && (100 + len (fst ip) <=? 150))
          indicator_points = true.
Proof. vm_compute. reflexivity. Qed.

(** X10. For a text of code points below 256, every entry
    [extract_legal_terms_from_text] returns is one of the three
    defaults, or the entry of a glossary term that occurs in the lowered
    text: its name in title case, its definition, and a context that
    holds the term, in some mix of cases. *)
Theorem legal_terms_context (text_codes : list N) (entry : dict str) :
  let text := of_codes text_codes in
  latin1 text_codes = true ->
  In entry (extract_legal_terms_from_text text) ->
  In entry default_terms
  \/ exists term definition,
       In (term, definition) legal_term_definitions
       /\ contains term (lower text) = true
       /\ entry = key_term (title term) definition
                    (_extract_context_around_phrase text term 80)
       /\ contains term
            (lower (_extract_context_around_phrase text term 80)) = true.
Proof.
  intros text _.
  unfold extract_legal_terms_from_text. cbv zeta. intros H.
  destruct (found_terms text) as [|e l] eqn:F.
  - left. now apply In_firstn in H.
  - right. rewrite <- F in H. apply In_firstn in H.
    rewrite found_terms_filter in H.
    apply in_map_iff in H as ([term definition] & <- & Hin).
    apply filter_In in Hin as [Hin Hc]. cbn [fst snd] in *.
    pose proof glossary_phrases as G. rewrite forallb_forall in G.
    specialize (G _ Hin). cbn [fst] in G.
    apply andb_prop in G as [G Hn]. apply andb_prop in G as [Hl He].
    apply str_eqb_eq in Hl. apply Nat.leb_le in Hn. rewrite Hl in Hc.
    exists term, definition. repeat split; auto.
    eapply occurs_contains. rewrite <- Hl at 1.
    apply (context_window text term 80); rewrite ?Hl; auto.
Qed.

Lemma legal_terms_context_witness :
  let text_codes :=
    codes (lit "This Agreement is VOID if the Tenant is in breach.") in
  let text := of_codes text_codes in
  let entry := key_term (lit "Void") (lit "having no legal effect")
                        (lit "This Agreement is VOID if the Tenant is in breach.") in
  latin1 text_codes = true
  /\ In entry (extract_legal_terms_from_text text)
  /\ (In entry default_terms
      \/ exists term definition,
           In (term, definition) legal_term_definitions
           /\ contains term (lower text) = true
           /\ entry = key_term (title term) definition
                        (_extract_context_around_phrase text term 80)
           /\ contains term
                (lower (_extract_context_around_phrase text term 80)) = true).
Proof.
  intros text_codes text entry.
  assert (L : latin1 text_codes = true) by (vm_compute; reflexivity).
  assert (H : In entry (extract_legal_terms_from_text text))
    by (vm_compute; tauto).
  split; [exact L|].
  split; [exact H | exact (legal_terms_context text_codes entry L H)].
Defined.

Lemma indicator_entry_shown (text : str) (ip : str * Z) :
  In ip indicator_points -> contains (fst ip) (lower text) = true ->
  shown_factor text (indicator_entry text ip).
Proof.
  intros Hin Hc. right. right. destruct ip as [indicator points].
  cbn [fst] in Hc.
  exists indicator, points,
    (clip 150 (_extract_context_around_phrase text indicator 100)).
  pose proof indicator_phrases as G. rewrite forallb_forall in G.
  specialize (G _ Hin). cbn [fst] in G.
  apply andb_prop in G as [G Hn]. apply andb_prop in G as [Hl He].
  apply str_eqb_eq in Hl. apply Nat.leb_le in Hn.
  repeat split; auto.
  rewrite lower_clip.
  apply (occurs_contains 100), clip_window; [lia|].
  rewrite <- Hl at 1.
  apply (context_window text indicator 100); rewrite ?Hl; auto; lia.
Qed.

Lemma risk_steps_shown (text : str) (l : list (str * Z)) :
  forall st,
    (forall ip, In ip l -> In ip indicator_points) ->
    Forall (shown_factor text) (detailed_analysis st) ->
    Forall (shown_factor text)
           (detailed_analysis (fold_left (risk_step text (lower text)) l st)).
Proof.
  induction l as [|ip l IH]; intros st Hl Hst; [exact Hst|].
  cbn [fold_left]. apply IH; [intros q Hq; apply Hl; now right|].
  unfold risk_step. destruct (contains (fst ip) (lower text)) eqn:Hc;
    [|exact Hst].
  cbn [detailed_analysis]. apply Forall_app. split; [exact Hst|].
  constructor; [|constructor].
  apply (indicator_entry_shown text ip); [apply Hl; now left | exact Hc].
Qed.

Lemma risk_tiers_shown (text : str) (tiers : list (str * list (str * Z))) :
  forall st,
    (forall ip, In ip (List.concat (map snd tiers)) -> In ip indicator_points) ->
    Forall (shown_factor text) (detailed_analysis st) ->
    Forall (shown_factor text)
           (detailed_analysis
              (fold_left
                 (fun st tier =>
                    fold_left (risk_step text (lower text)) (snd tier) st)
                 tiers st)).
Proof.
  induction tiers as [|t tiers IH]; intros st Hl Hst; [exact Hst|].
  cbn [fold_left]. cbn [map List.concat] in Hl. apply IH.
  - intros ip Hip. apply Hl, in_or_app. now right.
  - apply risk_steps_shown; [|exact Hst].
    intros ip Hip. apply Hl, in_or_app. now left.
Qed.

Lemma Forall_firstn {A} (P : A -> Prop) (n : nat) (l : list A) :
  Forall P l -> Forall P (firstn n l).
Proof.
  rewrite !Forall_forall. intros H x Hx. apply H. eapply In_firstn; eauto.
Qed.

(** X11. For a text of code points below 256, every entry of the
    detailed analysis of [assess_contract_risks] is the standard entry,
    the entry of "without limitation", or the entry of an indicator that
    occurs in the lowered text, whose context holds that indicator, in
    some mix of cases. *)
Theorem risk_analysis_context (text_codes : list N) :
  let text := of_codes text_codes in
  latin1 text_codes = true ->
  Forall (shown_factor text) (analysis (assess_contract_risks text)).
Proof.
  intros text _.
  unfold assess_contract_risks. cbv zeta. cbn [analysis].
  assert (H : Forall (shown_factor text) (detailed_analysis (risk_scan text))).
  { unfold risk_scan. cbv zeta.
    unfold add_penalties, add_at_will, add_without_limitation.
    set (st1 := fold_left _ risk_indicators _).
    assert (H1 : Forall (shown_factor text) (detailed_analysis st1)).
    { apply risk_tiers_shown; [auto | constructor]. }
    destruct (contains (lit "without limitation") (lower text)),
      (contains (lit "at will") (lower text)),
      (2 <? count_penalty (lower text));
      cbn [detailed_analysis]; auto;
      (apply Forall_app; split; [exact H1|]);
      (constructor; [right; left; reflexivity | constructor]). }
  apply Forall_firstn.
  destruct (detailed_analysis (risk_scan text)); [|exact H].
  constructor; [left; reflexivity | constructor].
Qed.

Lemma risk_analysis_context_witness :
  let text_codes :=
    codes (lit "The Tenant shall INDEMNIFY the Landlord; disputes go to arbitration.") in
  let text := of_codes text_codes in
  latin1 text_codes = true
  /\ map (dict_get (lit "factor")) (analysis (assess_contract_risks text)) =
     [Some (lit "indemnify"); Some (lit "arbitration")]
  /\ Forall (shown_factor text) (analysis (assess_contract_risks text)).
Proof.
  intros text_codes text.
  assert (L : latin1 text_codes = true) by (vm_compute; reflexivity).
  split; [exact L|]. split; [vm_compute; reflexivity|].
  exact (risk_analysis_context text_codes L).
Defined.

(** ** The results against the models of [models.py] *)

Lemma conforms_strs (l : list str) : conforms (SList SStr) (VStrs l) = true.
Proof.
  unfold VStrs. cbn [conforms]. induction l as [|x l IH]; [reflexivity|].
  cbn [map forallb conforms]. exact IH.
Qed.

Lemma conforms_str_dict (d : dict str) : conforms (SDict SStr) (VStrDict d) = true.
Proof.
  unfold VStrDict. cbn [conforms]. induction d as [|x d IH]; [reflexivity|].
  cbn [map forallb snd conforms]. exact IH.
Qed.

Lemma conforms_str_dicts (l : list (dict str)) :
  conforms (SList (SDict SStr)) (VList (map VStrDict l)) = true.
Proof.
  cbn [conforms]. induction l as [|x l IH]; [reflexivity|].
  cbn [map forallb]. fold (conforms (SDict SStr) (VStrDict x)).
  now rewrite conforms_str_dict.
Qed.

Lemma conforms_list_dict (d : dict (list str)) :
  conforms (SDict (SList SStr)) (VListDict d) = true.
Proof.
  unfold VListDict. cbn [conforms]. induction d as [|x d IH]; [reflexivity|].
  cbn [map forallb snd]. fold (conforms (SList SStr) (VStrs (snd x))).
  now rewrite conforms_strs.
Qed.

Lemma conforms_any_dict (d : dict (list str)) :
  conforms (SDict SAny) (VListDict d) = true.
Proof.
  unfold VListDict. cbn [conforms]. induction d as [|x d IH]; [reflexivity|].
  cbn [map forallb snd]. exact IH.
Qed.

Lemma conforms_key_terms (l : list (dict str)) :
  Forall (fun e => exists t d c, e = key_term t d c) l ->
  conforms (SList KeyTerm) (VList (map VStrDict l)) = true.
Proof.
  cbn [conforms]. induction 1 as [|e l (t & d & c & ->) _ IH]; [reflexivity|].
  cbn [map forallb]. rewrite IH. reflexivity.
Qed.

Lemma key_terms_shape (text : str) :
  Forall (fun e => exists t d c, e = key_term t d c)
         (extract_legal_terms_from_text text).
Proof.
  unfold extract_legal_terms_from_text. cbv zeta. apply Forall_firstn.
  destruct (found_terms text) as [|e l] eqn:F.
  - unfold default_terms. repeat constructor; eauto.
  - rewrite <- F, found_terms_filter. apply Forall_forall.
    intros x Hx. apply in_map_iff in Hx as (td & <- & _). eauto.
Qed.

Lemma conforms_model_cons (k : str) (t : schema) (r : list (str * schema))
  (d : list (str * value)) :
  conforms (SModel ((k, t) :: r)) (VDict d) =
  match dict_get k d with
  | Some x => conforms t x
  | None => false
  end && conforms (SModel r) (VDict d).
Proof. reflexivity. Qed.

Lemma conforms_model (fields : list (str * schema)) (d : list (str * value)) :
  Forall (fun kt => exists x, dict_get (fst kt) d = Some x
                              /\ conforms (snd kt) x = true) fields ->
  conforms (SModel fields) (VDict d) = true.
Proof.
  induction 1 as [|[k t] r (x & Hx & Hc) _ IH]; [reflexivity|].
  rewrite conforms_model_cons. cbn [fst snd] in *. now rewrite Hx, Hc, IH.
Qed.

Ltac model_fields :=
  apply conforms_model;
  repeat (apply Forall_cons; [eexists; split; [reflexivity|]|]);
  try apply Forall_nil.

Lemma conforms_risk (r : risk_assessment) :
  conforms RiskAssessment (risk_to_value r) = true.
Proof.
  unfold RiskAssessment, risk_to_value. model_fields;
    try reflexivity; [apply conforms_strs | apply conforms_str_dicts].
Qed.

Lemma conforms_obligations (a c p f : list str) :
  conforms Obligations (VListDict (finish_obligations (four a c p f))) = true.
Proof.
  unfold Obligations. change (VListDict (finish_obligations (four a c p f)))
    with (VDict (map (fun kv : str * list str => (fst kv, VStrs (snd kv)))
                     (finish_obligations (four a c p f)))).
  model_fields; apply conforms_strs.
Qed.

Lemma ask_conforms (gemini_model : gemini) (question context : str) (lg : log) :
  conforms QuestionResponse
    (fst (ask_openai_question gemini_model question context lg)) = true.
Proof.
  assert (Q : forall a cl x fu,
            conforms QuestionResponse (qa_result a cl x fu) = true).
  { intros a cl x fu. unfold QuestionResponse, qa_result.
    model_fields; try reflexivity; apply conforms_strs. }
  unfold ask_openai_question. destruct gemini_model as [generate|]; [|apply Q].
  destruct (generate (slice 0 2000 context) question); apply Q.
Qed.

Section Conformance.

Variable re_findall : str -> str -> list str.
Variable re_search : str -> str -> option str.
Variable set_to_list : list str -> list str.

Lemma conforms_success
  (executive_summary contract_type main_subject : str) (risk : risk_assessment)
  (all_obligations amounts : list str) (financial_terms : dict (list str))
  (timeline key_terms : list (dict str))
  (a c p f : list str) (sections entities : dict (list str))
  (simplified_text : str) :
  Forall (fun e => exists t d c, e = key_term t d c) key_terms ->
  conforms ContractAnalysisResponse
    (success_response executive_summary contract_type main_subject risk
       all_obligations amounts financial_terms timeline key_terms
       (finish_obligations (four a c p f)) sections entities simplified_text)
  = true.
Proof.
  intros Hk. unfold ContractAnalysisResponse, success_response. model_fields.
  - unfold DetailedSummary. model_fields; try reflexivity;
      first [apply conforms_strs | apply conforms_any_dict
            | apply conforms_str_dicts].
  - now apply conforms_key_terms.
  - apply conforms_obligations.
  - apply conforms_risk.
  - apply conforms_list_dict.
  - apply conforms_list_dict.
  - reflexivity.
  - reflexivity.
Qed.

Lemma body_conforms (text : str) :
  exists response,
    process_contract_body re_findall re_search set_to_list text = Ok response
    /\ success_result response
    /\ conforms ContractAnalysisResponse response = true.
Proof.
  unfold process_contract_body.
  destruct (sections_ok text) as [sections ->]. cbn [bind].
  rewrite financial_loops. cbn [bind].
  rewrite obligations_result. cbn [bind].
  change (getitem k_all
            (finish_obligations
               (four (collected k_all text) (collected k_critical text)
                     (collected k_payment text) (collected k_performance text))))
    with (Ok match collected k_all text with
             | [] => [no_obligations]
             | x :: r => firstn 10 (fromkeys (x :: r))
             end).
  cbn [bind].
  change (getitem (lit "amounts")
            (map (fun kv : str * list str =>
                    (fst kv, firstn 10 (fromkeys (snd kv))))
                 (map (fun k => (k, financial_raw re_findall k text))
                      financial_keys)))
    with (Ok (firstn 10 (fromkeys (financial_raw re_findall (lit "amounts") text)))).
  cbn [bind].
  eexists. split; [reflexivity|]. split; [apply success_response_shape|].
  apply conforms_success, key_terms_shape.
Qed.

Lemma process_conforms (text : str) (lg : log) :
  conforms ContractAnalysisResponse
    (fst (process_contract re_findall re_search set_to_list text lg)) = true.
Proof.
  destruct (body_conforms text) as (response & E & _ & C).
  unfold process_contract. now rewrite E.
Qed.

(** X12. The result of [process_contract] has, on every text, the shape
    of [ContractAnalysisResponse] of [models.py]: each field of the
    model and of the models nested in it is there, with a value of its
    annotated type.  The result of [ask_openai_question] has the shape of
    [QuestionResponse], whether the client is absent, answers or
    raises. *)
Theorem results_conform :
  (forall text lg,
     conforms ContractAnalysisResponse
       (fst (process_contract re_findall re_search set_to_list text lg)) = true)
  /\ (forall gemini_model question context lg,
        conforms QuestionResponse
          (fst (ask_openai_question gemini_model question context lg)) = true).
Proof.
  split; [apply process_conforms | apply ask_conforms].
Qed.

End Conformance.

(** ** The endpoints of [app.py] *)

Section EndpointProperties.

Variable re_findall : str -> str -> list str.
Variable re_search : str -> str -> option str.
Variable set_to_list : list str -> list str.
Variable get_processor : exn gemini.
Variable analysis_response : value -> exn value.
Variable question_response : value -> exn value.

Lemma success_not_differs (result : value) :
  success_result result ->
  differs (vget (lit "processing_status") result) (lit "success") = false.
Proof. intros [H _]. rewrite H. reflexivity. Qed.

(** X13. [analyze_contract_text] answers 400 when the text is blank or
    shorter than 100 characters, without running the analysis, and in
    no other case.  On any other text, once the processor is there, the
    result of [process_contract] has status "success" and the shape of
    the response model, the branch that answers 500 for a failed
    analysis is not taken, and the result is handed to the response
    model. *)
Theorem analyze_contract_text_outcome (contract_text : str) (lg : log) :
  let run := analyze_contract_text re_findall re_search set_to_list
               get_processor analysis_response contract_text lg in
  (blank contract_text = true ->
   run = (HTTPException 400 (VStr (lit "Contract text cannot be empty")), lg))
  /\ (blank contract_text = false -> len contract_text < 100 ->
      run = (HTTPException 400
               (VStr (lit "Contract text too short for meaningful analysis")),
             lg))
  /\ ((exists detail lg', run = (HTTPException 400 detail, lg'))
      <-> blank contract_text = true \/ len contract_text < 100)
  /\ (blank contract_text = false -> 100 <= len contract_text ->
      forall processor, get_processor = Ok processor ->
      let done :=
        process_contract re_findall re_search set_to_list contract_text lg in
      let lg2 :=
        snd done ++ [(lit "INFO", lit "Successfully analyzed contract with "
                        ++ of_nat (len contract_text) ++ lit " characters")] in
      success_result (fst done)
      /\ conforms ContractAnalysisResponse (fst done) = true
      /\ run =
         match analysis_response (fst done) with
         | Ok body => (Returned body, lg2)
         | Raise e =>
             (HTTPException 500 (VStr (lit "Analysis failed: " ++ e)),
              lg2 ++ [(lit "ERROR", lit "Error in analyze_contract_text: " ++ e)])
         end).
Proof.
  cbv zeta.
  assert (Hrun : blank contract_text = false -> 100 <= len contract_text ->
            forall processor, get_processor = Ok processor ->
            analyze_contract_text re_findall re_search set_to_list
              get_processor analysis_response contract_text lg =
            match analysis_response
                    (fst (process_contract re_findall re_search set_to_list
                            contract_text lg)) with
            | Ok body =>
                (Returned body,
                 snd (process_contract re_findall re_search set_to_list
                        contract_text lg)
                 ++ [(lit "INFO", lit "Successfully analyzed contract with "
                        ++ of_nat (len contract_text) ++ lit " characters")])
            | Raise e =>
                (HTTPException 500 (VStr (lit "Analysis failed: " ++ e)),
                 (snd (process_contract re_findall re_search set_to_list
                         contract_text lg)
                  ++ [(lit "INFO", lit "Successfully analyzed contract with "
                         ++ of_nat (len contract_text) ++ lit " characters")])
                 ++ [(lit "ERROR", lit "Error in analyze_contract_text: " ++ e)])
            end).
  { intros Hb Hl processor Hp. unfold analyze_contract_text.
    rewrite Hb, Hp. apply Nat.ltb_ge in Hl. rewrite Hl.
    destruct (process_contract_ok re_findall re_search set_to_list
                contract_text lg) as (response & E & S).
    rewrite E. cbn [fst snd]. rewrite (success_not_differs _ S).
    reflexivity. }
  split; [|split; [|split]].
  - intros Hb. unfold analyze_contract_text. now rewrite Hb.
  - intros Hb Hl. unfold analyze_contract_text. rewrite Hb.
    apply Nat.ltb_lt in Hl. now rewrite Hl.
  - split.
    + intros (detail & lg' & H).
      destruct (blank contract_text) eqn:Hb; [now left|].
      destruct (Nat.lt_ge_cases (len contract_text) 100) as [Hl|Hl];
        [now right|].
      exfalso. destruct get_processor as [processor|e] eqn:Hp.
      * rewrite (Hrun eq_refl Hl processor eq_refl) in H.
        destruct (analysis_response _); discriminate H.
      * unfold analyze_contract_text in H. rewrite Hb in H.
        apply Nat.ltb_ge in Hl. rewrite Hl in H. discriminate H.
    + intros [Hb|Hl].
      * do 2 eexists. unfold analyze_contract_text. rewrite Hb. reflexivity.
      * unfold analyze_contract_text. apply Nat.ltb_lt in Hl. rewrite Hl.
        destruct (blank contract_text); do 2 eexists; reflexivity.
  - intros Hb Hl processor Hp.
    destruct (process_contract_ok re_findall re_search set_to_list
                contract_text lg) as (response & E & S).
    split; [now rewrite E|].
    split; [apply process_conforms|].
    now apply (Hrun Hb Hl processor).
Qed.

(** X14. [ask_question] answers 400 for a blank question, a blank
    context or a question of more than 500 characters.  On any other
    request, once the processor is there, the answer of
    [ask_openai_question] has the shape of the response model and is
    handed to it; when the client is absent or raises, that answer is
    the one of the keyword engine, so that a failure of the client is no
    error of the endpoint. *)
Theorem ask_question_outcome (question contract_context : str) (lg : log) :
  let run := ask_question get_processor question_response
               question contract_context lg in
  (blank question = true ->
   run = (HTTPException 400 (VStr (lit "Question cannot be empty")), lg))
  /\ (blank question = false -> blank contract_context = true ->
      run = (HTTPException 400 (VStr (lit "Contract context is required")), lg))
  /\ (blank question = false -> blank contract_context = false ->
      500 < len question ->
      run = (HTTPException 400
               (VStr (lit "Question too long. Maximum 500 characters")), lg))
  /\ (blank question = false -> blank contract_context = false ->
      len question <= 500 ->
      forall gemini_model, get_processor = Ok gemini_model ->
      let done := ask_openai_question gemini_model question contract_context lg in
      let lg2 :=
        snd done ++ [(lit "INFO", lit "Successfully answered question: "
                        ++ slice 0 50 question ++ lit "...")] in
      conforms QuestionResponse (fst done) = true
      /\ run =
         match question_response (fst done) with
         | Ok body => (Returned body, lg2)
         | Raise e =>
             (HTTPException 500 (VStr (lit "Question processing failed: " ++ e)),
              lg2 ++ [(lit "ERROR", lit "Error processing question: " ++ e)])
         end
      /\ ((gemini_model = None
           \/ exists generate e,
                gemini_model = Some generate
                /\ generate (slice 0 2000 contract_context) question = Raise e) ->
          fst done = ask_keyword_question question contract_context)).
Proof.
  cbv zeta. unfold ask_question.
  split; [intros ->; reflexivity|].
  split; [intros -> ->; reflexivity|].
  split.
  { intros -> -> H. apply Nat.ltb_lt in H. now rewrite H. }
  intros -> -> Hl g ->. apply Nat.ltb_ge in Hl. rewrite Hl.
  split; [apply ask_conforms|]. split.
  - destruct (ask_openai_question g question contract_context lg) as [a l].
    reflexivity.
  - intros [->|(generate & e & -> & Hr)]; [reflexivity|].
    cbn [ask_openai_question]. now rewrite Hr.
Qed.

End EndpointProperties.

Lemma analyze_contract_text_outcome_witness :
  let no_match := fun _ _ : str => @nil str in
  let no_group := fun _ _ : str => @None str in
  let run := analyze_contract_text no_match no_group (fun l => l)
               (Ok None) Ok plain_lease [] in
  blank plain_lease = false /\ 100 <= len plain_lease
  /\ exists body lg', run = (Returned body, lg')
       /\ vget (lit "processing_status") body = Some (VStr (lit "success")).
Proof.
  intros no_match no_group run.
  assert (Hb : blank plain_lease = false) by (vm_compute; reflexivity).
  assert (Hl : 100 <= len plain_lease) by (vm_compute; lia).
  split; [exact Hb|]. split; [exact Hl|].
  destruct (proj2 (proj2 (proj2
              (analyze_contract_text_outcome no_match no_group (fun l => l)
                 (Ok None) Ok plain_lease []))) Hb Hl None eq_refl)
    as ((Hs & _) & _ & E).
  do 2 eexists. split; [exact E | exact Hs].
Defined.

Lemma ask_question_outcome_witness :
  let question := lit "What is the rent?" in
  let run := ask_question (Ok None) Ok question plain_lease [] in
  exists lg',
    run = (Returned (ask_keyword_question question plain_lease), lg').
Proof.
  intros question run.
  assert (Hl : len question <= 500) by (vm_compute; lia).
  destruct (proj2 (proj2 (proj2
              (ask_question_outcome (Ok None) Ok question plain_lease [])))
              (eq_refl : blank question = false)
              (eq_refl : blank plain_lease = false)
              Hl None eq_refl)
    as (_ & E & K).
  eexists. subst run. rewrite E. cbn [fst snd].
  rewrite (K (or_introl eq_refl)). reflexivity.
Defined.

(** ** The key points of the summary *)

Section KeyPoints.

Variable re_findall : str -> str -> list str.
Variable re_search : str -> str -> option str.
Variable set_to_list : list str -> list str.

Lemma body_explicit (text : str) :
  exists sections,
    identify_contract_sections text = Ok sections
    /\ process_contract_body re_findall re_search set_to_list text =
       Ok (success_response
             (generate_executive_summary re_findall re_search text sections
                (map (fun kv : str * list str =>
                        (fst kv, firstn 10 (fromkeys (snd kv))))
                     (map (fun k => (k, financial_raw re_findall k text))
                          financial_keys))
                (assess_contract_risks text))
             (_determine_contract_type text)
             (_extract_main_subject re_search text (_determine_contract_type text))
             (assess_contract_risks text)
             (finished k_all text)
             (firstn 10 (fromkeys (financial_raw re_findall (lit "amounts") text)))
             (map (fun kv : str * list str =>
                     (fst kv, firstn 10 (fromkeys (snd kv))))
                  (map (fun k => (k, financial_raw re_findall k text))
                       financial_keys))
             (extract_timeline re_findall text)
             (extract_legal_terms_from_text text)
             (finish_obligations
                (four (collected k_all text) (collected k_critical text)
                      (collected k_payment text) (collected k_performance text)))
             sections
             (extract_key_entities re_findall set_to_list text)
             (simplify_legal_language text)).
Proof.
  unfold process_contract_body.
  destruct (sections_ok text) as [sections E]. exists sections.
  split; [exact E|]. rewrite E. cbn [bind].
  rewrite financial_loops. cbn [bind].
  rewrite obligations_result. cbn [bind].
  reflexivity.
Qed.

Lemma finished_length (k text : str) :
  1 <= List.length (finished k text) <= 10
  /\ (collected k text = [] -> List.length (finished k text) = 1).
Proof.
  unfold finished. destruct (collected k text) as [|x r].
  - cbn. split; [lia | reflexivity].
  - split; [|discriminate]. split; [|apply firstn_le_length].
    rewrite fromkeys_cons. cbn. lia.
Qed.

(** X15. The key points of the result of [process_contract] name the
    contract type and the main subject of the fields beside them and
    the level of the risk assessment; the number they give as total
    obligations is the length of the list of all obligations in the
    result, from 1 to 10, and 1 when no sentence was taken for an
    obligation, the placeholder being counted; the number of amounts is
    10 at most. *)
Theorem key_points_counts (text : str) (lg : log) :
  let result := fst (process_contract re_findall re_search set_to_list text lg) in
  let contract_type := _determine_contract_type text in
  let main_subject := _extract_main_subject re_search text contract_type in
  exists summary obligations all_obligations m,
    vget (lit "detailed_summary") result = Some summary
    /\ vget (lit "key_points") summary =
       Some (VStrs [
         lit "Contract type: " ++ contract_type;
         lit "Main subject: " ++ main_subject;
         lit "Risk level: " ++ risk_level (assess_contract_risks text);
         lit "Total obligations: " ++ of_nat (List.length all_obligations);
         lit "Financial terms: " ++ of_nat m ++ lit " amounts identified" ])
    /\ vget (lit "contract_type") summary = Some (VStr contract_type)
    /\ vget (lit "main_subject") summary = Some (VStr main_subject)
    /\ vget (lit "obligations") result = Some obligations
    /\ vget k_all obligations = Some (VStrs all_obligations)
    /\ 1 <= List.length all_obligations <= 10
    /\ (obligation_sentences text = [] -> List.length all_obligations = 1)
    /\ m <= 10.
Proof.
  cbv zeta. unfold process_contract.
  destruct (body_explicit text) as (sections & _ & ->). cbn [fst].
  do 4 eexists.
  split; [reflexivity|]. split; [reflexivity|].
  split; [reflexivity|]. split; [reflexivity|].
  split; [reflexivity|].
  split; [change (vget k_all _) with (Some (VStrs (finished k_all text)));
          reflexivity|].
  destruct (finished_length k_all text) as [H1 H2].
  split; [exact H1|]. split; [|apply firstn_le_length].
  intros Hs. apply H2. unfold collected. now rewrite Hs.
Qed.

End KeyPoints.

(** ** The sizes of the buckets *)

Lemma sum_cons (a : nat) (l : list nat) : list_sum (a :: l) = a + list_sum l.
Proof. reflexivity. Qed.

Lemma no_bucket (b : str) (ks : list str) :
  ~ In b ks ->
  list_sum (map (fun k => if str_eqb b k then 1 else 0) ks) = 0.
Proof.
  induction ks as [|k ks IH]; intros H; [reflexivity|].
  cbn [map]. rewrite sum_cons. destruct (str_eqb b k) eqn:E.
  - apply str_eqb_eq in E. subst. exfalso. apply H. now left.
  - rewrite IH; [reflexivity|]. intros Hin. apply H. now right.
Qed.

Lemma one_bucket (b : str) (ks : list str) :
  NoDup ks -> In b ks ->
  list_sum (map (fun k => if str_eqb b k then 1 else 0) ks) = 1.
Proof.
  induction ks as [|k ks IH]; intros Hnd Hin; [contradiction|].
  inversion Hnd as [|? ? Hk Hnd']; subst. cbn [map]. rewrite sum_cons.
  destruct (str_eqb b k) eqn:E.
  - apply str_eqb_eq in E. subst k. now rewrite no_bucket.
  - destruct Hin as [->|Hin]; [now rewrite str_eqb_refl in E|].
    now rewrite IH.
Qed.

Lemma sum_add (g h : str -> nat) (ks : list str) :
  list_sum (map (fun k => g k + h k) ks) =
  list_sum (map g ks) + list_sum (map h ks).
Proof.
  induction ks as [|k ks IH]; [reflexivity|].
  cbn [map]. rewrite !sum_cons, IH. lia.
Qed.

Lemma bucket_sizes (ps : list str) (ks : list str) :
  NoDup ks -> (forall p, In p ps -> In (bucket_of p) ks) ->
  list_sum
    (map (fun k => List.length (filter (fun p => str_eqb (bucket_of p) k) ps)) ks)
  = List.length ps.
Proof.
  intros Hnd. induction ps as [|p ps IH]; intros Hin.
  - cbn [filter List.length]. clear. induction ks as [|k ks IHk]; [reflexivity|].
    cbn [map]. rewrite sum_cons. exact IHk.
  - rewrite (map_ext _
               (fun k => (if str_eqb (bucket_of p) k then 1 else 0)
                         + List.length
                             (filter (fun q => str_eqb (bucket_of q) k) ps))).
    + rewrite sum_add, one_bucket, IH; auto.
      * intros q Hq. apply Hin. now right.
      * apply Hin. now left.
    + intros k. cbn [filter].
      destruct (str_eqb (bucket_of p) k); reflexivity.
Qed.

Lemma paragraph_length (text p : str) : In p (paragraphs text) -> 50 < len p.
Proof.
  unfold paragraphs. cbv zeta.
  set (ps := map strip (filter _ (split_blank text))).
  assert (H1 : forall q, In q ps -> 50 < len q).
  { intros q Hq. unfold ps in Hq. apply in_map_iff in Hq as (s & <- & Hs).
    apply filter_In in Hs as [_ Hs]. apply andb_prop in Hs as [_ Hs].
    now apply Nat.ltb_lt in Hs. }
  destruct ps as [|q qs] eqn:E.
  - intros Hp. apply in_map_iff in Hp as (s & <- & Hs).
    apply filter_In in Hs as [_ Hs]. apply Nat.ltb_lt in Hs. lia.
  - apply H1.
Qed.

(** X16. The buckets of [identify_contract_sections] hold as many
    entries, all together, as the text has paragraphs: no paragraph is
    lost and none is put twice.  Every entry is a paragraph of the
    split, stripped and longer than 50 characters. *)
Theorem sections_sizes (text : str) :
  exists sections,
    identify_contract_sections text = Ok sections
    /\ sizes sections = List.length (paragraphs text)
    /\ (forall k l p, dict_get k sections = Some l -> In p l ->
          In p (paragraphs text) /\ 50 < len p).
Proof.
  unfold identify_contract_sections.
  set (empty := map (fun kv : str * list str => (fst kv, @nil str)) keywords).
  assert (Hkeys : keys empty = section_keys) by reflexivity.
  rewrite sections_loop;
    [| rewrite Hkeys; apply section_keys_nodup
     | intros p _; rewrite Hkeys; apply bucket_is_key ].
  eexists. split; [reflexivity|]. split.
  - unfold sizes. rewrite map_map. cbn [snd fst].
    rewrite <- (bucket_sizes (paragraphs text) section_keys
                  section_keys_nodup (fun p _ => bucket_is_key p)).
    rewrite <- Hkeys. unfold keys, empty. rewrite !map_map. cbn [fst snd app].
    reflexivity.
  - intros k l p Hl Hp.
    rewrite (dict_get_map
               (fun kv => snd kv ++ filter (fun p => str_eqb (bucket_of p) (fst kv))
                                           (paragraphs text))) in Hl.
    destruct (dict_get k empty) as [v|] eqn:Hv; [|discriminate].
    apply dict_get_const in Hv. subst v. cbn [fst snd app] in Hl.
    injection Hl as <-. apply filter_In in Hp as [Hp _].
    split; [exact Hp | now apply (paragraph_length text)].
Qed.

(** ** The categories of obligations *)

Lemma collected_subset (k text e : str) :
  In e (collected k text) -> In e (collected k_all text).
Proof.
  unfold collected. intros H. apply in_map_iff in H as (s & <- & Hs).
  apply filter_In in Hs as [Hs _]. apply in_map, filter_In. auto.
Qed.

(** X17. When the text has ten distinct obligations at most, every entry
    of the critical, payment and performance lists that is no
    placeholder is an entry of the list of all obligations. *)
Theorem obligations_within_all (text k e : str) :
  List.length (fromkeys (collected k_all text)) <= 10 ->
  In e (finished k text) -> e <> no_obligations ->
  In e (finished k_all text).
Proof.
  unfold finished. intros Hlen He Hne.
  destruct (collected k text) as [|x r] eqn:Ek.
  - destruct He as [<-|[]]. contradiction.
  - rewrite <- Ek in He. apply In_firstn in He.
    apply (proj1 (fromkeys_In _ _)) in He. apply collected_subset in He.
    destruct (collected k_all text) as [|y l] eqn:Ea; [contradiction|].
    rewrite firstn_all2 by exact Hlen.
    now apply (proj2 (fromkeys_In _ _)).
Qed.

Lemma obligations_within_all_witness :
  let text := lit "The Tenant shall pay the rent on time. The Landlord must maintain the roof." in
  let e := lit "The Tenant shall pay the rent on time" in
  In e (finished k_payment text) /\ In e (finished k_all text).
Proof.
  intros text e.
  assert (H : In e (finished k_payment text)) by (vm_compute; tauto).
  split; [exact H|].
  apply (obligations_within_all text k_payment e);
    [vm_compute; lia | exact H | vm_compute; discriminate].
Defined.

(** ** The executive summary *)

Lemma starts_with_join (sep x : str) (l : list str) :
  starts_with x (join sep (x :: l)) = true.
Proof.
  apply starts_with_spec. destruct l as [|y l].
  - exists []. cbn [join]. now rewrite app_nil_r.
  - exists (sep ++ join sep (y :: l)). reflexivity.
Qed.

Section Summary.

Variable re_findall : str -> str -> list str.
Variable re_search : str -> str -> option str.
Variable set_to_list : list str -> list str.

Lemma summary_sentences (text : str) (sections financial_terms : dict (list str))
  (risk : risk_assessment) :
  let summary :=
    generate_executive_summary re_findall re_search text sections
      financial_terms risk in
  let contract_type := _determine_contract_type text in
  starts_with
    (lit "This is a " ++ contract_type ++ lit " focusing on "
     ++ _extract_main_subject re_search text contract_type ++ lit ".")
    summary = true
  /\ contains
       (lit "Risk analysis indicates a " ++ risk_level risk
        ++ lit " risk level with " ++ of_nat (List.length (reasons risk))
        ++ lit " identified risk factors.")
       summary = true.
Proof.
  cbv zeta. unfold generate_executive_summary. cbv zeta. split.
  - cbn [app]. apply starts_with_join.
  - apply contains_join. apply in_or_app. right.
    apply in_or_app. right. apply in_or_app. left. now left.
Qed.

(** X18. In the result of [process_contract] the executive summary
    opens with the sentence that names the contract type and the main
    subject given in the fields beside it, and holds the sentence that
    gives the level of the risk assessment of the result and the number
    of its reasons. *)
Theorem summary_names_fields (text : str) (lg : log) :
  let result := fst (process_contract re_findall re_search set_to_list text lg) in
  let risk := assess_contract_risks text in
  exists summary executive_summary contract_type main_subject,
    vget (lit "detailed_summary") result = Some summary
    /\ vget (lit "risk_assessment") result = Some (risk_to_value risk)
    /\ vget (lit "executive_summary") summary = Some (VStr executive_summary)
    /\ vget (lit "contract_type") summary = Some (VStr contract_type)
    /\ vget (lit "main_subject") summary = Some (VStr main_subject)
    /\ starts_with
         (lit "This is a " ++ contract_type ++ lit " focusing on "
          ++ main_subject ++ lit ".")
         executive_summary = true
    /\ contains
         (lit "Risk analysis indicates a " ++ risk_level risk
          ++ lit " risk level with " ++ of_nat (List.length (reasons risk))
          ++ lit " identified risk factors.")
         executive_summary = true.
Proof.
  cbv zeta. unfold process_contract.
  destruct (body_explicit re_findall re_search set_to_list text)
    as (sections & _ & ->).
  cbn [fst]. do 4 eexists.
  split; [reflexivity|]. split; [reflexivity|]. split; [reflexivity|].
  split; [reflexivity|]. split; [reflexivity|].
  apply summary_sentences.
Qed.

End Summary.

(** ** The order of the entity lists *)

Lemma entities_explicit (re_findall : str -> str -> list str)
  (order : list str -> list str) (text : str) :
  extract_key_entities re_findall order text =
  map (fun ep => (fst ep, firstn 10 (order (re_findall (snd ep) text))))
      entity_patterns.
Proof. reflexivity. Qed.

Lemma first_order_ok : set_order first_order.
Proof.
  intros l. split; [apply fromkeys_NoDup | intros x; apply fromkeys_In].
Qed.

Lemma last_order_ok : set_order last_order.
Proof.
  intros l. unfold last_order. split.
  - apply NoDup_rev, fromkeys_NoDup.
  - intros x. rewrite <- in_rev. apply fromkeys_In.
Qed.

Lemma set_order_perm (order1 order2 : list str -> list str) (l : list str) :
  set_order order1 -> set_order order2 ->
  Permutation (order1 l) (order2 l).
Proof.
  intros H1 H2. destruct (H1 l) as [N1 I1], (H2 l) as [N2 I2].
  apply NoDup_Permutation; auto.
  intros x. rewrite I1, I2. tauto.
Qed.

Lemma set_order_length (order : list str -> list str) (l : list str) :
  set_order order -> List.length (order l) = List.length (fromkeys l).
Proof.
  intros H. apply Permutation_length.
  apply (set_order_perm order first_order l H first_order_ok).
Qed.

Section Response.

Variables executive_summary contract_type main_subject : str.
Variable risk : risk_assessment.
Variables all_obligations amounts : list str.
Variable financial_terms : dict (list str).
Variables timeline key_terms : list (dict str).
Variables obligations sections : dict (list str).
Variable simplified_text : str.

Lemma response_sections (entities : dict (list str)) :
  vget (lit "sections")
    (success_response executive_summary contract_type main_subject risk
       all_obligations amounts financial_terms timeline key_terms
       obligations sections entities simplified_text) =
  Some (VListDict sections).
Proof. reflexivity. Qed.

Lemma response_entities (entities : dict (list str)) :
  vget (lit "entities")
    (success_response executive_summary contract_type main_subject risk
       all_obligations amounts financial_terms timeline key_terms
       obligations sections entities simplified_text) =
  Some (VListDict entities).
Proof. reflexivity. Qed.

(** The result apart from the entities. *)
Lemma response_apart (entities1 entities2 : dict (list str)) (k : str) :
  k <> lit "entities" ->
  vget k
    (success_response executive_summary contract_type main_subject risk
       all_obligations amounts financial_terms timeline key_terms
       obligations sections entities1 simplified_text) =
  vget k
    (success_response executive_summary contract_type main_subject risk
       all_obligations amounts financial_terms timeline key_terms
       obligations sections entities2 simplified_text).
Proof.
  intros Hk. unfold success_response. cbn [vget dict_get].
  repeat match goal with
         | |- context [str_eqb k ?x] =>
             let E := fresh "E" in
             destruct (str_eqb k x) eqn:E;
             [first [reflexivity | apply str_eqb_eq in E; contradiction]|]
         end.
  reflexivity.
Qed.

End Response.

(** C8. Two calls of [process_contract] on the same text, whatever the
    state of the log, return results that are equal in every field but
    the entities, the section buckets among the equal ones, whatever
    the order in which the interpreter gives the elements of a set.
    The entities of both results have the seven keys of the patterns;
    the two lists of a key hold no string twice, have the same length,
    ten at most, and hold matches of the pattern alone; when the
    pattern has ten distinct matches at most, each list holds them all
    and one is a permutation of the other.  When the sets of the seven
    lists of matches come in the same order in both calls, the two
    results are equal. *)
Theorem process_contract_deterministic
  (re_findall : str -> str -> list str) (re_search : str -> str -> option str)
  (order1 order2 : list str -> list str) (text : str) (lg1 lg2 : log) :
  set_order order1 -> set_order order2 ->
  let first := fst (process_contract re_findall re_search order1 text lg1) in
  let second := fst (process_contract re_findall re_search order2 text lg2) in
  (forall k, k <> lit "entities" -> vget k first = vget k second)
  /\ (exists sections,
        identify_contract_sections text = Ok sections
        /\ vget (lit "sections") first = Some (VListDict sections)
        /\ vget (lit "sections") second = Some (VListDict sections))
  /\ (exists entities1 entities2,
        vget (lit "entities") first = Some (VListDict entities1)
        /\ vget (lit "entities") second = Some (VListDict entities2)
        /\ keys entities1 = keys entity_patterns
        /\ keys entities2 = keys entity_patterns
        /\ forall k pattern,
             dict_get k entity_patterns = Some pattern ->
             exists l1 l2,
               dict_get k entities1 = Some l1
               /\ dict_get k entities2 = Some l2
               /\ NoDup l1 /\ NoDup l2
               /\ List.length l1 = List.length l2
               /\ List.length l1 <= 10
               /\ (forall x, In x l1 \/ In x l2 ->
                             In x (re_findall pattern text))
               /\ (List.length (fromkeys (re_findall pattern text)) <= 10 ->
                   Permutation l1 l2
                   /\ forall x, In x l1 <-> In x (re_findall pattern text)))
  /\ ((forall ep, In ep entity_patterns ->
         order1 (re_findall (snd ep) text) = order2 (re_findall (snd ep) text)) ->
      first = second).
Proof.
  intros O1 O2. cbv zeta.
  destruct (body_explicit re_findall re_search order1 text)
    as (sections & S1 & B1).
  destruct (body_explicit re_findall re_search order2 text)
    as (sections2 & S2 & B2).
  assert (E : sections2 = sections) by congruence. subst sections2.
  unfold process_contract. rewrite B1, B2. cbn [fst].
  split; [intros k Hk; now apply response_apart|].
  split.
  { exists sections. split; [exact S1|].
    split; apply response_sections. }
  split.
  { exists (extract_key_entities re_findall order1 text),
           (extract_key_entities re_findall order2 text).
    split; [apply response_entities|]. split; [apply response_entities|].
    rewrite !entities_explicit.
    split; [apply keys_map|]. split; [apply keys_map|].
    intros k pattern Hk. rewrite !dict_get_map, Hk. cbn [snd].
    set (l := re_findall pattern text).
    destruct (O1 l) as [N1 I1], (O2 l) as [N2 I2].
    do 2 eexists. split; [reflexivity|]. split; [reflexivity|].
    split; [now apply NoDup_firstn|]. split; [now apply NoDup_firstn|].
    split.
    { rewrite !length_firstn.
      now rewrite (Permutation_length (set_order_perm order1 order2 l O1 O2)). }
    split; [apply firstn_le_length|]. split.
    { intros x [H|H]; apply In_firstn in H; [apply I1 | apply I2]; exact H. }
    intros Hl.
    rewrite !firstn_all2 by (rewrite set_order_length; assumption).
    split; [now apply set_order_perm | exact I1]. }
  intros H.
  assert (E : extract_key_entities re_findall order1 text =
              extract_key_entities re_findall order2 text).
  { rewrite !entities_explicit. apply map_ext_in.
    intros ep Hep. now rewrite (H ep Hep). }
  now rewrite E.
Qed.

Lemma process_contract_deterministic_witness :
  set_order first_order /\ set_order last_order
  /\ vget (lit "sections")
       (fst (process_contract two_amounts_findall two_amounts_search
               first_order two_amounts [])) =
     vget (lit "sections")
       (fst (process_contract two_amounts_findall two_amounts_search
               last_order two_amounts [(lit "INFO", lit "started")])).
Proof.
  split; [exact first_order_ok|]. split; [exact last_order_ok|].
  apply (proj1 (process_contract_deterministic
                  two_amounts_findall two_amounts_search
                  first_order last_order two_amounts
                  [] [(lit "INFO", lit "started")]
                  first_order_ok last_order_ok)).
  vm_compute. discriminate.
Defined.

(** Two orders of the sets, two results: with the amounts of
    [two_amounts] in the order of their first occurrence, and in the
    reverse of it. *)
Lemma process_contract_deterministic_counterexample :
  set_order first_order /\ set_order last_order
  /\ vget (lit "entities")
       (fst (process_contract two_amounts_findall two_amounts_search
               first_order two_amounts [])) =
     Some (VListDict [
       (lit "amounts", [lit "$100"; lit "$200"]); (lit "dates", []);
       (lit "percentages", []); (lit "timeframes", []);
       (lit "addresses", []); (lit "phone_numbers", []);
       (lit "email_addresses", []) ])
  /\ vget (lit "entities")
       (fst (process_contract two_amounts_findall two_amounts_search
               last_order two_amounts [])) =
     Some (VListDict [
       (lit "amounts", [lit "$200"; lit "$100"]); (lit "dates", []);
       (lit "percentages", []); (lit "timeframes", []);
       (lit "addresses", []); (lit "phone_numbers", []);
       (lit "email_addresses", []) ])
  /\ fst (process_contract two_amounts_findall two_amounts_search
            first_order two_amounts [])
     <> fst (process_contract two_amounts_findall two_amounts_search
               last_order two_amounts []).
Proof.
  split; [exact first_order_ok|]. split; [exact last_order_ok|].
  split; [vm_compute; reflexivity|].
  split; [vm_compute; reflexivity|].
  vm_compute. discriminate.
Qed.
